(** * Wormhole arcade game: simulation core

    A shallow embedding of the fixed-timestep simulation core of the
    wormhole game (ship physics and cargo, hub, hazards, attack translation
    table, per-competitor grid state and the wormhole/grid portion of the
    orchestrator's physics step), followed by the properties established
    about it.

    JavaScript numbers that carry continuous quantities (coordinates,
    angles, radii, speeds) are modelled as real numbers, so [Math.sqrt],
    [Math.cos] and [Math.sin] are the real functions; numbers that the
    program only ever increments, decrements or compares as whole numbers
    (lives, tick counters, identifiers) are modelled as integers. *)

From Stdlib Require Import Reals Lra Lia ZArith List Bool String.
Import ListNotations.

Open Scope string_scope.
Open Scope list_scope.
Open Scope R_scope.

(** ** Comparisons on numbers *)

Definition Rleb (a b : R) : bool := if Rle_dec a b then true else false.
Definition Rltb (a b : R) : bool := if Rlt_dec a b then true else false.
Definition Reqb (a b : R) : bool := if Req_dec_T a b then true else false.

(** ** Array helpers *)

(** [Array.prototype.findIndex]; [None] stands for the result [-1]. *)
Fixpoint findIndex {A : Type} (p : A -> bool) (l : list A) : option nat :=
  match l with
  | [] => None
  | a :: l' =>
      if p a then Some O
      else match findIndex p l' with
           | Some i => Some (S i)
           | None => None
           end
  end.

(** [arr[i] = v] for an index inside the array. *)
Fixpoint setAt {A : Type} (i : nat) (v : A) (l : list A) : list A :=
  match l, i with
  | [], _ => []
  | _ :: l', O => v :: l'
  | a :: l', S i' => a :: setAt i' v l'
  end.

(** [arr.fill(v)] *)
Definition fill {A : Type} (v : A) (l : list A) : list A := map (fun _ => v) l.

(** ** shared/config *)

Definition SHIP_ROTATION_SPEED : R := 0.06.
Definition SHIP_THRUST : R := 0.12.
Definition SHIP_DRAG : R := 0.992.
Definition SHIP_MAX_SPEED : R := 5.
Definition WORLD_WIDTH : R := 1200.
Definition WORLD_HEIGHT : R := 800.
Definition PHYSICS_DT : R := 1000 / 60.

(** ** shared/Vec2 *)

Module Vec2.

Record t : Type := mk { x : R; y : R }.

Definition zero : t := mk 0 0.
Definition fromAngle (angle : R) : t := mk (cos angle) (sin angle).
Definition add (a b : t) : t := mk (x a + x b) (y a + y b).
Definition sub (a b : t) : t := mk (x a - x b) (y a - y b).
Definition mul (a : t) (scalar : R) : t := mk (x a * scalar) (y a * scalar).
Definition div (a : t) (scalar : R) : t := mk (x a / scalar) (y a / scalar).
Definition lengthSq (a : t) : R := x a * x a + y a * y a.
Definition length (a : t) : R := sqrt (x a * x a + y a * y a).

Definition normalize (a : t) : t :=
  let len := length a in
  if Reqb len 0 then mk 0 0 else div a len.

Definition clamp (a : t) (maxLength : R) : t :=
  let len := length a in
  if Rltb maxLength len then mul (normalize a) maxLength
  else mk (x a) (y a).

Definition lerp (a other : t) (k : R) : t :=
  mk (x a + (x other - x a) * k) (y a + (y other - y a) * k).

Definition clone (a : t) : t := mk (x a) (y a).

Definition set_x (v : R) (a : t) : t := mk v (y a).
Definition set_y (v : R) (a : t) : t := mk (x a) v.

End Vec2.

(** ** client/Orb: orb types *)

Inductive OrbType : Type := RED | BLUE | GREEN | GOLD.

Definition OrbType_eqb (a b : OrbType) : bool :=
  match a, b with
  | RED, RED | BLUE, BLUE | GREEN, GREEN | GOLD, GOLD => true
  | _, _ => false
  end.

(** ** client/Ship *)

Definition MAX_CARGO_SLOTS : nat := 4.
Definition MAX_LIVES : Z := 3.
Definition INVULNERABILITY_TIME : Z := 3 * 60.
Definition SHIP_COLLISION_RADIUS : R := 15.
Definition PLAYER_COLOR : string := "#33ff33".

Module Ship.

Record t : Type := mk {
  position : Vec2.t;
  velocity : Vec2.t;
  angle : R;
  previousPosition : Vec2.t;
  previousAngle : R;
  thrusting : bool;
  rotatingLeft : bool;
  rotatingRight : bool;
  cargo : list (option OrbType);
  lives : Z;
  invulnerabilityTimer : Z;
  isDead : bool;
  speedBoost : R;
  color : string
}.

Definition set_position (v : Vec2.t) (s : t) : t :=
  mk v (velocity s) (angle s) (previousPosition s) (previousAngle s)
     (thrusting s) (rotatingLeft s) (rotatingRight s) (cargo s) (lives s)
     (invulnerabilityTimer s) (isDead s) (speedBoost s) (color s).
Definition set_velocity (v : Vec2.t) (s : t) : t :=
  mk (position s) v (angle s) (previousPosition s) (previousAngle s)
     (thrusting s) (rotatingLeft s) (rotatingRight s) (cargo s) (lives s)
     (invulnerabilityTimer s) (isDead s) (speedBoost s) (color s).
Definition set_angle (v : R) (s : t) : t :=
  mk (position s) (velocity s) v (previousPosition s) (previousAngle s)
     (thrusting s) (rotatingLeft s) (rotatingRight s) (cargo s) (lives s)
     (invulnerabilityTimer s) (isDead s) (speedBoost s) (color s).
Definition set_previousPosition (v : Vec2.t) (s : t) : t :=
  mk (position s) (velocity s) (angle s) v (previousAngle s)
     (thrusting s) (rotatingLeft s) (rotatingRight s) (cargo s) (lives s)
     (invulnerabilityTimer s) (isDead s) (speedBoost s) (color s).
Definition set_previousAngle (v : R) (s : t) : t :=
  mk (position s) (velocity s) (angle s) (previousPosition s) v
     (thrusting s) (rotatingLeft s) (rotatingRight s) (cargo s) (lives s)
     (invulnerabilityTimer s) (isDead s) (speedBoost s) (color s).
Definition set_cargo (v : list (option OrbType)) (s : t) : t :=
  mk (position s) (velocity s) (angle s) (previousPosition s) (previousAngle s)
     (thrusting s) (rotatingLeft s) (rotatingRight s) v (lives s)
     (invulnerabilityTimer s) (isDead s) (speedBoost s) (color s).
Definition set_lives (v : Z) (s : t) : t :=
  mk (position s) (velocity s) (angle s) (previousPosition s) (previousAngle s)
     (thrusting s) (rotatingLeft s) (rotatingRight s) (cargo s) v
     (invulnerabilityTimer s) (isDead s) (speedBoost s) (color s).
Definition set_invulnerabilityTimer (v : Z) (s : t) : t :=
  mk (position s) (velocity s) (angle s) (previousPosition s) (previousAngle s)
     (thrusting s) (rotatingLeft s) (rotatingRight s) (cargo s) (lives s)
     v (isDead s) (speedBoost s) (color s).
Definition set_isDead (v : bool) (s : t) : t :=
  mk (position s) (velocity s) (angle s) (previousPosition s) (previousAngle s)
     (thrusting s) (rotatingLeft s) (rotatingRight s) (cargo s) (lives s)
     (invulnerabilityTimer s) v (speedBoost s) (color s).
Definition set_speedBoost (v : R) (s : t) : t :=
  mk (position s) (velocity s) (angle s) (previousPosition s) (previousAngle s)
     (thrusting s) (rotatingLeft s) (rotatingRight s) (cargo s) (lives s)
     (invulnerabilityTimer s) (isDead s) v (color s).

(** [constructor(x, y, color)] *)
Definition new (x0 y0 : R) (color0 : string) : t :=
  mk (Vec2.mk x0 y0) Vec2.zero (- PI / 2)
     (Vec2.clone (Vec2.mk x0 y0)) (- PI / 2)
     false false false
     (fill None (repeat None MAX_CARGO_SLOTS))
     MAX_LIVES 0%Z false 1.0 color0.

Definition savePreviousState (s : t) : t :=
  set_previousAngle (angle s)
    (set_previousPosition (Vec2.clone (position s)) s).

(** Private [wrapPosition]: shifts the position and the previous position
    by the same amount on each axis. *)
Definition wrapPosition (s : t) : t :=
  let s1 :=
    if Rltb (Vec2.x (position s)) 0 then
      set_previousPosition
        (Vec2.set_x (Vec2.x (previousPosition s) + WORLD_WIDTH) (previousPosition s))
        (set_position (Vec2.set_x (Vec2.x (position s) + WORLD_WIDTH) (position s)) s)
    else if Rltb WORLD_WIDTH (Vec2.x (position s)) then
      set_previousPosition
        (Vec2.set_x (Vec2.x (previousPosition s) - WORLD_WIDTH) (previousPosition s))
        (set_position (Vec2.set_x (Vec2.x (position s) - WORLD_WIDTH) (position s)) s)
    else s in
  if Rltb (Vec2.y (position s1)) 0 then
    set_previousPosition
      (Vec2.set_y (Vec2.y (previousPosition s1) + WORLD_HEIGHT) (previousPosition s1))
      (set_position (Vec2.set_y (Vec2.y (position s1) + WORLD_HEIGHT) (position s1)) s1)
  else if Rltb WORLD_HEIGHT (Vec2.y (position s1)) then
    set_previousPosition
      (Vec2.set_y (Vec2.y (previousPosition s1) - WORLD_HEIGHT) (previousPosition s1))
      (set_position (Vec2.set_y (Vec2.y (position s1) - WORLD_HEIGHT) (position s1)) s1)
  else s1.

Definition isInvulnerable (s : t) : bool := (0 <? invulnerabilityTimer s)%Z.

(** [update()]: one fixed physics step. *)
Definition update (s : t) : t :=
  if isDead s then s else
  (* Rotation *)
  let s1 := if rotatingLeft s then set_angle (angle s - SHIP_ROTATION_SPEED) s else s in
  let s2 := if rotatingRight s1 then set_angle (angle s1 + SHIP_ROTATION_SPEED) s1 else s1 in
  (* Thrust *)
  let s3 :=
    if thrusting s2 then
      let thrustVector :=
        Vec2.mul (Vec2.fromAngle (angle s2)) (SHIP_THRUST * speedBoost s2) in
      set_velocity (Vec2.add (velocity s2) thrustVector) s2
    else s2 in
  (* Speed cap (with boost) *)
  let s4 := set_velocity (Vec2.clamp (velocity s3) (SHIP_MAX_SPEED * speedBoost s3)) s3 in
  (* Drag *)
  let s5 := set_velocity (Vec2.mul (velocity s4) SHIP_DRAG) s4 in
  (* Position *)
  let s6 := set_position (Vec2.add (position s5) (velocity s5)) s5 in
  (* Screen wrap *)
  let s7 := wrapPosition s6 in
  (* Invulnerability *)
  let s8 :=
    if (0 <? invulnerabilityTimer s7)%Z
    then set_invulnerabilityTimer (invulnerabilityTimer s7 - 1)%Z s7
    else s7 in
  (* Speed boost is reset every frame *)
  set_speedBoost 1.0 s8.

Definition isSlot (item : option OrbType) : bool :=
  match item with Some _ => true | None => false end.
Definition isNull (item : option OrbType) : bool :=
  match item with Some _ => false | None => true end.

(** [this.cargo.filter(item => item !== null)] with the type guard. *)
Fixpoint collect (l : list (option OrbType)) : list OrbType :=
  match l with
  | [] => []
  | Some o :: l' => o :: collect l'
  | None :: l' => collect l'
  end.

Definition getCargoCount (s : t) : nat := List.length (filter isSlot (cargo s)).
Definition isCargoFull (s : t) : bool := (MAX_CARGO_SLOTS <=? getCargoCount s)%nat.
Definition isCargoEmpty (s : t) : bool := (getCargoCount s =? 0)%nat.

(** [addCargo(orbType)]: the returned boolean and the ship afterwards. *)
Definition addCargo (orbType : OrbType) (s : t) : bool * t :=
  match findIndex isNull (cargo s) with
  | None => (false, s)
  | Some emptySlot => (true, set_cargo (setAt emptySlot (Some orbType) (cargo s)) s)
  end.

(** [clearCargo()]: the collected orbs and the ship afterwards. *)
Definition clearCargo (s : t) : list OrbType * t :=
  (collect (cargo s), set_cargo (fill None (cargo s)) s).

(** [removeCargoAt(slotIndex)] *)
Definition removeCargoAt (slotIndex : Z) (s : t) : option OrbType * t :=
  if ((slotIndex <? 0) || (Z.of_nat MAX_CARGO_SLOTS <=? slotIndex))%Z%bool
  then (None, s)
  else (nth (Z.to_nat slotIndex) (cargo s) None,
        set_cargo (setAt (Z.to_nat slotIndex) None (cargo s)) s).

Definition getCargo (s : t) : list (option OrbType) := cargo s.

(** [takeDamage()]: whether the ship died, and the ship afterwards. *)
Definition takeDamage (s : t) : bool * t :=
  if isInvulnerable s || isDead s then (false, s) else
  let s1 := set_lives (lives s - 1)%Z s in
  let s2 := set_invulnerabilityTimer INVULNERABILITY_TIME s1 in
  let s3 := snd (clearCargo s2) in
  if (lives s3 <=? 0)%Z then (true, set_isDead true s3)
  else (false, s3).

Definition applySpeedBoost (multiplier : R) (s : t) : t :=
  set_speedBoost (Rmax (speedBoost s) multiplier) s.

Definition reset (x0 y0 : R) (s : t) : t :=
  mk (Vec2.mk x0 y0) Vec2.zero (- PI / 2)
     (Vec2.clone (Vec2.mk x0 y0)) (- PI / 2)
     (thrusting s) (rotatingLeft s) (rotatingRight s)
     (fill None (cargo s))
     MAX_LIVES 0%Z false 1.0 (color s).

End Ship.

(** ** client/Wormhole *)

Definition WORMHOLE_RADIUS : R := 80.
Definition WORMHOLE_BANKING_RADIUS : R := 120.
Definition WORMHOLE_ROTATION_SPEED : R := 0.018.

Module Wormhole.

Record t : Type := mk {
  position : Vec2.t;
  rotation : R;
  pulsePhase : R;
  pulseSpeed : R
}.

Definition new : t :=
  mk (Vec2.mk (WORLD_WIDTH / 2) (WORLD_HEIGHT / 2)) 0 0 0.05.

Definition update (h : t) : t :=
  mk (position h) (rotation h + WORMHOLE_ROTATION_SPEED)
     (pulsePhase h + pulseSpeed h) (pulseSpeed h).

Definition getRotation (h : t) : R := rotation h.

Definition getPulseIntensity (h : t) : R := (sin (pulsePhase h) + 1) / 2.

Definition isInBankingZone (h : t) (p : Vec2.t) : bool :=
  let dist := Vec2.length (Vec2.sub p (position h)) in
  Rleb dist WORMHOLE_BANKING_RADIUS.

Definition isInWormhole (h : t) (p : Vec2.t) : bool :=
  let dist := Vec2.length (Vec2.sub p (position h)) in
  Rleb dist WORMHOLE_RADIUS.

End Wormhole.

(** ** Grid owners, object references and the mutable world *)

Inductive GridOwner : Type := player | bot_1 | bot_2 | bot_3.

Definition GridOwner_eqb (a b : GridOwner) : bool :=
  match a, b with
  | player, player | bot_1, bot_1 | bot_2, bot_2 | bot_3, bot_3 => true
  | _, _ => false
  end.

Definition ownerName (o : GridOwner) : string :=
  match o with
  | player => "player" | bot_1 => "bot-1" | bot_2 => "bot-2" | bot_3 => "bot-3"
  end.

(** [owner.toUpperCase()] *)
Definition ownerUpper (o : GridOwner) : string :=
  match o with
  | player => "PLAYER" | bot_1 => "BOT-1" | bot_2 => "BOT-2" | bot_3 => "BOT-3"
  end.

(** A [Ship] object is created only by the constructor of a grid and lives
    as long as that grid, so a reference to a ship is the owner of its grid. *)
Definition ShipRef : Type := GridOwner.

(** A reference to a [Wormhole] object: its index in the world's store. *)
Definition WormholeRef : Type := nat.

(** Invocations of the grid callbacks, in order (newest first). *)
Inductive Event : Type :=
| EvBankOrbs (owner : GridOwner) (orbs : list OrbType)
| EvShipDestroyed (owner : GridOwner)
| EvKillFeed (message : string).

(** State outside any single object: the values [Math.random()] yields and
    how many were consumed, the module-level identifier counters, the store
    of [Wormhole] objects (grids hold references into it, so that a hub can
    be shared), and the trace of callback invocations. *)
Record World : Type := mkWorld {
  randoms : nat -> R;
  cursor : nat;
  hazardIdCounter : Z;
  orbNextId : Z;
  wormholes : list Wormhole.t;
  trace : list Event
}.

(** Computations that read and change the world; [None] is a thrown error. *)
Definition M (A : Type) : Type := World -> option (A * World).

Definition ret {A : Type} (a : A) : M A := fun w => Some (a, w).

Definition bind {A B : Type} (c : M A) (k : A -> M B) : M B :=
  fun w => match c w with
           | Some (a, w') => k a w'
           | None => None
           end.

Definition throw {A : Type} : M A := fun _ => None.

Declare Scope world_scope.
Delimit Scope world_scope with world.
Notation "x <- c ;; k" := (bind c (fun x => k))
  (at level 61, c at next level, right associativity) : world_scope.
Notation "c ;;; k" := (bind c (fun _ => k))
  (at level 61, right associativity) : world_scope.
Open Scope world_scope.

(** [Math.random()] *)
Definition random : M R :=
  fun w => Some (randoms w (cursor w),
                 mkWorld (randoms w) (S (cursor w)) (hazardIdCounter w)
                         (orbNextId w) (wormholes w) (trace w)).

(** [hazardIdCounter++] *)
Definition nextHazardId : M Z :=
  fun w => Some (hazardIdCounter w,
                 mkWorld (randoms w) (cursor w) (hazardIdCounter w + 1)%Z
                         (orbNextId w) (wormholes w) (trace w)).

(** [Orb.nextId++] *)
Definition nextOrbId : M Z :=
  fun w => Some (orbNextId w,
                 mkWorld (randoms w) (cursor w) (hazardIdCounter w)
                         (orbNextId w + 1)%Z (wormholes w) (trace w)).

(** [new Wormhole()]: allocates the object and returns a reference to it. *)
Definition newWormhole : M WormholeRef :=
  fun w => Some (List.length (wormholes w),
                 mkWorld (randoms w) (cursor w) (hazardIdCounter w)
                         (orbNextId w) (wormholes w ++ [Wormhole.new]) (trace w)).

Definition readWormhole (r : WormholeRef) : M Wormhole.t :=
  fun w => match nth_error (wormholes w) r with
           | Some h => Some (h, w)
           | None => None
           end.

(** Runs a method of the referenced [Wormhole] object in place. *)
Definition modifyWormhole (r : WormholeRef) (f : Wormhole.t -> Wormhole.t) : M unit :=
  fun w => match nth_error (wormholes w) r with
           | Some h => Some (tt, mkWorld (randoms w) (cursor w) (hazardIdCounter w)
                                         (orbNextId w) (setAt r (f h) (wormholes w))
                                         (trace w))
           | None => None
           end.

Definition emit (e : Event) : M unit :=
  fun w => Some (tt, mkWorld (randoms w) (cursor w) (hazardIdCounter w)
                             (orbNextId w) (wormholes w) (e :: trace w)).

(** [cb?.(args)]: records the invocation, then runs the handler. *)
Definition invoke (cb : option (M unit)) (e : Event) : M unit :=
  match cb with
  | Some handler => emit e ;;; handler
  | None => ret tt
  end.

(** [for (let i = 0; i < n; i++) acc.push(body(i))], from index [i]. *)
Fixpoint forPush {A : Type} (n : nat) (i : nat) (body : nat -> M A) : M (list A) :=
  match n with
  | O => ret []
  | S n' => a <- body i ;; l <- forPush n' (S i) body ;; ret (a :: l)
  end.

(** [for (const a of l) st = body(a, st)] *)
Fixpoint forEachM {A S : Type} (l : list A) (body : A -> S -> M S) (st : S) : M S :=
  match l with
  | [] => ret st
  | a :: l' => st' <- body a st ;; forEachM l' body st'
  end.

(** ** client/ParticleSystem *)

Module ParticleSystem.

Record Particle : Type := mkParticle {
  position : Vec2.t;
  velocity : Vec2.t;
  life : Z;
  maxLife : Z;
  size : R;
  color : string;
  alpha : R
}.

Record t : Type := mk { particles : list Particle }.

Definition new : t := mk [].

Definition createBurst (p : Vec2.t) (color0 : string)
    (count : nat) (spread size0 : R) (life0 : Z) (ps : t) : M t :=
  added <- forPush count 0 (fun i =>
    r1 <- random ;;
    let angle := (PI * 2 * INR i) / INR count + r1 * 0.5 in
    r2 <- random ;;
    let speed := r2 * spread + 1 in
    let velocity0 := Vec2.mul (Vec2.fromAngle angle) speed in
    r3 <- random ;;
    ret (mkParticle (Vec2.clone p) velocity0 life0 life0
                    (size0 * (0.5 + r3 * 0.5)) color0 1)) ;;
  ret (mk (particles ps ++ added)).

Definition createCollectionBurst (p : Vec2.t) (color0 : string) (ps : t) : M t :=
  createBurst p color0 12 4 5 40 ps.

Definition createBankingBurst (p : Vec2.t) (color0 : string) (ps : t) : M t :=
  createBurst p color0 20 6 6 50 ps.

Definition stepParticle (p : Particle) : Particle :=
  mkParticle (Vec2.add (position p) (velocity p))
             (Vec2.mul (velocity p) 0.95)
             (life p - 1)%Z (maxLife p) (size p) (color p)
             (IZR (life p - 1) / IZR (maxLife p)).

(** [update()]: every particle is stepped once and the dead ones are
    spliced out; the survivors keep their order. *)
Definition update (ps : t) : t :=
  mk (filter (fun p => negb (life p <=? 0)%Z) (map stepParticle (particles ps))).

Definition clear (ps : t) : t := mk [].

Definition getCount (ps : t) : nat := List.length (particles ps).

End ParticleSystem.

(** ** client/Orb *)

Definition ORB_RADIUS : R := 12.
Definition ORB_BOB_SPEED : R := 0.08.
Definition ORB_BOB_AMOUNT : R := 3.

Definition ORB_SPAWN_WEIGHTS : list (OrbType * R) :=
  [(RED, 0.40); (BLUE, 0.35); (GREEN, 0.20); (GOLD, 0.05)].

Module Orb.

Record t : Type := mk {
  position : Vec2.t;
  type : OrbType;
  bobPhase : R;
  id : Z
}.

Definition new (p : Vec2.t) (ty : OrbType) : M t :=
  i <- nextOrbId ;;
  r <- random ;;
  ret (mk p ty (r * PI * 2) i).

Definition update (o : t) : t :=
  mk (position o) (type o) (bobPhase o + ORB_BOB_SPEED) (id o).

Definition collidesWith (o : t) (shipPosition : Vec2.t) (shipRadius : R) : bool :=
  let dist := Vec2.length (Vec2.sub (position o) shipPosition) in
  Rleb dist (shipRadius + ORB_RADIUS).

Fixpoint pick (rand cumulative : R) (weights : list (OrbType * R)) : OrbType :=
  match weights with
  | [] => RED
  | (ty, weight) :: rest =>
      let cumulative' := cumulative + weight in
      if Rleb rand cumulative' then ty else pick rand cumulative' rest
  end.

Definition getRandomType : M OrbType :=
  rand <- random ;;
  ret (pick rand 0 ORB_SPAWN_WEIGHTS).

End Orb.

(** ** client/Hazard *)

Inductive HazardType : Type := ASTEROID | SEEKER | MINE | NUKE.

Definition HazardType_eqb (a b : HazardType) : bool :=
  match a, b with
  | ASTEROID, ASTEROID | SEEKER, SEEKER | MINE, MINE | NUKE, NUKE => true
  | _, _ => false
  end.

Module Asteroid.

Record t : Type := mk {
  id : Z;
  position : Vec2.t;
  velocity : Vec2.t;
  radius : R;
  lifetime : Z;
  maxLifetime : Z;
  active : bool;
  rotation : R;
  rotationSpeed : R;
  isLarge : bool;
  shapeOffsets : list R
}.

Definition new (position0 velocity0 : Vec2.t) (isLarge0 : bool) : M t :=
  let maxLifetime0 := (15 * 60)%Z in
  id0 <- nextHazardId ;;
  r1 <- random ;;
  r2 <- random ;;
  offsets <- forPush 8 0 (fun _ => r <- random ;; ret (0.8 + r * 0.4)) ;;
  ret (mk id0 position0 velocity0 (if isLarge0 then 35 else 20)
          maxLifetime0 maxLifetime0 true
          (r1 * PI * 2) ((r2 - 0.5) * 0.1) isLarge0 offsets).

Definition set_position (v : Vec2.t) (a : t) : t :=
  mk (id a) v (velocity a) (radius a) (lifetime a) (maxLifetime a) (active a)
     (rotation a) (rotationSpeed a) (isLarge a) (shapeOffsets a).
Definition set_velocity (v : Vec2.t) (a : t) : t :=
  mk (id a) (position a) v (radius a) (lifetime a) (maxLifetime a) (active a)
     (rotation a) (rotationSpeed a) (isLarge a) (shapeOffsets a).
Definition set_active (v : bool) (a : t) : t :=
  mk (id a) (position a) (velocity a) (radius a) (lifetime a) (maxLifetime a) v
     (rotation a) (rotationSpeed a) (isLarge a) (shapeOffsets a).

Definition update (a : t) : t :=
  if negb (active a) then a else
  (* Move *)
  let a1 :=
    mk (id a) (Vec2.add (position a) (velocity a)) (velocity a) (radius a)
       (lifetime a) (maxLifetime a) (active a)
       (rotation a + rotationSpeed a) (rotationSpeed a) (isLarge a)
       (shapeOffsets a) in
  (* Bounce off walls *)
  let a2 :=
    if Rltb (Vec2.x (position a1)) (radius a1) then
      set_velocity (Vec2.set_x (Rabs (Vec2.x (velocity a1))) (velocity a1))
        (set_position (Vec2.set_x (radius a1) (position a1)) a1)
    else if Rltb (WORLD_WIDTH - radius a1) (Vec2.x (position a1)) then
      set_velocity (Vec2.set_x (- Rabs (Vec2.x (velocity a1))) (velocity a1))
        (set_position (Vec2.set_x (WORLD_WIDTH - radius a1) (position a1)) a1)
    else a1 in
  let a3 :=
    if Rltb (Vec2.y (position a2)) (radius a2) then
      set_velocity (Vec2.set_y (Rabs (Vec2.y (velocity a2))) (velocity a2))
        (set_position (Vec2.set_y (radius a2) (position a2)) a2)
    else if Rltb (WORLD_HEIGHT - radius a2) (Vec2.y (position a2)) then
      set_velocity (Vec2.set_y (- Rabs (Vec2.y (velocity a2))) (velocity a2))
        (set_position (Vec2.set_y (WORLD_HEIGHT - radius a2) (position a2)) a2)
    else a2 in
  mk (id a3) (position a3) (velocity a3) (radius a3) (lifetime a3 - 1)%Z
     (maxLifetime a3) (active a3) (rotation a3) (rotationSpeed a3)
     (isLarge a3) (shapeOffsets a3).

Definition collidesWith (a : t) (shipPosition : Vec2.t) (shipRadius : R) : bool :=
  if negb (active a) then false else
  let dist := Vec2.length (Vec2.sub (position a) shipPosition) in
  Rleb dist (radius a + shipRadius).

Definition isExpired (a : t) : bool := (lifetime a <=? 0)%Z.

End Asteroid.

Module SeekerDrone.

Record t : Type := mk {
  id : Z;
  position : Vec2.t;
  velocity : Vec2.t;
  radius : R;
  lifetime : Z;
  maxLifetime : Z;
  active : bool;
  wobblePhase : R;
  maxSpeed : R;
  targetShip : option ShipRef
}.

Definition new (position0 : Vec2.t) : M t :=
  let maxLifetime0 := (20 * 60)%Z in
  id0 <- nextHazardId ;;
  r <- random ;;
  ret (mk id0 position0 Vec2.zero 12 maxLifetime0 maxLifetime0 true
          (r * PI * 2) (SHIP_MAX_SPEED * 0.6) None).

Definition setTarget (ship : ShipRef) (d : t) : t :=
  mk (id d) (position d) (velocity d) (radius d) (lifetime d) (maxLifetime d)
     (active d) (wobblePhase d) (maxSpeed d) (Some ship).

Definition set_active (v : bool) (d : t) : t :=
  mk (id d) (position d) (velocity d) (radius d) (lifetime d) (maxLifetime d)
     v (wobblePhase d) (maxSpeed d) (targetShip d).

(** [update()]; [ships] dereferences a ship reference to the ship's
    current state. *)
Definition update (ships : ShipRef -> Ship.t) (d : t) : t :=
  if negb (active d) then d else
  match targetShip d with
  | None => d
  | Some ref =>
      let ship := ships ref in
      let wobblePhase1 := wobblePhase d + 0.1 in
      (* Direction to player *)
      let toPlayer := Vec2.sub (Ship.position ship) (position d) in
      let distance := Vec2.length toPlayer in
      let velocity1 :=
        if Rltb 0 distance then
          let direction := Vec2.normalize toPlayer in
          let wobbleAmount := 0.3 in
          let wobbleX := cos wobblePhase1 * wobbleAmount in
          let wobbleY := sin (wobblePhase1 * 1.3) * wobbleAmount in
          let direction' :=
            Vec2.normalize (Vec2.mk (Vec2.x direction + wobbleX)
                                    (Vec2.y direction + wobbleY)) in
          Vec2.mul direction' (maxSpeed d)
        else velocity d in
      (* Move *)
      let p0 := Vec2.add (position d) velocity1 in
      (* Screen wrap *)
      let p1 := if Rltb (Vec2.x p0) 0 then Vec2.set_x (Vec2.x p0 + WORLD_WIDTH) p0 else p0 in
      let p2 := if Rltb WORLD_WIDTH (Vec2.x p1) then Vec2.set_x (Vec2.x p1 - WORLD_WIDTH) p1 else p1 in
      let p3 := if Rltb (Vec2.y p2) 0 then Vec2.set_y (Vec2.y p2 + WORLD_HEIGHT) p2 else p2 in
      let p4 := if Rltb WORLD_HEIGHT (Vec2.y p3) then Vec2.set_y (Vec2.y p3 - WORLD_HEIGHT) p3 else p3 in
      mk (id d) p4 velocity1 (radius d) (lifetime d - 1)%Z (maxLifetime d)
         (active d) wobblePhase1 (maxSpeed d) (targetShip d)
  end.

Definition collidesWith (d : t) (shipPosition : Vec2.t) (shipRadius : R) : bool :=
  if negb (active d) then false else
  let dist := Vec2.length (Vec2.sub (position d) shipPosition) in
  Rleb dist (radius d + shipRadius).

Definition isExpired (d : t) : bool := (lifetime d <=? 0)%Z.

End SeekerDrone.

Module Mine.

Record t : Type := mk {
  id : Z;
  position : Vec2.t;
  velocity : Vec2.t;
  radius : R;
  armingRadius : R;
  lifetime : Z;
  maxLifetime : Z;
  armingTime : Z;
  active : bool;
  armed : bool;
  blinkPhase : R
}.

Definition new (position0 : Vec2.t) : M t :=
  let maxLifetime0 := (30 * 60)%Z in
  id0 <- nextHazardId ;;
  ret (mk id0 position0 Vec2.zero 10 60 maxLifetime0 maxLifetime0
          (2 * 60)%Z true false 0).

Definition set_active (v : bool) (m : t) : t :=
  mk (id m) (position m) (velocity m) (radius m) (armingRadius m) (lifetime m)
     (maxLifetime m) (armingTime m) v (armed m) (blinkPhase m).

Definition update (m : t) : t :=
  if negb (active m) then m else
  let m1 :=
    if negb (armed m) then
      let armingTime1 := (armingTime m - 1)%Z in
      mk (id m) (position m) (velocity m) (radius m) (armingRadius m)
         (lifetime m) (maxLifetime m) armingTime1 (active m)
         (if (armingTime1 <=? 0)%Z then true else armed m) (blinkPhase m)
    else
      mk (id m) (position m) (velocity m) (radius m) (armingRadius m)
         (lifetime m) (maxLifetime m) (armingTime m) (active m)
         (armed m) (blinkPhase m + 0.2) in
  mk (id m1) (position m1) (velocity m1) (radius m1) (armingRadius m1)
     (lifetime m1 - 1)%Z (maxLifetime m1) (armingTime m1) (active m1)
     (armed m1) (blinkPhase m1).

Definition collidesWith (m : t) (shipPosition : Vec2.t) (shipRadius : R) : bool :=
  if negb (active m) then false else
  if armed m then
    let dist := Vec2.length (Vec2.sub (position m) shipPosition) in
    Rleb dist (armingRadius m + shipRadius)
  else
    let dist := Vec2.length (Vec2.sub (position m) shipPosition) in
    Rleb dist (radius m + shipRadius).

Definition isExpired (m : t) : bool := (lifetime m <=? 0)%Z.

Definition getBlinkAlpha (m : t) : R :=
  if negb (armed m) then 0 else (sin (blinkPhase m) + 1) / 2 * 0.8 + 0.2.

End Mine.

Module Nuke.

Record t : Type := mk {
  id : Z;
  position : Vec2.t;
  velocity : Vec2.t;
  radius : R;
  maxRadius : R;
  lifetime : Z;
  maxLifetime : Z;
  countdownTime : Z;
  detonated : bool;
  explosionTime : Z;
  maxExplosionTime : Z;
  active : bool;
  safeZoneRadius : R
}.

Definition new (position0 : Vec2.t) : M t :=
  let countdownTime0 := (5 * 60)%Z in
  let maxExplosionTime0 := (2 * 60)%Z in
  id0 <- nextHazardId ;;
  let maxLifetime0 := (countdownTime0 + maxExplosionTime0)%Z in
  ret (mk id0 position0 Vec2.zero 0 375 maxLifetime0 maxLifetime0
          countdownTime0 false 0%Z maxExplosionTime0 true 50).

Definition set_active (v : bool) (n : t) : t :=
  mk (id n) (position n) (velocity n) (radius n) (maxRadius n) (lifetime n)
     (maxLifetime n) (countdownTime n) (detonated n) (explosionTime n)
     (maxExplosionTime n) v (safeZoneRadius n).

Definition detonate (n : t) : t :=
  mk (id n) (position n) (velocity n) (radius n) (maxRadius n) (lifetime n)
     (maxLifetime n) (countdownTime n) true 0%Z
     (maxExplosionTime n) (active n) (safeZoneRadius n).

Definition update (n : t) : t :=
  if negb (active n) then n else
  let n1 :=
    if negb (detonated n) then
      let n' :=
        mk (id n) (position n) (velocity n) (radius n) (maxRadius n) (lifetime n)
           (maxLifetime n) (countdownTime n - 1)%Z (detonated n) (explosionTime n)
           (maxExplosionTime n) (active n) (safeZoneRadius n) in
      if (countdownTime n' <=? 0)%Z then detonate n' else n'
    else
      (* Expand explosion *)
      let explosionTime1 := (explosionTime n + 1)%Z in
      let progress := IZR explosionTime1 / IZR (maxExplosionTime n) in
      mk (id n) (position n) (velocity n)
         (maxRadius n * Rmin (progress * 1.5) 1) (maxRadius n) (lifetime n)
         (maxLifetime n) (countdownTime n) (detonated n) explosionTime1
         (maxExplosionTime n)
         (if (maxExplosionTime n <=? explosionTime1)%Z then false else active n)
         (safeZoneRadius n) in
  mk (id n1) (position n1) (velocity n1) (radius n1) (maxRadius n1)
     (lifetime n1 - 1)%Z (maxLifetime n1) (countdownTime n1) (detonated n1)
     (explosionTime n1) (maxExplosionTime n1) (active n1) (safeZoneRadius n1).

Definition corners : list Vec2.t :=
  [ Vec2.mk 0 0;
    Vec2.mk WORLD_WIDTH 0;
    Vec2.mk 0 WORLD_HEIGHT;
    Vec2.mk WORLD_WIDTH WORLD_HEIGHT ].

Definition collidesWith (n : t) (shipPosition : Vec2.t) (shipRadius : R) : bool :=
  if negb (active n) || negb (detonated n) then false else
  (* Safe zone (center) *)
  let distFromCenter := Vec2.length (Vec2.sub shipPosition (position n)) in
  if Rleb distFromCenter (safeZoneRadius n) then false else
  (* Corners (safe zones) *)
  if existsb (fun corner =>
                let distFromCorner := Vec2.length (Vec2.sub shipPosition corner) in
                Rltb distFromCorner 80) corners
  then false else
  (* Blast radius *)
  let dist := Vec2.length (Vec2.sub (position n) shipPosition) in
  Rleb dist (radius n + shipRadius).

Definition isExpired (n : t) : bool := (lifetime n <=? 0)%Z.

(** [Math.ceil(countdownTime / 60)] on whole numbers. *)
Definition getCountdownSeconds (n : t) : Z := (- ((- countdownTime n) / 60))%Z.

End Nuke.

Module SpeedBoostZone.

Record t : Type := mk {
  id : Z;
  position : Vec2.t;
  radius : R;
  lifetime : Z;
  maxLifetime : Z;
  active : bool;
  boostMultiplier : R
}.

Definition new (position0 : Vec2.t) (isEnhanced : bool) : M t :=
  id0 <- nextHazardId ;;
  ret (if isEnhanced
       then mk id0 position0 150 (15 * 60)%Z (15 * 60)%Z true 2.0
       else mk id0 position0 100 (10 * 60)%Z (10 * 60)%Z true 1.5).

Definition update (z : t) : t :=
  let lifetime1 := (lifetime z - 1)%Z in
  mk (id z) (position z) (radius z) lifetime1 (maxLifetime z)
     (if (lifetime1 <=? 0)%Z then false else active z) (boostMultiplier z).

Definition contains (z : t) (p : Vec2.t) : bool :=
  if negb (active z) then false else
  Rleb (Vec2.length (Vec2.sub (position z) p)) (radius z).

Definition isExpired (z : t) : bool := (lifetime z <=? 0)%Z.

Definition getIntensity (z : t) : R := IZR (lifetime z) / IZR (maxLifetime z).

End SpeedBoostZone.

(** The [Hazard] interface: one variant per implementing class. *)
Inductive Hazard : Type :=
| HAsteroid (a : Asteroid.t)
| HSeeker (d : SeekerDrone.t)
| HMine (m : Mine.t)
| HNuke (n : Nuke.t).

Module HazardOps.

Definition type (h : Hazard) : HazardType :=
  match h with
  | HAsteroid _ => ASTEROID
  | HSeeker _ => SEEKER
  | HMine _ => MINE
  | HNuke _ => NUKE
  end.

Definition id (h : Hazard) : Z :=
  match h with
  | HAsteroid a => Asteroid.id a
  | HSeeker d => SeekerDrone.id d
  | HMine m => Mine.id m
  | HNuke n => Nuke.id n
  end.

Definition position (h : Hazard) : Vec2.t :=
  match h with
  | HAsteroid a => Asteroid.position a
  | HSeeker d => SeekerDrone.position d
  | HMine m => Mine.position m
  | HNuke n => Nuke.position n
  end.

Definition radius (h : Hazard) : R :=
  match h with
  | HAsteroid a => Asteroid.radius a
  | HSeeker d => SeekerDrone.radius d
  | HMine m => Mine.radius m
  | HNuke n => Nuke.radius n
  end.

Definition active (h : Hazard) : bool :=
  match h with
  | HAsteroid a => Asteroid.active a
  | HSeeker d => SeekerDrone.active d
  | HMine m => Mine.active m
  | HNuke n => Nuke.active n
  end.

Definition update (ships : ShipRef -> Ship.t) (h : Hazard) : Hazard :=
  match h with
  | HAsteroid a => HAsteroid (Asteroid.update a)
  | HSeeker d => HSeeker (SeekerDrone.update ships d)
  | HMine m => HMine (Mine.update m)
  | HNuke n => HNuke (Nuke.update n)
  end.

Definition collidesWith (h : Hazard) (shipPosition : Vec2.t) (shipRadius : R) : bool :=
  match h with
  | HAsteroid a => Asteroid.collidesWith a shipPosition shipRadius
  | HSeeker d => SeekerDrone.collidesWith d shipPosition shipRadius
  | HMine m => Mine.collidesWith m shipPosition shipRadius
  | HNuke n => Nuke.collidesWith n shipPosition shipRadius
  end.

Definition isExpired (h : Hazard) : bool :=
  match h with
  | HAsteroid a => Asteroid.isExpired a
  | HSeeker d => SeekerDrone.isExpired d
  | HMine m => Mine.isExpired m
  | HNuke n => Nuke.isExpired n
  end.

End HazardOps.

(** ** client/AttackTranslator *)

Inductive AttackTier : Type := TIER_1 | TIER_1_5 | TIER_2 | TIER_3 | TIER_4.

(** The numeric value of each enum member. *)
Definition tierValue (k : AttackTier) : R :=
  match k with
  | TIER_1 => 1
  | TIER_1_5 => 1.5
  | TIER_2 => 2
  | TIER_3 => 3
  | TIER_4 => 4
  end.

Module AttackResult.

Record t : Type := mk {
  hazards : list Hazard;
  boostZones : list SpeedBoostZone.t;
  tier : AttackTier;
  description : string
}.

End AttackResult.

(** [counts: Record<OrbType, number>] *)
Record Counts : Type := mkCounts {
  cRED : nat; cBLUE : nat; cGREEN : nat; cGOLD : nat
}.

Definition countOf (c : Counts) (ty : OrbType) : nat :=
  match ty with
  | RED => cRED c | BLUE => cBLUE c | GREEN => cGREEN c | GOLD => cGOLD c
  end.

(** [counts[orb]++] *)
Definition increment (c : Counts) (orb : OrbType) : Counts :=
  match orb with
  | RED => mkCounts (S (cRED c)) (cBLUE c) (cGREEN c) (cGOLD c)
  | BLUE => mkCounts (cRED c) (S (cBLUE c)) (cGREEN c) (cGOLD c)
  | GREEN => mkCounts (cRED c) (cBLUE c) (S (cGREEN c)) (cGOLD c)
  | GOLD => mkCounts (cRED c) (cBLUE c) (cGREEN c) (S (cGOLD c))
  end.

Definition countCargo (cargo : list OrbType) : Counts :=
  fold_left increment cargo (mkCounts 0 0 0 0).

(** [for (const type of [RED, BLUE, GREEN]) if (counts[type] >= n) return ...]:
    the first color that reaches [n], if any. *)
Definition firstColorWith (c : Counts) (n : nat) : option OrbType :=
  find (fun ty => (n <=? countOf c ty)%nat) [RED; BLUE; GREEN].

Definition getRandomEdgePosition (center : Vec2.t) (minDistance : R) : M Vec2.t :=
  r <- random ;;
  let edge := Int_part (r * 4) in
  match edge with
  | 0%Z => r' <- random ;; ret (Vec2.mk (r' * WORLD_WIDTH) 30)
  | 1%Z => r' <- random ;; ret (Vec2.mk (WORLD_WIDTH - 30) (r' * WORLD_HEIGHT))
  | 2%Z => r' <- random ;; ret (Vec2.mk (r' * WORLD_WIDTH) (WORLD_HEIGHT - 30))
  | 3%Z => r' <- random ;; ret (Vec2.mk 30 (r' * WORLD_HEIGHT))
  | _ => ret (Vec2.mk 0 0)
  end.

Definition getRandomPosition (center : Vec2.t) (minDistance : R) : M Vec2.t :=
  r1 <- random ;;
  let angle := r1 * PI * 2 in
  r2 <- random ;;
  let distance := minDistance + r2 * 200 in
  ret (Vec2.mk (Vec2.x center + cos angle * distance)
               (Vec2.y center + sin angle * distance)).

Definition spawnAsteroid (wormholePosition : Vec2.t) (isLarge : bool) : M Hazard :=
  spawnPos <- getRandomEdgePosition wormholePosition 200 ;;
  r1 <- random ;;
  let angle := r1 * PI * 2 in
  r2 <- random ;;
  let speed := 1 + r2 * 2 in
  let velocity := Vec2.mul (Vec2.fromAngle angle) speed in
  a <- Asteroid.new spawnPos velocity isLarge ;;
  ret (HAsteroid a).

(** The wall: one edge drawn at random, 8 asteroids in a line.  When the
    drawn edge is none of 0..3 the velocity stays undefined and cloning it
    throws. *)
Definition spawnAsteroidWall (wormholePosition : Vec2.t) : M (list Hazard) :=
  r <- random ;;
  let spawnEdge := Int_part (r * 4) in
  let count := 8%nat in
  start <-
    match spawnEdge with
    | 0%Z => r' <- random ;;
             ret (WORLD_WIDTH / 2 - 200, 50, Some (Vec2.mk 0 (2 + r')))
    | 1%Z => r' <- random ;;
             ret (WORLD_WIDTH - 50, WORLD_HEIGHT / 2 - 200, Some (Vec2.mk (- (2 + r')) 0))
    | 2%Z => r' <- random ;;
             ret (WORLD_WIDTH / 2 - 200, WORLD_HEIGHT - 50, Some (Vec2.mk 0 (- (2 + r'))))
    | 3%Z => r' <- random ;;
             ret (50, WORLD_HEIGHT / 2 - 200, Some (Vec2.mk (2 + r') 0))
    | _ => ret (0, 0, None)
    end ;;
  let '(startX, startY, velocity) := start in
  let spacing := if (Z.rem spawnEdge 2 =? 0)%Z then 60 else 60 in
  forPush count 0 (fun i =>
    let x := if (Z.rem spawnEdge 2 =? 0)%Z then startX + INR i * spacing else startX in
    let y := if (Z.rem spawnEdge 2 =? 1)%Z then startY + INR i * spacing else startY in
    match velocity with
    | None => throw
    | Some v =>
        a <- Asteroid.new (Vec2.mk x y) (Vec2.clone v) (Nat.modulo i 3 =? 0)%nat ;;
        ret (HAsteroid a)
    end).

Definition spawnSeeker (ship : ShipRef) (wormholePosition : Vec2.t) : M Hazard :=
  spawnPos <- getRandomPosition wormholePosition 150 ;;
  seeker <- SeekerDrone.new spawnPos ;;
  ret (HSeeker (SeekerDrone.setTarget ship seeker)).

Definition spawnMine (wormholePosition : Vec2.t) : M Hazard :=
  spawnPos <- getRandomPosition wormholePosition 250 ;;
  m <- Mine.new spawnPos ;;
  ret (HMine m).

Definition spawnNuke (wormholePosition : Vec2.t) : M Hazard :=
  n <- Nuke.new wormholePosition ;;
  ret (HNuke n).

Definition spawnTier1Attack (type : OrbType) (ship : ShipRef)
    (wormholePosition : Vec2.t) : M AttackResult.t :=
  match type with
  | RED =>
      hs <- forPush 3 0 (fun _ => spawnAsteroid wormholePosition false) ;;
      ret (AttackResult.mk hs [] TIER_1 "3 Asteroids spawned!")
  | BLUE =>
      h <- spawnSeeker ship wormholePosition ;;
      ret (AttackResult.mk [h] [] TIER_1 "Seeker Drone launched!")
  | GREEN =>
      z <- SpeedBoostZone.new wormholePosition false ;;
      ret (AttackResult.mk [] [z] TIER_1 "Speed Boost Zone created!")
  | GOLD => ret (AttackResult.mk [] [] TIER_1 "")
  end.

Definition spawnEnhancedAttack (type : OrbType) (ship : ShipRef)
    (wormholePosition : Vec2.t) : M AttackResult.t :=
  match type with
  | RED =>
      small <- forPush 3 0 (fun _ => spawnAsteroid wormholePosition false) ;;
      large <- forPush 2 0 (fun _ => spawnAsteroid wormholePosition true) ;;
      ret (AttackResult.mk (small ++ large) [] TIER_1_5 "Enhanced Asteroid Swarm!")
  | BLUE =>
      hs <- forPush 2 0 (fun _ => spawnSeeker ship wormholePosition) ;;
      ret (AttackResult.mk hs [] TIER_1_5 "Twin Seekers launched!")
  | GREEN =>
      z <- SpeedBoostZone.new wormholePosition true ;;
      ret (AttackResult.mk [] [z] TIER_1_5 "Enhanced Speed Zone!")
  | GOLD => ret (AttackResult.mk [] [] TIER_1_5 "")
  end.

Definition spawnTier2Attack (type : OrbType) (ship : ShipRef)
    (wormholePosition : Vec2.t) : M AttackResult.t :=
  match type with
  | RED =>
      wall <- spawnAsteroidWall wormholePosition ;;
      ret (AttackResult.mk wall [] TIER_2 "ASTEROID WALL!")
  | BLUE =>
      hs <- forPush 3 0 (fun _ => spawnSeeker ship wormholePosition) ;;
      ret (AttackResult.mk hs [] TIER_2 "Seeker Swarm!")
  | GREEN =>
      hs <- forPush 8 0 (fun _ => spawnMine wormholePosition) ;;
      ret (AttackResult.mk hs [] TIER_2 "MINE FIELD deployed!")
  | GOLD => ret (AttackResult.mk [] [] TIER_2 "")
  end.

Definition spawnChaosStorm (ship : ShipRef) (wormholePosition : Vec2.t) : M AttackResult.t :=
  h1 <- spawnAsteroid wormholePosition false ;;
  h2 <- spawnAsteroid wormholePosition true ;;
  h3 <- spawnSeeker ship wormholePosition ;;
  h4 <- spawnMine wormholePosition ;;
  h5 <- spawnMine wormholePosition ;;
  ret (AttackResult.mk [h1; h2; h3; h4; h5] [] TIER_2 "CHAOS STORM!").

Definition spawnMegaAttack (type : OrbType) (ship : ShipRef)
    (wormholePosition : Vec2.t) : M AttackResult.t :=
  match type with
  | RED =>
      small <- forPush 8 0 (fun _ => spawnAsteroid wormholePosition false) ;;
      large <- forPush 4 0 (fun _ => spawnAsteroid wormholePosition true) ;;
      ret (AttackResult.mk (small ++ large) [] TIER_3 "MEGA ASTEROID BARRAGE!")
  | BLUE =>
      hs <- forPush 5 0 (fun _ => spawnSeeker ship wormholePosition) ;;
      ret (AttackResult.mk hs [] TIER_3 "MEGA SEEKER SWARM!")
  | GREEN =>
      hs <- forPush 12 0 (fun _ => spawnMine wormholePosition) ;;
      z <- SpeedBoostZone.new wormholePosition true ;;
      ret (AttackResult.mk hs [z] TIER_3 "MEGA DEFENSE GRID!")
  | GOLD => ret (AttackResult.mk [] [] TIER_3 "")
  end.

(** The priority ladder: first match wins. *)
Definition translateCargoToAttack (cargo : list OrbType) (ship : ShipRef)
    (wormholePosition : Vec2.t) : M AttackResult.t :=
  let counts := countCargo cargo in
  (* NUKE (8 GOLD) *)
  if (8 <=? countOf counts GOLD)%nat then
    n <- spawnNuke wormholePosition ;;
    ret (AttackResult.mk [n] [] TIER_4 "NUKE DETONATED!")
  else
  (* 4x same color *)
  match firstColorWith counts 4 with
  | Some type => spawnMegaAttack type ship wormholePosition
  | None =>
  (* Chaos Storm (1R + 1B + 1G) *)
  if ((1 <=? countOf counts RED) && (1 <=? countOf counts BLUE)
      && (1 <=? countOf counts GREEN))%nat%bool
  then spawnChaosStorm ship wormholePosition
  else
  (* 3x same color *)
  match firstColorWith counts 3 with
  | Some type => spawnTier2Attack type ship wormholePosition
  | None =>
  (* 2x same color *)
  match firstColorWith counts 2 with
  | Some type => spawnEnhancedAttack type ship wormholePosition
  | None =>
  (* Single orb attacks, in priority order RED, BLUE, GREEN *)
  if (1 <=? countOf counts RED)%nat then spawnTier1Attack RED ship wormholePosition
  else if (1 <=? countOf counts BLUE)%nat then spawnTier1Attack BLUE ship wormholePosition
  else if (1 <=? countOf counts GREEN)%nat then spawnTier1Attack GREEN ship wormholePosition
  else ret (AttackResult.mk [] [] TIER_1 "Nothing happened...")
  end end end.

(** ** client/GridState *)

Record GridConfig : Type := mkGridConfig {
  cfg_owner : GridOwner;
  cfg_isPlayer : bool;
  cfg_shipColor : string;
  cfg_shipStartX : R;
  cfg_shipStartY : R
}.

Module GridState.

Definition MAX_ORBS : nat := 12.
Definition MIN_SPAWN_DISTANCE : R := 150.
Definition MIN_EDGE_DISTANCE : R := 50.
Definition SPAWN_INTERVAL_MIN : R := 2000.
Definition SPAWN_INTERVAL_MAX : R := 4000.
Definition ATTACK_MESSAGE_DURATION : Z := 3 * 60.
Definition SCREEN_SHAKE_DECAY : R := 0.9.

(** The state of one competitor.  [wormhole] is a reference into the
    world's store of hubs, so that several grids can hold the same hub.  The
    three optional callbacks are installed by the environment of the grid; a
    handler acts on the world and never on the grid that calls it. *)
Record t : Type := mk {
  owner : GridOwner;
  isPlayer : bool;
  ship : Ship.t;
  wormhole : WormholeRef;
  orbs : list (Z * Orb.t);
  hazards : list Hazard;
  boostZones : list SpeedBoostZone.t;
  particles : ParticleSystem.t;
  orbSpawnTimer : R;
  nextOrbSpawnTime : R;
  bankingPulse : R;
  lastAttackResult : option AttackResult.t;
  attackMessageTimer : Z;
  screenShake : R;
  gameOver : bool;
  gameOverTimer : Z;
  winner : option GridOwner;
  onBankOrbs : option (GridOwner -> list OrbType -> M unit);
  onShipDestroyed : option (GridOwner -> M unit);
  onKillFeed : option (string -> M unit)
}.

Definition set_ship (v : Ship.t) (g : t) : t :=
  mk (owner g) (isPlayer g) v (wormhole g) (orbs g) (hazards g) (boostZones g)
     (particles g) (orbSpawnTimer g) (nextOrbSpawnTime g) (bankingPulse g)
     (lastAttackResult g) (attackMessageTimer g) (screenShake g) (gameOver g)
     (gameOverTimer g) (winner g) (onBankOrbs g) (onShipDestroyed g) (onKillFeed g).
Definition set_orbs (v : list (Z * Orb.t)) (g : t) : t :=
  mk (owner g) (isPlayer g) (ship g) (wormhole g) v (hazards g) (boostZones g)
     (particles g) (orbSpawnTimer g) (nextOrbSpawnTime g) (bankingPulse g)
     (lastAttackResult g) (attackMessageTimer g) (screenShake g) (gameOver g)
     (gameOverTimer g) (winner g) (onBankOrbs g) (onShipDestroyed g) (onKillFeed g).
Definition set_hazards (v : list Hazard) (g : t) : t :=
  mk (owner g) (isPlayer g) (ship g) (wormhole g) (orbs g) v (boostZones g)
     (particles g) (orbSpawnTimer g) (nextOrbSpawnTime g) (bankingPulse g)
     (lastAttackResult g) (attackMessageTimer g) (screenShake g) (gameOver g)
     (gameOverTimer g) (winner g) (onBankOrbs g) (onShipDestroyed g) (onKillFeed g).
Definition set_boostZones (v : list SpeedBoostZone.t) (g : t) : t :=
  mk (owner g) (isPlayer g) (ship g) (wormhole g) (orbs g) (hazards g) v
     (particles g) (orbSpawnTimer g) (nextOrbSpawnTime g) (bankingPulse g)
     (lastAttackResult g) (attackMessageTimer g) (screenShake g) (gameOver g)
     (gameOverTimer g) (winner g) (onBankOrbs g) (onShipDestroyed g) (onKillFeed g).
Definition set_particles (v : ParticleSystem.t) (g : t) : t :=
  mk (owner g) (isPlayer g) (ship g) (wormhole g) (orbs g) (hazards g) (boostZones g)
     v (orbSpawnTimer g) (nextOrbSpawnTime g) (bankingPulse g)
     (lastAttackResult g) (attackMessageTimer g) (screenShake g) (gameOver g)
     (gameOverTimer g) (winner g) (onBankOrbs g) (onShipDestroyed g) (onKillFeed g).
Definition set_orbSpawnTimer (v : R) (g : t) : t :=
  mk (owner g) (isPlayer g) (ship g) (wormhole g) (orbs g) (hazards g) (boostZones g)
     (particles g) v (nextOrbSpawnTime g) (bankingPulse g)
     (lastAttackResult g) (attackMessageTimer g) (screenShake g) (gameOver g)
     (gameOverTimer g) (winner g) (onBankOrbs g) (onShipDestroyed g) (onKillFeed g).
Definition set_nextOrbSpawnTime (v : R) (g : t) : t :=
  mk (owner g) (isPlayer g) (ship g) (wormhole g) (orbs g) (hazards g) (boostZones g)
     (particles g) (orbSpawnTimer g) v (bankingPulse g)
     (lastAttackResult g) (attackMessageTimer g) (screenShake g) (gameOver g)
     (gameOverTimer g) (winner g) (onBankOrbs g) (onShipDestroyed g) (onKillFeed g).
Definition set_bankingPulse (v : R) (g : t) : t :=
  mk (owner g) (isPlayer g) (ship g) (wormhole g) (orbs g) (hazards g) (boostZones g)
     (particles g) (orbSpawnTimer g) (nextOrbSpawnTime g) v
     (lastAttackResult g) (attackMessageTimer g) (screenShake g) (gameOver g)
     (gameOverTimer g) (winner g) (onBankOrbs g) (onShipDestroyed g) (onKillFeed g).
Definition set_lastAttackResult (v : option AttackResult.t) (g : t) : t :=
  mk (owner g) (isPlayer g) (ship g) (wormhole g) (orbs g) (hazards g) (boostZones g)
     (particles g) (orbSpawnTimer g) (nextOrbSpawnTime g) (bankingPulse g)
     v (attackMessageTimer g) (screenShake g) (gameOver g)
     (gameOverTimer g) (winner g) (onBankOrbs g) (onShipDestroyed g) (onKillFeed g).
Definition set_attackMessageTimer (v : Z) (g : t) : t :=
  mk (owner g) (isPlayer g) (ship g) (wormhole g) (orbs g) (hazards g) (boostZones g)
     (particles g) (orbSpawnTimer g) (nextOrbSpawnTime g) (bankingPulse g)
     (lastAttackResult g) v (screenShake g) (gameOver g)
     (gameOverTimer g) (winner g) (onBankOrbs g) (onShipDestroyed g) (onKillFeed g).
Definition set_screenShake (v : R) (g : t) : t :=
  mk (owner g) (isPlayer g) (ship g) (wormhole g) (orbs g) (hazards g) (boostZones g)
     (particles g) (orbSpawnTimer g) (nextOrbSpawnTime g) (bankingPulse g)
     (lastAttackResult g) (attackMessageTimer g) v (gameOver g)
     (gameOverTimer g) (winner g) (onBankOrbs g) (onShipDestroyed g) (onKillFeed g).
Definition set_gameOver (v : bool) (g : t) : t :=
  mk (owner g) (isPlayer g) (ship g) (wormhole g) (orbs g) (hazards g) (boostZones g)
     (particles g) (orbSpawnTimer g) (nextOrbSpawnTime g) (bankingPulse g)
     (lastAttackResult g) (attackMessageTimer g) (screenShake g) v
     (gameOverTimer g) (winner g) (onBankOrbs g) (onShipDestroyed g) (onKillFeed g).
Definition set_gameOverTimer (v : Z) (g : t) : t :=
  mk (owner g) (isPlayer g) (ship g) (wormhole g) (orbs g) (hazards g) (boostZones g)
     (particles g) (orbSpawnTimer g) (nextOrbSpawnTime g) (bankingPulse g)
     (lastAttackResult g) (attackMessageTimer g) (screenShake g) (gameOver g)
     v (winner g) (onBankOrbs g) (onShipDestroyed g) (onKillFeed g).
Definition set_winner (v : option GridOwner) (g : t) : t :=
  mk (owner g) (isPlayer g) (ship g) (wormhole g) (orbs g) (hazards g) (boostZones g)
     (particles g) (orbSpawnTimer g) (nextOrbSpawnTime g) (bankingPulse g)
     (lastAttackResult g) (attackMessageTimer g) (screenShake g) (gameOver g)
     (gameOverTimer g) v (onBankOrbs g) (onShipDestroyed g) (onKillFeed g).
Definition set_onBankOrbs (v : option (GridOwner -> list OrbType -> M unit)) (g : t) : t :=
  mk (owner g) (isPlayer g) (ship g) (wormhole g) (orbs g) (hazards g) (boostZones g)
     (particles g) (orbSpawnTimer g) (nextOrbSpawnTime g) (bankingPulse g)
     (lastAttackResult g) (attackMessageTimer g) (screenShake g) (gameOver g)
     (gameOverTimer g) (winner g) v (onShipDestroyed g) (onKillFeed g).
Definition set_onShipDestroyed (v : option (GridOwner -> M unit)) (g : t) : t :=
  mk (owner g) (isPlayer g) (ship g) (wormhole g) (orbs g) (hazards g) (boostZones g)
     (particles g) (orbSpawnTimer g) (nextOrbSpawnTime g) (bankingPulse g)
     (lastAttackResult g) (attackMessageTimer g) (screenShake g) (gameOver g)
     (gameOverTimer g) (winner g) (onBankOrbs g) v (onKillFeed g).
Definition set_onKillFeed (v : option (string -> M unit)) (g : t) : t :=
  mk (owner g) (isPlayer g) (ship g) (wormhole g) (orbs g) (hazards g) (boostZones g)
     (particles g) (orbSpawnTimer g) (nextOrbSpawnTime g) (bankingPulse g)
     (lastAttackResult g) (attackMessageTimer g) (screenShake g) (gameOver g)
     (gameOverTimer g) (winner g) (onBankOrbs g) (onShipDestroyed g) v.

(** [constructor(config, sharedWormhole?)]: [sharedWormhole || new Wormhole()]. *)
Definition new (config : GridConfig) (sharedWormhole : option WormholeRef) : M t :=
  let ship0 := Ship.new (cfg_shipStartX config) (cfg_shipStartY config)
                        (cfg_shipColor config) in
  wormhole0 <- match sharedWormhole with
               | Some r => ret r
               | None => newWormhole
               end ;;
  ret (mk (cfg_owner config) (cfg_isPlayer config) ship0 wormhole0 [] [] []
          ParticleSystem.new 0 3000 0 None 0%Z 0 false 0%Z None None None None).

Definition getDisplayName (g : t) : string :=
  if isPlayer g then "Player" else ownerUpper (owner g).

Definition getOrbColor (orbType : OrbType) : string :=
  match orbType with
  | RED => "#ff4444"
  | BLUE => "#4444ff"
  | GREEN => "#44ff44"
  | GOLD => "#ffcc00"
  end.

(** [Map.prototype.set] and [Map.prototype.delete] on the orb map, which
    keeps insertion order. *)
Fixpoint mapSet (k : Z) (v : Orb.t) (m : list (Z * Orb.t)) : list (Z * Orb.t) :=
  match m with
  | [] => [(k, v)]
  | (k', v') :: m' => if (k' =? k)%Z then (k, v) :: m' else (k', v') :: mapSet k v m'
  end.

Definition mapDelete (k : Z) (m : list (Z * Orb.t)) : list (Z * Orb.t) :=
  filter (fun kv => negb (fst kv =? k)%Z) m.

(** [spawnOrb()], with [attempts] placements left to try. *)
Fixpoint spawnOrbLoop (attempts : nat) (g : t) : M t :=
  match attempts with
  | O => ret g
  | S attempts' =>
      r1 <- random ;;
      let x := MIN_EDGE_DISTANCE + r1 * (WORLD_WIDTH - MIN_EDGE_DISTANCE * 2) in
      r2 <- random ;;
      let y := MIN_EDGE_DISTANCE + r2 * (WORLD_HEIGHT - MIN_EDGE_DISTANCE * 2) in
      let position := Vec2.mk x y in
      let center := Vec2.mk (WORLD_WIDTH / 2) (WORLD_HEIGHT / 2) in
      if Rleb MIN_SPAWN_DISTANCE (Vec2.length (Vec2.sub position center)) then
        let tooClose :=
          existsb (fun kv =>
                     Rltb (Vec2.length (Vec2.sub position (Orb.position (snd kv))))
                          (ORB_RADIUS * 3)) (orbs g) in
        if negb tooClose then
          orbType <- Orb.getRandomType ;;
          orb <- Orb.new position orbType ;;
          ret (set_orbs (mapSet (Orb.id orb) orb (orbs g)) g)
        else spawnOrbLoop attempts' g
      else spawnOrbLoop attempts' g
  end.

Definition spawnOrb (g : t) : M t := spawnOrbLoop 50 g.

Definition updateOrbSpawning (g : t) : M t :=
  if (MAX_ORBS <=? List.length (orbs g))%nat then ret g else
  let g1 := set_orbSpawnTimer (orbSpawnTimer g + PHYSICS_DT) g in
  if Rleb (nextOrbSpawnTime g1) (orbSpawnTimer g1) then
    g2 <- spawnOrb g1 ;;
    let g3 := set_orbSpawnTimer 0 g2 in
    r <- random ;;
    ret (set_nextOrbSpawnTime
           (SPAWN_INTERVAL_MIN + r * (SPAWN_INTERVAL_MAX - SPAWN_INTERVAL_MIN)) g3)
  else ret g1.

Definition killerName (hazard : Hazard) : string :=
  match HazardOps.type hazard with
  | SEEKER => "Seeker Drone"
  | ASTEROID => "Asteroid"
  | MINE => "Mine"
  | NUKE => "NUKE"
  end.

Definition handleShipHit (hazard : Hazard) (g : t) : M t :=
  ps1 <- ParticleSystem.createBurst (Ship.position (ship g)) "#ff4400" 20 5 8 40
           (particles g) ;;
  let g1 := set_screenShake 15 (set_particles ps1 g) in
  let '(died, ship1) := Ship.takeDamage (ship g1) in
  let g2 := set_ship ship1 g1 in
  if died then
    ps2 <- ParticleSystem.createBurst (Ship.position (ship g2)) "#ff0000" 50 8 12 80
             (particles g2) ;;
    let g3 := set_particles ps2 g2 in
    let message := (getDisplayName g3 ++ " was destroyed by " ++ killerName hazard)%string in
    invoke (option_map (fun f => f message) (onKillFeed g3)) (EvKillFeed message) ;;;
    invoke (option_map (fun f => f (owner g3)) (onShipDestroyed g3))
           (EvShipDestroyed (owner g3)) ;;;
    ret g3
  else ret g2.

Definition checkCollisions (g : t) : M t :=
  (* Ship-Orb collisions *)
  g1 <- forEachM (orbs g) (fun kv g0 =>
          let '(id, orb) := kv in
          if Orb.collidesWith orb (Ship.position (ship g0)) SHIP_COLLISION_RADIUS then
            let '(added, ship1) := Ship.addCargo (Orb.type orb) (ship g0) in
            if added then
              let color := getOrbColor (Orb.type orb) in
              ps1 <- ParticleSystem.createCollectionBurst (Orb.position orb) color
                       (particles g0) ;;
              ret (set_orbs (mapDelete id (orbs g0))
                     (set_particles ps1 (set_ship ship1 g0)))
            else ret (set_ship ship1 g0)
          else ret g0) g ;;
  (* Ship-Hazard collisions: the first colliding hazard only *)
  if negb (Ship.isInvulnerable (ship g1)) then
    match find (fun hazard =>
                  HazardOps.collidesWith hazard (Ship.position (ship g1))
                                         SHIP_COLLISION_RADIUS) (hazards g1) with
    | Some hazard => handleShipHit hazard g1
    | None => ret g1
    end
  else ret g1.

Definition checkBoostZones (g : t) : t :=
  fold_left (fun g0 zone =>
               if SpeedBoostZone.contains zone (Ship.position (ship g0))
               then set_ship (Ship.applySpeedBoost (SpeedBoostZone.boostMultiplier zone)
                                                   (ship g0)) g0
               else g0) (boostZones g) g.

Definition handleGameOver (g : t) : t := set_gameOver true g.

Definition markWinner (g : t) : t := set_gameOver true (set_winner (Some (owner g)) g).

(** [update()]: one fixed physics step of the grid.  [others] dereferences
    the ships of the other grids; the grid's own ship is its [ship] field. *)
Definition update (others : ShipRef -> Ship.t) (g : t) : M t :=
  if gameOver g then
    ret (set_particles (ParticleSystem.update (particles g))
           (set_gameOverTimer (gameOverTimer g + 1)%Z g))
  else
  (* Update ship *)
  let g1 := set_ship (Ship.update (Ship.savePreviousState (ship g))) g in
  (* Update wormhole: the object reference is always truthy *)
  modifyWormhole (wormhole g1) Wormhole.update ;;;
  (* Update orbs *)
  let g2 := set_orbs (map (fun kv => (fst kv, Orb.update (snd kv))) (orbs g1)) g1 in
  (* Update hazards *)
  let ships := fun r : ShipRef =>
                 if GridOwner_eqb r (owner g2) then ship g2 else others r in
  let g3 := set_hazards (map (HazardOps.update ships) (hazards g2)) g2 in
  (* Update boost zones *)
  let g4 := set_boostZones (map SpeedBoostZone.update (boostZones g3)) g3 in
  (* Update particles *)
  let g5 := set_particles (ParticleSystem.update (particles g4)) g4 in
  (* Spawn orbs *)
  g6 <- updateOrbSpawning g5 ;;
  (* Check collisions *)
  g7 <- checkCollisions g6 ;;
  (* Check speed boost zones *)
  let g8 := checkBoostZones g7 in
  (* Update timers *)
  let g9 := if (0 <? attackMessageTimer g8)%Z
            then set_attackMessageTimer (attackMessageTimer g8 - 1)%Z g8 else g8 in
  (* Update banking pulse *)
  hub <- readWormhole (wormhole g9) ;;
  let g10 :=
    if negb (Ship.isDead (ship g9)) && Wormhole.isInBankingZone hub (Ship.position (ship g9))
    then set_bankingPulse (Rmin (bankingPulse g9 + 0.05) 1) g9
    else set_bankingPulse (Rmax (bankingPulse g9 - 0.05) 0) g9 in
  (* Decay screen shake *)
  let g11 := set_screenShake (screenShake g10 * SCREEN_SHAKE_DECAY) g10 in
  let g12 := if Rltb (screenShake g11) 0.5 then set_screenShake 0 g11 else g11 in
  (* Clean up expired hazards *)
  let g13 := set_hazards
               (filter (fun h => negb (HazardOps.isExpired h) && HazardOps.active h)
                       (hazards g12)) g12 in
  let g14 := set_boostZones
               (filter (fun z => negb (SpeedBoostZone.isExpired z) && SpeedBoostZone.active z)
                       (boostZones g13)) g13 in
  (* Check if ship died *)
  if Ship.isDead (ship g14) && negb (gameOver g14)
  then ret (handleGameOver g14)
  else ret g14.

(** The severity-scaled screen shake. *)
Definition shakeForTier (k : AttackTier) : R :=
  if Rleb 3 (tierValue k) then 20
  else if Rleb 2 (tierValue k) then 10
  else 5.

(** [bankOrbs()].  Everything from [clearCargo] to the screen shake is the
    body of [if (inZone && !isEmpty)]; the logging calls write to the
    console only and are left out. *)
Definition bankOrbs (g : t) : M t :=
  hub <- readWormhole (wormhole g) ;;
  let inZone := Wormhole.isInBankingZone hub (Ship.position (ship g)) in
  let isEmpty := Ship.isCargoEmpty (ship g) in
  if inZone && negb isEmpty then
    let '(bankedOrbs, ship1) := Ship.clearCargo (ship g) in
    let g1 := set_ship ship1 g in
    (* Particle effect *)
    hub1 <- readWormhole (wormhole g1) ;;
    ps1 <- ParticleSystem.createBankingBurst (Wormhole.position hub1) "#00ffff"
             (particles g1) ;;
    ps2 <- forEachM bankedOrbs (fun orbType ps =>
             hub2 <- readWormhole (wormhole g1) ;;
             ParticleSystem.createBurst (Wormhole.position hub2) (getOrbColor orbType)
                                        5 2 3 25 ps) ps1 ;;
    let g2 := set_particles ps2 g1 in
    (* Notify that orbs were banked (for cross-grid attacks) *)
    invoke (option_map (fun f => f (owner g2) bankedOrbs) (onBankOrbs g2))
           (EvBankOrbs (owner g2) bankedOrbs) ;;;
    (* Local attack result for display *)
    hub3 <- readWormhole (wormhole g2) ;;
    attackResult <- translateCargoToAttack bankedOrbs (owner g2) (Wormhole.position hub3) ;;
    let g3 := set_attackMessageTimer ATTACK_MESSAGE_DURATION
                (set_lastAttackResult (Some attackResult) g2) in
    ret (set_screenShake (shakeForTier (AttackResult.tier attackResult)) g3)
  else ret g.

(** [spawnAttack(attackResult, sourceOwner)] *)
Definition spawnAttack (attackResult : AttackResult.t) (sourceOwner : GridOwner)
    (g : t) : t :=
  (* Targets of the incoming seekers *)
  let incoming :=
    map (fun hazard =>
           match hazard with
           | HSeeker d => HSeeker (SeekerDrone.setTarget (owner g) d)
           | _ => hazard
           end) (AttackResult.hazards attackResult) in
  let g1 := set_boostZones (boostZones g ++ AttackResult.boostZones attackResult)
              (set_hazards (hazards g ++ incoming) g) in
  let sourceName :=
    match sourceOwner with player => "Player" | _ => ownerUpper sourceOwner end in
  let shown :=
    AttackResult.mk incoming (AttackResult.boostZones attackResult) (AttackResult.tier attackResult)
                   (sourceName ++ ": " ++ AttackResult.description attackResult)%string in
  let g2 := set_attackMessageTimer ATTACK_MESSAGE_DURATION
              (set_lastAttackResult (Some shown) g1) in
  set_screenShake (shakeForTier (AttackResult.tier attackResult)) g2.

Definition reset (g : t) : t :=
  mk (owner g) (isPlayer g)
     (Ship.reset (WORLD_WIDTH / 2) (WORLD_HEIGHT / 2 + 200) (ship g))
     (wormhole g) [] [] [] (ParticleSystem.clear (particles g))
     0 (nextOrbSpawnTime g) (bankingPulse g) None 0%Z 0 false 0%Z None
     (onBankOrbs g) (onShipDestroyed g) (onKillFeed g).

End GridState.

(** ** client/Game: the hub and grid portion of the physics step *)

Module Game.

(** The orchestrator's handlers, as installed by [setupGridCallbacks]. *)
Record Handlers : Type := mkHandlers {
  handleBankOrbs : GridOwner -> list OrbType -> M unit;
  handleShipDestroyed : GridOwner -> M unit;
  addKillFeed : string -> M unit
}.

Record t : Type := mk {
  sharedWormhole : WormholeRef;
  grids : list GridState.t;
  numBots : nat
}.

Definition setupGridCallbacks (hd : Handlers) (g : GridState.t) : GridState.t :=
  GridState.set_onKillFeed (Some (addKillFeed hd))
    (GridState.set_onShipDestroyed (Some (handleShipDestroyed hd))
       (GridState.set_onBankOrbs (Some (handleBankOrbs hd)) g)).

Definition botColors : list string := ["#33ccff"; "#ff33ff"; "#ffff33"].
Definition botNames : list GridOwner := [bot_1; bot_2; bot_3].

(** [constructor] and [setupGrids]: one hub shared by the player grid and
    by every bot grid. *)
Definition new (hd : Handlers) (numBots0 : nat) : M t :=
  shared <- newWormhole ;;
  let n := Nat.min (Nat.max numBots0 1) 3 in
  playerGrid <- GridState.new
                  (mkGridConfig player true "#33ff33"
                                (WORLD_WIDTH / 2) (WORLD_HEIGHT / 2 + 200))
                  (Some shared) ;;
  bots <- forPush n 0 (fun i =>
            botGrid <- GridState.new
                         (mkGridConfig (nth i botNames bot_3) false (nth i botColors "")
                            (WORLD_WIDTH / 2 +
                               (if (i =? 0)%nat then 200 else if (i =? 1)%nat then -200 else 0))
                            (WORLD_HEIGHT / 2 + (if (i =? 2)%nat then -200 else 0)))
                         (Some shared) ;;
            ret (setupGridCallbacks hd botGrid)) ;;
  ret (mk shared (setupGridCallbacks hd playerGrid :: bots) n).

(** Dereferences a ship reference among the given grids. *)
Definition shipOf (gs : list GridState.t) (r : ShipRef) : Ship.t :=
  match find (fun g => GridOwner_eqb (GridState.owner g) r) gs with
  | Some g => GridState.ship g
  | None => Ship.new 0 0 PLAYER_COLOR
  end.

(** [for (const grid of this.grids.values()) grid.update()] *)
Fixpoint updateGrids (done todo : list GridState.t) : M (list GridState.t) :=
  match todo with
  | [] => ret done
  | g :: rest =>
      g' <- GridState.update (shipOf (done ++ rest)) g ;;
      updateGrids (done ++ [g']) rest
  end.

(** The first two statements of the body of the fixed-step loop: the shared
    hub is updated, then every grid. *)
Definition stepWormholeAndGrids (gm : t) : M t :=
  modifyWormhole (sharedWormhole gm) Wormhole.update ;;;
  gs <- updateGrids [] (grids gm) ;;
  ret (mk (sharedWormhole gm) gs (numBots gm)).

End Game.

(** ** client/Bullet *)

Definition BULLET_SPEED : R := 12.
Definition BULLET_LIFETIME : Z := 40.
Definition BULLET_RADIUS : R := 3.

Module Bullet.

Record t : Type := mk {
  position : Vec2.t;
  velocity : Vec2.t;
  angle : R;
  lifetime : Z;
  active : bool;
  id : Z
}.

(** [constructor(position, angle)]; [nextId] is the static counter
    [Bullet.nextId], returned incremented. *)
Definition new (position0 : Vec2.t) (angle0 : R) (nextId : Z) : t * Z :=
  (mk (Vec2.clone position0) (Vec2.mul (Vec2.fromAngle angle0) BULLET_SPEED)
      angle0 BULLET_LIFETIME true nextId,
   (nextId + 1)%Z).

Definition set_active (v : bool) (b : t) : t :=
  mk (position b) (velocity b) (angle b) (lifetime b) v (id b).

Definition update (b : t) : t :=
  if negb (active b) then b else
  let p0 := Vec2.add (position b) (velocity b) in
  let lifetime1 := (lifetime b - 1)%Z in
  (* Screen wrap *)
  let p1 := if Rltb (Vec2.x p0) 0 then Vec2.set_x (Vec2.x p0 + WORLD_WIDTH) p0 else p0 in
  let p2 := if Rltb WORLD_WIDTH (Vec2.x p1) then Vec2.set_x (Vec2.x p1 - WORLD_WIDTH) p1 else p1 in
  let p3 := if Rltb (Vec2.y p2) 0 then Vec2.set_y (Vec2.y p2 + WORLD_HEIGHT) p2 else p2 in
  let p4 := if Rltb WORLD_HEIGHT (Vec2.y p3) then Vec2.set_y (Vec2.y p3 - WORLD_HEIGHT) p3 else p3 in
  mk p4 (velocity b) (angle b) lifetime1
     (if (lifetime1 <=? 0)%Z then false else active b) (id b).

Definition collidesWith (b : t) (position0 : Vec2.t) (radius : R) : bool :=
  if negb (active b) then false else
  Rleb (Vec2.length (Vec2.sub (position b) position0)) (BULLET_RADIUS + radius).

Definition isExpired (b : t) : bool := (lifetime b <=? 0)%Z || negb (active b).

End Bullet.

(** [hazard.active = false] *)
Definition deactivate (h : Hazard) : Hazard :=
  match h with
  | HAsteroid a => HAsteroid (Asteroid.set_active false a)
  | HSeeker d => HSeeker (SeekerDrone.set_active false d)
  | HMine m => HMine (Mine.set_active false m)
  | HNuke n => HNuke (Nuke.set_active false n)
  end.

(** ** client/Game: the round, the kill feed, the bullets and the
    fixed-step loop *)

Module GameRound.

Definition SHOOT_COOLDOWN : R := 150.
Definition maxKillFeed : nat := 5.

(** The fields of [Game] beside the hub.  [this.grids] is a map in
    insertion order, the player's grid first and then the bots'; the
    player's grid is also held in [this.playerGrid], so it is kept once. *)
Record t : Type := mk {
  playerGrid : GridState.t;
  botGrids : list GridState.t;
  bullets : list Bullet.t;
  bulletNextId : Z;
  lastShotTime : R;
  accumulator : R;
  gameOver : bool;
  winner : option GridOwner;
  roundNumber : Z;
  killFeed : list string
}.

(** [Array.from(this.grids.values())] *)
Definition grids (gm : t) : list GridState.t := playerGrid gm :: botGrids gm.

Definition set_playerGrid (v : GridState.t) (gm : t) : t :=
  mk v (botGrids gm) (bullets gm) (bulletNextId gm) (lastShotTime gm) (accumulator gm)
     (gameOver gm) (winner gm) (roundNumber gm) (killFeed gm).
Definition set_botGrids (v : list GridState.t) (gm : t) : t :=
  mk (playerGrid gm) v (bullets gm) (bulletNextId gm) (lastShotTime gm) (accumulator gm)
     (gameOver gm) (winner gm) (roundNumber gm) (killFeed gm).
Definition set_bullets (v : list Bullet.t) (gm : t) : t :=
  mk (playerGrid gm) (botGrids gm) v (bulletNextId gm) (lastShotTime gm) (accumulator gm)
     (gameOver gm) (winner gm) (roundNumber gm) (killFeed gm).
Definition set_gameOver (v : bool) (gm : t) : t :=
  mk (playerGrid gm) (botGrids gm) (bullets gm) (bulletNextId gm) (lastShotTime gm)
     (accumulator gm) v (winner gm) (roundNumber gm) (killFeed gm).
Definition set_winner (v : option GridOwner) (gm : t) : t :=
  mk (playerGrid gm) (botGrids gm) (bullets gm) (bulletNextId gm) (lastShotTime gm)
     (accumulator gm) (gameOver gm) v (roundNumber gm) (killFeed gm).
Definition set_killFeed (v : list string) (gm : t) : t :=
  mk (playerGrid gm) (botGrids gm) (bullets gm) (bulletNextId gm) (lastShotTime gm)
     (accumulator gm) (gameOver gm) (winner gm) (roundNumber gm) v.

(** The grid object at a position of [grids] is replaced by its new state. *)
Definition setGridAt (i : nat) (v : GridState.t) (gm : t) : t :=
  match i with
  | O => set_playerGrid v gm
  | S j => set_botGrids (setAt j v (botGrids gm)) gm
  end.

(** [addKillFeed(message)]: [unshift], then [pop] when over the maximum. *)
Definition addKillFeed (message : string) (gm : t) : t :=
  let feed := message :: killFeed gm in
  set_killFeed (if (maxKillFeed <? List.length feed)%nat then removelast feed else feed) gm.

(** [handleShipDestroyed(owner)] *)
Definition handleShipDestroyed (owner : GridOwner) (gm : t) : t :=
  let aliveGrids := filter (fun g => negb (Ship.isDead (GridState.ship g))) (grids gm) in
  match aliveGrids with
  | [g0] =>
      let gm1 := set_gameOver true (set_winner (Some (GridState.owner g0)) gm) in
      let winnerName :=
        match GridState.owner g0 with
        | player => "Player"
        | o => ownerUpper o
        end in
      addKillFeed (winnerName ++ " WINS THE ROUND!")%string gm1
  | _ => gm
  end.

(** The positions in [grids] of the living opponents of [sourceOwner]. *)
Definition livingOpponents (sourceOwner : GridOwner) (gm : t) : list nat :=
  filter (fun i =>
            match nth_error (grids gm) i with
            | Some g => negb (GridOwner_eqb (GridState.owner g) sourceOwner)
                        && negb (Ship.isDead (GridState.ship g))
            | None => false
            end) (seq 0 (List.length (grids gm))).

(** [spawnAttackToRandomTarget(sourceOwner, attackResult)]; an index
    outside the array would make [target] undefined and the call throw. *)
Definition spawnAttackToRandomTarget (sourceOwner : GridOwner)
    (attackResult : AttackResult.t) (gm : t) : M t :=
  let opponents := livingOpponents sourceOwner gm in
  if (List.length opponents =? 0)%nat then ret gm else
  r <- random ;;
  let index := Int_part (r * INR (List.length opponents)) in
  if (index <? 0)%Z then throw else
  match nth_error opponents (Z.to_nat index) with
  | Some i =>
      match nth_error (grids gm) i with
      | Some target =>
          ret (setGridAt i (GridState.spawnAttack attackResult sourceOwner target) gm)
      | None => throw
      end
  | None => throw
  end.

(** [handleBankOrbs(sourceOwner, orbs)] *)
Definition handleBankOrbs (sourceOwner : GridOwner) (orbs : list OrbType) (gm : t) : M t :=
  match find (fun g => GridOwner_eqb (GridState.owner g) sourceOwner) (grids gm) with
  | None => ret gm
  | Some sourceGrid =>
      hub <- readWormhole (GridState.wormhole sourceGrid) ;;
      attackResult <- translateCargoToAttack orbs (GridState.owner sourceGrid)
                                             (Wormhole.position hub) ;;
      gm1 <- spawnAttackToRandomTarget sourceOwner attackResult gm ;;
      let sourceName :=
        match sourceOwner with player => "Player" | o => ownerUpper o end in
      ret (addKillFeed (sourceName ++ " >> " ++ AttackResult.description attackResult)%string
                       gm1)
  end.

(** [handleShoot()]; [now] is the reading of [performance.now()]. *)
Definition handleShoot (now : R) (gm : t) : t :=
  if gameOver gm || Ship.isDead (GridState.ship (playerGrid gm)) then gm else
  if Rltb (now - lastShotTime gm) SHOOT_COOLDOWN then gm else
  let ship := GridState.ship (playerGrid gm) in
  let offset := Vec2.mul (Vec2.fromAngle (Ship.angle ship)) 15 in
  let bulletPos := Vec2.add (Ship.position ship) offset in
  let '(bullet, nextId) := Bullet.new bulletPos (Ship.angle ship) (bulletNextId gm) in
  mk (playerGrid gm) (botGrids gm) (bullets gm ++ [bullet]) nextId now (accumulator gm)
     (gameOver gm) (winner gm) (roundNumber gm) (killFeed gm).

(** The inner loop of [updateBullets]: the hazards below index [h], from
    the last one down; the index of the first active hazard the bullet
    touches. *)
Fixpoint scanHazards (bullet : Bullet.t) (h : nat) (hazards : list Hazard) : option nat :=
  match h with
  | O => None
  | S h' =>
      match nth_error hazards h' with
      | Some hazard =>
          if negb (HazardOps.active hazard) then scanHazards bullet h' hazards
          else if Bullet.collidesWith bullet (HazardOps.position hazard)
                                      (HazardOps.radius hazard)
               then Some h'
               else scanHazards bullet h' hazards
      | None => scanHazards bullet h' hazards
      end
  end.

(** The outer loop of [updateBullets]: the bullets below index [b], from
    the last one down.  [destroyedHazards] collects the identifiers. *)
Fixpoint sweepBullets (b : nat) (destroyedHazards : list Z) (gm : t) : M (list Z * t) :=
  match b with
  | O => ret (destroyedHazards, gm)
  | S b' =>
      match nth_error (bullets gm) b' with
      | Some bullet =>
          if negb (Bullet.active bullet) then sweepBullets b' destroyedHazards gm else
          let playerHazards := GridState.hazards (playerGrid gm) in
          match scanHazards bullet (List.length playerHazards) playerHazards with
          | Some h =>
              match nth_error playerHazards h with
              | Some hazard =>
                  (* Bullet hit hazard! *)
                  let pg1 := GridState.set_hazards (setAt h (deactivate hazard) playerHazards)
                                                   (playerGrid gm) in
                  ps <- ParticleSystem.createBurst (HazardOps.position hazard) "#ff6600"
                          10 3 5 20 (GridState.particles pg1) ;;
                  let gm1 := set_playerGrid (GridState.set_particles ps pg1) gm in
                  let gm2 := addKillFeed "[DEFENSE] Target destroyed!" gm1 in
                  let gm3 := set_bullets (setAt b' (Bullet.set_active false bullet)
                                                (bullets gm2)) gm2 in
                  sweepBullets b' (destroyedHazards ++ [HazardOps.id hazard]) gm3
              | None => sweepBullets b' destroyedHazards gm
              end
          | None => sweepBullets b' destroyedHazards gm
          end
      | None => sweepBullets b' destroyedHazards gm
      end
  end.

(** [updateBullets()], with the identifiers of the destroyed hazards. *)
Definition updateBullets (gm : t) : M (list Z * t) :=
  (* Update all bullets *)
  let gm1 := set_bullets (map Bullet.update (bullets gm)) gm in
  (* Check bullet-hazard collisions in player grid *)
  swept <- sweepBullets (List.length (bullets gm1)) [] gm1 ;;
  let '(destroyedHazards, gm2) := swept in
  (* Remove expired bullets *)
  let gm3 := set_bullets
               (filter (fun b => negb (Bullet.isExpired b) && Bullet.active b) (bullets gm2))
               gm2 in
  (* Remove destroyed hazards *)
  let pg := playerGrid gm3 in
  ret (destroyedHazards,
       set_playerGrid (GridState.set_hazards (filter HazardOps.active (GridState.hazards pg)) pg)
                      gm3).

(** The accumulator of [loop]: [while (accumulator >= PHYSICS_DT)], whose
    body ends with [accumulator -= PHYSICS_DT] and does not touch the
    accumulator otherwise.  The result is the number of physics steps run
    and the accumulator left; [None] when [fuel] iterations do not reach
    the exit. *)
Fixpoint drain (fuel : nat) (acc : R) : option (nat * R) :=
  match fuel with
  | O => None
  | S fuel' =>
      if Rleb PHYSICS_DT acc then
        match drain fuel' (acc - PHYSICS_DT) with
        | Some (n, rest) => Some (S n, rest)
        | None => None
        end
      else Some (O, acc)
  end.

(** The accumulator part of one frame of [loop]: add the frame time, cap,
    then run the fixed steps. *)
Definition frameSteps (fuel : nat) (acc deltaTime : R) : option (nat * R) :=
  let acc1 := acc + deltaTime in
  let maxAccumulator := PHYSICS_DT * 10 in
  let acc2 := if Rltb maxAccumulator acc1 then maxAccumulator else acc1 in
  drain fuel acc2.

(** [restart()] *)
Definition restart (gm : t) : t :=
  mk (GridState.reset (playerGrid gm)) (map GridState.reset (botGrids gm)) []
     (bulletNextId gm) (lastShotTime gm) (accumulator gm) false None
     (roundNumber gm + 1)%Z [].

End GameRound.

(** ** client/BotAI *)

Module BotAI.

Inductive Difficulty : Type := easy | medium | hard.

Record BotConfig : Type := mkBotConfig {
  difficulty : Difficulty;
  reactionDelay : R;
  steeringAccuracy : R;
  bankThreshold : R;
  evadeDistance : R;
  color : string
}.

(** [{ ...DIFFICULTY_SETTINGS[difficulty], color }] *)
Definition DIFFICULTY_SETTINGS (d : Difficulty) (color0 : string) : BotConfig :=
  match d with
  | easy => mkBotConfig easy 250 0.70 0.80 100 color0
  | medium => mkBotConfig medium 133 0.85 0.60 150 color0
  | hard => mkBotConfig hard 33 0.97 0.40 200 color0
  end.

Inductive BotState : Type := COLLECT | BANK | EVADE | FLEE_NUKE.

Definition BotState_eqb (a b : BotState) : bool :=
  match a, b with
  | COLLECT, COLLECT | BANK, BANK | EVADE, EVADE | FLEE_NUKE, FLEE_NUKE => true
  | _, _ => false
  end.

(** The controller; the grid it steers is passed to its methods.
    [targetOrb] holds the identifier of the orb object. *)
Record t : Type := mk {
  config : BotConfig;
  currentState : BotState;
  stateTimer : R;
  lastDecisionTime : R;
  targetOrb : option Z;
  targetPosition : option Vec2.t
}.

Definition CORNERS : list Vec2.t :=
  [ Vec2.mk 50 50;
    Vec2.mk (WORLD_WIDTH - 50) 50;
    Vec2.mk 50 (WORLD_HEIGHT - 50);
    Vec2.mk (WORLD_WIDTH - 50) (WORLD_HEIGHT - 50) ].

(** [dist < nearestDist], where [None] stands for [Infinity]. *)
Definition closer (dist : R) (nearestDist : option R) : bool :=
  match nearestDist with
  | None => true
  | Some d => Rltb dist d
  end.

(** [stopShip()] *)
Definition stopShip (s : Ship.t) : Ship.t :=
  Ship.mk (Ship.position s) (Ship.velocity s) (Ship.angle s)
          (Ship.previousPosition s) (Ship.previousAngle s) false false false
          (Ship.cargo s) (Ship.lives s) (Ship.invulnerabilityTimer s)
          (Ship.isDead s) (Ship.speedBoost s) (Ship.color s).

(** [findNearestHazard()] *)
Definition findNearestHazard (g : GridState.t) : option (Hazard * R) :=
  let '(nearest, nearestDist) :=
    fold_left (fun '(nearest, nearestDist) hazard =>
                 if negb (HazardOps.active hazard) then (nearest, nearestDist) else
                 let dist := Vec2.length (Vec2.sub (HazardOps.position hazard)
                                                   (Ship.position (GridState.ship g))) in
                 if closer dist nearestDist then (Some hazard, Some dist)
                 else (nearest, nearestDist))
              (GridState.hazards g) (None, None) in
  match nearest, nearestDist with
  | Some hazard, Some distance => Some (hazard, distance)
  | _, _ => None
  end.

(** [calculateEscapeVector(hazard)] *)
Definition calculateEscapeVector (hazard : Hazard) (g : GridState.t) : M Vec2.t :=
  let ship := GridState.ship g in
  let away := Vec2.sub (Ship.position ship) (HazardOps.position hazard) in
  away1 <- (if Rltb (Vec2.length away) 10
            then r <- random ;; ret (Vec2.fromAngle (r * PI * 2))
            else ret away) ;;
  let away2 := Vec2.normalize away1 in
  ret (Vec2.add (Ship.position ship) (Vec2.mul away2 200)).

(** [findNearestCorner()] *)
Definition findNearestCorner (g : GridState.t) : Vec2.t :=
  fst (fold_left (fun '(nearest, nearestDist) corner =>
                    let dist := Vec2.length (Vec2.sub corner
                                               (Ship.position (GridState.ship g))) in
                    if closer dist nearestDist then (corner, Some dist)
                    else (nearest, nearestDist))
                 CORNERS (nth 0 CORNERS Vec2.zero, None)).

(** [hazards.find(h => h.type === HazardType.NUKE && !h.detonated)] *)
Definition pendingNuke (h : Hazard) : bool :=
  match h with
  | HNuke n => negb (Nuke.detonated n)
  | _ => false
  end.

(** [checkStateTransitions()] *)
Definition checkStateTransitions (g : GridState.t) (bot : t) : M t :=
  let ship := GridState.ship g in
  let cargoFullness := INR (Ship.getCargoCount ship) / INR MAX_CARGO_SLOTS in
  (* Priority 1: FLEE_NUKE *)
  match find pendingNuke (GridState.hazards g) with
  | Some _ =>
      if negb (BotState_eqb (currentState bot) FLEE_NUKE)
      then ret (mk (config bot) FLEE_NUKE (stateTimer bot) (lastDecisionTime bot)
                   (targetOrb bot) (Some (findNearestCorner g)))
      else ret bot
  | None =>
  (* Priority 2: EVADE *)
  let nearestHazard := findNearestHazard g in
  match (match nearestHazard with
         | Some (hazard, distance) =>
             if Rltb distance (evadeDistance (config bot)) then Some hazard else None
         | None => None
         end) with
  | Some hazard =>
      if negb (BotState_eqb (currentState bot) EVADE)
      then escape <- calculateEscapeVector hazard g ;;
           ret (mk (config bot) EVADE (stateTimer bot) (lastDecisionTime bot)
                   (targetOrb bot) (Some escape))
      else ret bot
  | None =>
  (* Priority 3: BANK *)
  if Rleb (bankThreshold (config bot)) cargoFullness then
    if negb (BotState_eqb (currentState bot) BANK)
    then hub <- readWormhole (GridState.wormhole g) ;;
         ret (mk (config bot) BANK (stateTimer bot) (lastDecisionTime bot)
                 (targetOrb bot) (Some (Wormhole.position hub)))
    else ret bot
  else
  (* Default: COLLECT *)
  if negb (BotState_eqb (currentState bot) COLLECT)
  then ret (mk (config bot) COLLECT (stateTimer bot) (lastDecisionTime bot)
               None (targetPosition bot))
  else ret bot
  end end.

End BotAI.

(** ** client/InputHandler *)

Module InputHandler.

(** The optional callbacks of the handler; a call is recorded whether or
    not a callback is installed. *)
Inductive Callback : Type :=
| onThrustStart | onThrustEnd
| onRotateLeftStart | onRotateLeftEnd
| onRotateRightStart | onRotateRightEnd
| onShoot
| onBankSlot (slotIndex : Z).

Record t : Type := mk {
  keys : list string;
  actionPressed : bool
}.

Definition new : t := mk [] false.

(** [this.keys.has(key)] *)
Definition has (key : string) (ks : list string) : bool := existsb (String.eqb key) ks.

(** [handleKeyDown(e)]; [key] is [e.key.toLowerCase()].  The result lists
    the callbacks called, in order. *)
Definition handleKeyDown (key : string) (st : t) : list Callback * t :=
  if has key (keys st) then ([], st) (* Already pressed *) else
  let st1 := mk (keys st ++ [key]) (actionPressed st) in
  if (String.eqb key "w" || String.eqb key "arrowup")%bool then ([onThrustStart], st1)
  else if (String.eqb key "a" || String.eqb key "arrowleft")%bool then ([onRotateLeftStart], st1)
  else if (String.eqb key "d" || String.eqb key "arrowright")%bool then ([onRotateRightStart], st1)
  else if (String.eqb key "s" || String.eqb key "arrowdown")%bool then ([], st1)
  else if String.eqb key " " then ([onShoot], mk (keys st1) true)
  else if String.eqb key "1" then ([onBankSlot 0], st1)
  else if String.eqb key "2" then ([onBankSlot 1], st1)
  else if String.eqb key "3" then ([onBankSlot 2], st1)
  else if String.eqb key "4" then ([onBankSlot 3], st1)
  else ([], st1).

(** [handleKeyUp(e)] *)
Definition handleKeyUp (key : string) (st : t) : list Callback * t :=
  let st1 := mk (filter (fun k => negb (String.eqb key k)) (keys st)) (actionPressed st) in
  if (String.eqb key "w" || String.eqb key "arrowup")%bool then ([onThrustEnd], st1)
  else if (String.eqb key "a" || String.eqb key "arrowleft")%bool then ([onRotateLeftEnd], st1)
  else if (String.eqb key "d" || String.eqb key "arrowright")%bool then ([onRotateRightEnd], st1)
  else ([], st1).

(** [isPressed(key)], for a key name already in lower case. *)
Definition isPressed (key : string) (st : t) : bool := has key (keys st).

(** [isActionPressed()]: reads the flag and clears it. *)
Definition isActionPressed (st : t) : bool * t := (actionPressed st, mk (keys st) false).

End InputHandler.


(** ** Vocabulary of the statements *)

(** The facing angle and the velocity of a ship after the rotation and
    thrust steps of [update]. *)
Definition steered (s : Ship.t) : R :=
  let a1 := if Ship.rotatingLeft s then Ship.angle s - SHIP_ROTATION_SPEED else Ship.angle s in
  if Ship.rotatingRight s then a1 + SHIP_ROTATION_SPEED else a1.

Definition thrusted (s : Ship.t) : Vec2.t :=
  if Ship.thrusting s
  then Vec2.add (Ship.velocity s)
                (Vec2.mul (Vec2.fromAngle (steered s)) (SHIP_THRUST * Ship.speedBoost s))
  else Ship.velocity s.

(** The ship after the rotation, thrust, speed cap, drag and position steps
    of [update], before the wrap. *)
Definition moved (s : Ship.t) : Ship.t :=
  let v := Vec2.mul (Vec2.clamp (thrusted s) (SHIP_MAX_SPEED * Ship.speedBoost s))
                    SHIP_DRAG in
  Ship.mk (Vec2.add (Ship.position s) v) v (steered s)
          (Ship.previousPosition s) (Ship.previousAngle s)
          (Ship.thrusting s) (Ship.rotatingLeft s) (Ship.rotatingRight s)
          (Ship.cargo s) (Ship.lives s) (Ship.invulnerabilityTimer s)
          (Ship.isDead s) (Ship.speedBoost s) (Ship.color s).

(** What may happen to a ship between two hits: physics steps, and the
    other ship methods the simulation calls, none of which touches lives. *)
Inductive ShipOp : Type :=
| OpUpdate
| OpSavePreviousState
| OpAddCargo (orbType : OrbType)
| OpRemoveCargoAt (slotIndex : Z)
| OpApplySpeedBoost (multiplier : R)
| OpControls (thrust left right : bool).

Definition runShipOp (op : ShipOp) (s : Ship.t) : Ship.t :=
  match op with
  | OpUpdate => Ship.update s
  | OpSavePreviousState => Ship.savePreviousState s
  | OpAddCargo o => snd (Ship.addCargo o s)
  | OpRemoveCargoAt i => snd (Ship.removeCargoAt i s)
  | OpApplySpeedBoost m => Ship.applySpeedBoost m s
  | OpControls th l r =>
      Ship.mk (Ship.position s) (Ship.velocity s) (Ship.angle s)
              (Ship.previousPosition s) (Ship.previousAngle s) th l r
              (Ship.cargo s) (Ship.lives s) (Ship.invulnerabilityTimer s)
              (Ship.isDead s) (Ship.speedBoost s) (Ship.color s)
  end.

Definition runShipOps (ops : list ShipOp) (s : Ship.t) : Ship.t :=
  fold_left (fun s0 op => runShipOp op s0) ops s.

Definition isUpdate (op : ShipOp) : bool :=
  match op with OpUpdate => true | _ => false end.

(** The number of physics steps among the operations. *)
Definition ticks (ops : list ShipOp) : nat := List.length (filter isUpdate ops).

(** The ships the program can hold: made by the constructor, then changed
    only through the methods of [Ship] and the control setters. *)
Inductive ShipReachable : Ship.t -> Prop :=
| reach_new (x0 y0 : R) (color0 : string) : ShipReachable (Ship.new x0 y0 color0)
| reach_op (op : ShipOp) (s : Ship.t) : ShipReachable s -> ShipReachable (runShipOp op s)
| reach_clearCargo (s : Ship.t) : ShipReachable s -> ShipReachable (snd (Ship.clearCargo s))
| reach_takeDamage (s : Ship.t) : ShipReachable s -> ShipReachable (snd (Ship.takeDamage s))
| reach_reset (x0 y0 : R) (s : Ship.t) : ShipReachable s -> ShipReachable (Ship.reset x0 y0 s).

(** Occurrences of an orb type in a hand. *)
Definition occurrences (ty : OrbType) (cargo : list OrbType) : nat :=
  List.length (filter (OrbType_eqb ty) cargo).

(** Hazards of a given kind in a spawn set. *)
Definition countType (ty : HazardType) (hs : list Hazard) : nat :=
  List.length (filter (fun h => HazardType_eqb (HazardOps.type h) ty) hs).


(** Every result of the computation satisfies [P]. *)
Definition post {A : Type} (c : M A) (P : A -> Prop) : Prop :=
  forall w a w', c w = Some (a, w') -> P a.

(** [Math.random()] yields values in [0, 1). *)
Definition inRange (f : nat -> R) : Prop := forall n : nat, 0 <= f n < 1.

Definition randomInRange (w : World) : Prop := inRange (randoms w).

(** The computation returns from every world whose random source
    satisfies [P], and it leaves the random source and the store of hubs as
    they are. *)
Definition returnsIf {A : Type} (P : (nat -> R) -> Prop) (c : M A) : Prop :=
  forall w, P (randoms w) ->
            exists a w', c w = Some (a, w') /\
                         randoms w' = randoms w /\ wormholes w' = wormholes w.

(** The computation returns from every world. *)
Definition total {A : Type} (c : M A) : Prop := returnsIf (fun _ => True) c.


(** A world to run examples in: every draw is one half, no object has been
    created yet except one hub. *)
Definition exampleWorld : World :=
  mkWorld (fun _ => 0.5) 0 0%Z 0%Z [Wormhole.new] [].

(** The position of a hub. *)
Definition hubCenter : Vec2.t := Vec2.mk (WORLD_WIDTH / 2) (WORLD_HEIGHT / 2).

(** A player grid on the hub of [exampleWorld], with a callback installed
    for bank events, holding the given ship. *)
Definition exampleGrid (s : Ship.t) : GridState.t :=
  GridState.mk player true s 0%nat [] [] [] ParticleSystem.new 0 3000 0 None 0%Z 0
               false 0%Z None (Some (fun _ _ => ret tt)) None None.

(** The nuke that [new Nuke(hubCenter)] creates in [exampleWorld]. *)
Definition freshNuke : Nuke.t :=
  Nuke.mk 0%Z hubCenter Vec2.zero 0 375 420%Z 420%Z 300%Z false 0%Z 120%Z true 50.

(** One axis of the toroidal wrap, as [wrapPosition] performs it. *)
Definition wrapAxis (size x : R) : R :=
  if Rltb x 0 then x + size else if Rltb size x then x - size else x.

(** Run from [w], the computation returns some [a] and a world [w'] with
    [Q a w']. *)
Definition yields {A : Type} (c : M A) (w : World) (Q : A -> World -> Prop) : Prop :=
  exists a w', c w = Some (a, w') /\ Q a w'.

(** Two states of one grid: the same owner, hub reference and handlers. *)
Definition links (g' g : GridState.t) : Prop :=
  GridState.owner g' = GridState.owner g /\
  GridState.wormhole g' = GridState.wormhole g /\
  GridState.onBankOrbs g' = GridState.onBankOrbs g /\
  GridState.onShipDestroyed g' = GridState.onShipDestroyed g /\
  GridState.onKillFeed g' = GridState.onKillFeed g.

(** The handlers a grid calls during [update] return, and leave the random
    source and the store of hubs alone. *)
Definition handlersReturn (g : GridState.t) : Prop :=
  (forall f message, GridState.onKillFeed g = Some f -> total (f message)) /\
  (forall f o, GridState.onShipDestroyed g = Some f -> total (f o)).

(** The grids that take a full physics step: those not yet game over. *)
Definition liveGrids (gs : list GridState.t) : nat :=
  List.length (filter (fun g => negb (GridState.gameOver g)) gs).

(** Handlers that do nothing. *)
Definition idleHandlers : Game.Handlers :=
  Game.mkHandlers (fun _ _ => ret tt) (fun _ => ret tt) (fun _ => ret tt).

(** A world in which no object has been created yet. *)
Definition emptyWorld : World := mkWorld (fun _ => 0.5) 0 0%Z 0%Z [] [].

(** The game that [new Game(canvas, 2)] sets up in [emptyWorld] with idle
    handlers, and the world it leaves: a player grid and two bot grids on
    one shared hub. *)
Definition exampleGame : Game.t :=
  Game.mk 0%nat
    [ Game.setupGridCallbacks idleHandlers
        (GridState.mk player true
           (Ship.new (WORLD_WIDTH / 2) (WORLD_HEIGHT / 2 + 200) "#33ff33")
           0%nat [] [] [] ParticleSystem.new 0 3000 0 None 0%Z 0 false 0%Z
           None None None None);
      Game.setupGridCallbacks idleHandlers
        (GridState.mk bot_1 false
           (Ship.new (WORLD_WIDTH / 2 + 200) (WORLD_HEIGHT / 2 + 0) "#33ccff")
           0%nat [] [] [] ParticleSystem.new 0 3000 0 None 0%Z 0 false 0%Z
           None None None None);
      Game.setupGridCallbacks idleHandlers
        (GridState.mk bot_2 false
           (Ship.new (WORLD_WIDTH / 2 + -200) (WORLD_HEIGHT / 2 + 0) "#ff33ff")
           0%nat [] [] [] ParticleSystem.new 0 3000 0 None 0%Z 0 false 0%Z
           None None None None) ]
    2%nat.

(** Picking up a sequence of orbs, one [addCargo] call each. *)
Definition addAll (orbs : list OrbType) (s : Ship.t) : Ship.t :=
  fold_left (fun s0 o => snd (Ship.addCargo o s0)) orbs s.


(** What the orb and collision steps of a grid update leave alone: the
    hazards, the boost zones and the game-over flag. *)
Definition sameHazards (g' g : GridState.t) : Prop :=
  GridState.hazards g' = GridState.hazards g /\
  GridState.boostZones g' = GridState.boostZones g /\
  GridState.gameOver g' = GridState.gameOver g.

(** Two states of a ship between which no life was lost. *)
Definition unhurt (s' s : Ship.t) : Prop :=
  Ship.lives s' = Ship.lives s /\ Ship.isDead s' = Ship.isDead s.

(** Two states of a ship between which it took one hit. *)
Definition lostLife (s' s : Ship.t) : Prop :=
  Ship.isDead s = false /\
  Ship.lives s' = (Ship.lives s - 1)%Z /\
  Ship.invulnerabilityTimer s' = INVULNERABILITY_TIME /\
  Ship.getCargoCount s' = 0%nat /\
  Ship.isDead s' = (Ship.lives s' <=? 0)%Z.

(** The ships as the hazards of a grid find them during the grid's update:
    the grid's own ship has already made its move. *)
Definition shipsSeenBy (others : ShipRef -> Ship.t) (g : GridState.t) : ShipRef -> Ship.t :=
  fun r => if GridOwner_eqb r (GridState.owner g)
           then Ship.update (Ship.savePreviousState (GridState.ship g))
           else others r.

(** The hazards and zones that the clean-up at the end of an update keeps. *)
Definition keptHazard (h : Hazard) : bool :=
  negb (HazardOps.isExpired h) && HazardOps.active h.
Definition keptZone (z : SpeedBoostZone.t) : bool :=
  negb (SpeedBoostZone.isExpired z) && SpeedBoostZone.active z.


(** A round to run examples in: the player and one bot on the hub of
    [exampleWorld], nothing fired yet. *)
Definition exampleRound : GameRound.t :=
  GameRound.mk (exampleGrid (Ship.new 600 600 PLAYER_COLOR))
               [GridState.mk bot_1 false (Ship.new 800 400 "#33ccff") 0%nat [] [] []
                             ParticleSystem.new 0 3000 0 None 0%Z 0 false 0%Z
                             None None None None]
               [] 0%Z 0 0 false None 1%Z [].

(** Whether a point lies in the world rectangle. *)
Definition inWorld (p : Vec2.t) : Prop :=
  0 <= Vec2.x p <= WORLD_WIDTH /\ 0 <= Vec2.y p <= WORLD_HEIGHT.


(** The distance from a grid's ship to a hazard, and the two threats a bot
    reacts to: a nuke that has not detonated yet, and an active hazard
    within the bot's evade distance. *)
Definition distanceTo (g : GridState.t) (h : Hazard) : R :=
  Vec2.length (Vec2.sub (HazardOps.position h) (Ship.position (GridState.ship g))).

Definition nukePending (g : GridState.t) : Prop :=
  exists h, In h (GridState.hazards g) /\ BotAI.pendingNuke h = true.

Definition hazardNear (g : GridState.t) (cfg : BotAI.BotConfig) : Prop :=
  exists h, In h (GridState.hazards g) /\ HazardOps.active h = true /\
            distanceTo g h < BotAI.evadeDistance cfg.

(** The number of orbs at which a bot of each difficulty heads for the hub. *)
Definition orbsToBank (d : BotAI.Difficulty) : nat :=
  match d with BotAI.easy => 4 | BotAI.medium => 3 | BotAI.hard => 2 end.


(** Where [spawnOrb] may put an orb on a grid: at least 50 in from every
    edge, at least 150 from the centre of the world, and at least three orb
    radii from every orb already there. *)
Definition goodOrbPlace (g : GridState.t) (p : Vec2.t) : Prop :=
  (GridState.MIN_EDGE_DISTANCE <= Vec2.x p <= WORLD_WIDTH - GridState.MIN_EDGE_DISTANCE /\
   GridState.MIN_EDGE_DISTANCE <= Vec2.y p <= WORLD_HEIGHT - GridState.MIN_EDGE_DISTANCE) /\
  GridState.MIN_SPAWN_DISTANCE <= Vec2.length (Vec2.sub p hubCenter) /\
  forall kv, In kv (GridState.orbs g) ->
    ORB_RADIUS * 3 <= Vec2.length (Vec2.sub p (Orb.position (snd kv))).


(* ===================================================================== *)
(** * Properties *)
(* ===================================================================== *)

(** ** Arrays *)

Lemma findIndex_none {A : Type} (p : A -> bool) (l : list A) :
  findIndex p l = None <-> forallb (fun a => negb (p a)) l = true.
Proof.
  induction l as [|a l IH]; simpl.
  - split; reflexivity.
  - destruct (p a); simpl.
    + split; discriminate.
    + destruct (findIndex p l).
      * split; [discriminate|]. intro H. apply IH in H. discriminate.
      * split; [intros _; apply IH; reflexivity | reflexivity].
Qed.

Lemma findIndex_some {A : Type} (p : A -> bool) (l : list A) (i : nat) :
  findIndex p l = Some i <->
  (exists a, nth_error l i = Some a /\ p a = true) /\
  (forall j b, (j < i)%nat -> nth_error l j = Some b -> p b = false).
Proof.
  revert i. induction l as [|a l IH]; intro i; simpl.
  - split; [discriminate|]. intros [[b [Hb _]] _]. destruct i; discriminate.
  - destruct (p a) eqn:Hpa.
    + split.
      * intro H. injection H as <-. split.
        -- exists a. split; [reflexivity | exact Hpa].
        -- intros j b Hj. lia.
      * intros [[b [Hb Hpb]] Hmin]. destruct i as [|i]; [reflexivity|].
        specialize (Hmin O a (Nat.lt_0_succ i) eq_refl). congruence.
    + destruct (findIndex p l) as [k|] eqn:Hk.
      * split.
        -- intro H. injection H as <-.
           destruct (proj1 (IH k) eq_refl) as [Hex Hmin]. split.
           ++ exact Hex.
           ++ intros [|j] b Hj Hb; simpl in Hb.
              ** injection Hb as <-. exact Hpa.
              ** apply (Hmin j b); [lia | exact Hb].
        -- intros [[b [Hb Hpb]] Hmin]. destruct i as [|i]; simpl in Hb.
           ++ injection Hb as <-. congruence.
           ++ f_equal. assert (Hi : Some k = Some i); [|congruence].
              apply IH. split.
              ** exists b. split; assumption.
              ** intros j c Hj Hc. apply (Hmin (S j) c); [lia | exact Hc].
      * split; [discriminate|].
        intros [[b [Hb Hpb]] Hmin]. destruct i as [|i]; simpl in Hb.
        -- injection Hb as <-. congruence.
        -- assert (Hi : @None nat = Some i); [|discriminate].
           apply IH. split.
           ++ exists b. split; assumption.
           ++ intros j c Hj Hc. apply (Hmin (S j) c); [lia | exact Hc].
Qed.

Lemma setAt_length {A : Type} (i : nat) (v : A) (l : list A) :
  List.length (setAt i v l) = List.length l.
Proof.
  revert i. induction l as [|a l IH]; intros [|i]; simpl; try reflexivity.
  now rewrite IH.
Qed.

Lemma setAt_split {A : Type} (i : nat) (v : A) (l : list A) :
  (i < List.length l)%nat -> setAt i v l = firstn i l ++ v :: skipn (S i) l.
Proof.
  revert i. induction l as [|a l IH]; intros [|i] Hi; simpl in *; try lia.
  - reflexivity.
  - f_equal. apply IH. lia.
Qed.

Lemma fill_length {A : Type} (v : A) (l : list A) :
  List.length (fill v l) = List.length l.
Proof. apply length_map. Qed.

Lemma filter_full {A : Type} (p : A -> bool) (l : list A) :
  List.length (filter p l) = List.length l -> forallb p l = true.
Proof.
  induction l as [|a l IH]; simpl; [reflexivity|].
  pose proof (filter_length_le p l) as Hle.
  destruct (p a); simpl; intro H.
  - apply IH. lia.
  - lia.
Qed.

Lemma forallb_congr {A : Type} (p q : A -> bool) (l : list A) :
  (forall a, p a = q a) -> forallb p l = forallb q l.
Proof.
  intro H. induction l as [|a l IH]; simpl; [reflexivity|].
  now rewrite H, IH.
Qed.

(** ** Ship: cargo *)

Lemma isNull_isSlot (item : option OrbType) : Ship.isNull item = negb (Ship.isSlot item).
Proof. destruct item; reflexivity. Qed.

Lemma count_le_slots (c : list (option OrbType)) :
  (List.length (filter Ship.isSlot c) <= List.length c)%nat.
Proof. apply filter_length_le. Qed.

Lemma count_setAt_null (c : list (option OrbType)) (i : nat) (o : OrbType) :
  nth_error c i = Some None ->
  List.length (filter Ship.isSlot (setAt i (Some o) c)) =
  S (List.length (filter Ship.isSlot c)).
Proof.
  revert i. induction c as [|a c IH]; intros [|i] H; simpl in *; try discriminate.
  - injection H as ->. reflexivity.
  - destruct (Ship.isSlot a); simpl; rewrite (IH i H); reflexivity.
Qed.

Lemma addCargo_slots (o : OrbType) (s : Ship.t) :
  List.length (Ship.cargo (snd (Ship.addCargo o s))) = List.length (Ship.cargo s).
Proof.
  unfold Ship.addCargo. destruct (findIndex Ship.isNull (Ship.cargo s)); simpl.
  - apply setAt_length.
  - reflexivity.
Qed.

Lemma clearCargo_slots (s : Ship.t) :
  List.length (Ship.cargo (snd (Ship.clearCargo s))) = List.length (Ship.cargo s).
Proof. simpl. apply fill_length. Qed.

Lemma collect_length (c : list (option OrbType)) :
  List.length (Ship.collect c) = List.length (filter Ship.isSlot c).
Proof.
  induction c as [|[o|] c IH]; simpl; [reflexivity | now rewrite IH | exact IH].
Qed.

Lemma fill_null_count (c : list (option OrbType)) :
  filter Ship.isSlot (fill None c) = [].
Proof. induction c as [|a c IH]; simpl; [reflexivity | exact IH]. Qed.

Lemma new_ship_slots (x0 y0 : R) (col : string) :
  List.length (Ship.cargo (Ship.new x0 y0 col)) = MAX_CARGO_SLOTS.
Proof. reflexivity. Qed.

Lemma removeCargoAt_slots (i : Z) (s : Ship.t) :
  List.length (Ship.cargo (snd (Ship.removeCargoAt i s))) = List.length (Ship.cargo s).
Proof.
  unfold Ship.removeCargoAt. destruct (_ || _); simpl; [reflexivity | apply setAt_length].
Qed.

Lemma takeDamage_slots (s : Ship.t) :
  List.length (Ship.cargo (snd (Ship.takeDamage s))) = List.length (Ship.cargo s).
Proof.
  unfold Ship.takeDamage. destruct (_ || _); [reflexivity|]. simpl.
  destruct (_ <=? _)%Z; simpl; apply fill_length.
Qed.

(** C8. Cargo bound.  On a ship with its 4 cargo slots, [addCargo] never
    leaves more than 4 occupied slots and keeps the 4 slots; when some slot
    is empty it succeeds and writes the orb into the first empty slot,
    leaving every other slot and every other field as they were; when all 4
    slots are occupied it returns false and leaves the ship, hence the cargo
    array, unchanged. *)
Theorem addCargo_cargo_bound (s : Ship.t) (orbType : OrbType)
    (Hslots : List.length (Ship.cargo s) = MAX_CARGO_SLOTS) :
  (Ship.getCargoCount (snd (Ship.addCargo orbType s)) <= 4)%nat /\
  List.length (Ship.cargo (snd (Ship.addCargo orbType s))) = MAX_CARGO_SLOTS /\
  (forall i : nat,
      nth_error (Ship.cargo s) i = Some None ->
      (forall j, (j < i)%nat -> nth_error (Ship.cargo s) j <> Some None) ->
      Ship.addCargo orbType s =
        (true,
         Ship.set_cargo
           (firstn i (Ship.cargo s) ++ Some orbType :: skipn (S i) (Ship.cargo s)) s) /\
      Ship.getCargoCount (snd (Ship.addCargo orbType s)) = S (Ship.getCargoCount s)) /\
  (Ship.getCargoCount s = 4%nat -> Ship.addCargo orbType s = (false, s)).
Proof.
  split; [|split; [|split]].
  - unfold Ship.getCargoCount.
    pose proof (count_le_slots (Ship.cargo (snd (Ship.addCargo orbType s)))) as H.
    rewrite addCargo_slots, Hslots in H. exact H.
  - rewrite addCargo_slots. exact Hslots.
  - intros i Hi Hmin.
    assert (Hfind : findIndex Ship.isNull (Ship.cargo s) = Some i).
    { apply findIndex_some. split.
      - exists None. split; [exact Hi | reflexivity].
      - intros j b Hj Hb. destruct b as [o|]; [reflexivity|].
        exfalso. exact (Hmin j Hj Hb). }
    assert (Hlt : (i < List.length (Ship.cargo s))%nat).
    { apply nth_error_Some. rewrite Hi. discriminate. }
    unfold Ship.addCargo. rewrite Hfind. split.
    + rewrite (setAt_split i (Some orbType) (Ship.cargo s) Hlt). reflexivity.
    + unfold Ship.getCargoCount. simpl. apply count_setAt_null. exact Hi.
  - intro Hfull. unfold Ship.getCargoCount in Hfull.
    assert (Hall : forallb Ship.isSlot (Ship.cargo s) = true).
    { apply filter_full. rewrite Hfull, Hslots. reflexivity. }
    assert (Hnone : findIndex Ship.isNull (Ship.cargo s) = None).
    { apply findIndex_none. rewrite <- Hall. apply forallb_congr.
      intro a. rewrite isNull_isSlot. apply negb_involutive. }
    unfold Ship.addCargo. rewrite Hnone. reflexivity.
Qed.

Lemma addCargo_cargo_bound_witness :
  let s1 := Ship.set_cargo [Some RED; None; Some BLUE; None] (Ship.new 600 600 PLAYER_COLOR) in
  let s2 := Ship.set_cargo [Some RED; Some GOLD; Some BLUE; Some RED] (Ship.new 600 600 PLAYER_COLOR) in
  List.length (Ship.cargo s1) = MAX_CARGO_SLOTS /\
  List.length (Ship.cargo s2) = MAX_CARGO_SLOTS /\
  Ship.addCargo GOLD s1 =
    (true, Ship.set_cargo [Some RED; Some GOLD; Some BLUE; None] s1) /\
  Ship.addCargo GOLD s2 = (false, s2).
Proof.
  intros s1 s2.
  split; [reflexivity|]. split; [reflexivity|]. split.
  - destruct (addCargo_cargo_bound s1 GOLD eq_refl) as [_ [_ [Hfirst _]]].
    apply (Hfirst 1%nat).
    + reflexivity.
    + intros j Hj. assert (j = 0%nat) as -> by lia. discriminate.
  - destruct (addCargo_cargo_bound s2 GOLD eq_refl) as [_ [_ [_ Hfull]]].
    apply Hfull. reflexivity.
Defined.

(** ** Ship: damage *)

Lemma wrapPosition_frame (s : Ship.t) :
  Ship.lives (Ship.wrapPosition s) = Ship.lives s /\
  Ship.invulnerabilityTimer (Ship.wrapPosition s) = Ship.invulnerabilityTimer s /\
  Ship.isDead (Ship.wrapPosition s) = Ship.isDead s /\
  Ship.cargo (Ship.wrapPosition s) = Ship.cargo s /\
  Ship.speedBoost (Ship.wrapPosition s) = Ship.speedBoost s.
Proof.
  unfold Ship.wrapPosition.
  repeat match goal with |- context [if ?c then _ else _] => destruct c end;
    simpl; repeat split; reflexivity.
Qed.

(** [update] on a living ship, step by step. *)
Lemma update_unfold (s : Ship.t) :
  Ship.isDead s = false ->
  Ship.update s =
  Ship.set_speedBoost 1.0
    (if (0 <? Ship.invulnerabilityTimer (Ship.wrapPosition (moved s)))%Z
     then Ship.set_invulnerabilityTimer
            (Ship.invulnerabilityTimer (Ship.wrapPosition (moved s)) - 1)%Z
            (Ship.wrapPosition (moved s))
     else Ship.wrapPosition (moved s)).
Proof.
  destruct s as [p v a pp pa th rl rr c l tm d sb col].
  cbn [Ship.isDead]. intros ->.
  destruct rl, rr, th; reflexivity.
Qed.

Lemma update_lives (s : Ship.t) :
  Ship.lives (Ship.update s) = Ship.lives s /\
  Ship.isDead (Ship.update s) = Ship.isDead s /\
  Ship.cargo (Ship.update s) = Ship.cargo s /\
  Ship.invulnerabilityTimer (Ship.update s) =
    (if Ship.isDead s then Ship.invulnerabilityTimer s
     else if (0 <? Ship.invulnerabilityTimer s)%Z
          then Ship.invulnerabilityTimer s - 1
          else Ship.invulnerabilityTimer s)%Z.
Proof.
  destruct (Ship.isDead s) eqn:Hd.
  - unfold Ship.update. rewrite Hd. repeat split; assumption.
  - rewrite (update_unfold s Hd).
    destruct (wrapPosition_frame (moved s)) as (Hl & Ht & Hdd & Hc & _).
    rewrite Ht. cbn [moved Ship.invulnerabilityTimer].
    destruct (0 <? Ship.invulnerabilityTimer s)%Z;
      cbn [Ship.set_speedBoost Ship.set_invulnerabilityTimer Ship.lives Ship.isDead
           Ship.cargo Ship.invulnerabilityTimer];
      rewrite ?Hl, ?Hdd, ?Hc, ?Ht; cbn [moved Ship.lives Ship.isDead Ship.cargo
                                         Ship.invulnerabilityTimer];
      repeat split; try reflexivity; exact Hd.
Qed.

Lemma runShipOp_frame (op : ShipOp) (s : Ship.t) :
  Ship.lives (runShipOp op s) = Ship.lives s /\
  Ship.isDead (runShipOp op s) = Ship.isDead s /\
  (Ship.invulnerabilityTimer s - (if isUpdate op then 1 else 0)
     <= Ship.invulnerabilityTimer (runShipOp op s))%Z.
Proof.
  destruct op; simpl.
  - destruct (update_lives s) as (Hl & Hd & _ & Ht). rewrite Hl, Hd, Ht.
    repeat split.
    destruct (Ship.isDead s); [lia|].
    destruct (0 <? Ship.invulnerabilityTimer s)%Z; lia.
  - repeat split. lia.
  - unfold Ship.addCargo. destruct (findIndex Ship.isNull (Ship.cargo s));
      simpl; repeat split; lia.
  - unfold Ship.removeCargoAt.
    destruct ((slotIndex <? 0)%Z || (Z.of_nat MAX_CARGO_SLOTS <=? slotIndex)%Z);
      simpl; repeat split; lia.
  - repeat split. lia.
  - repeat split. lia.
Qed.

Lemma runShipOps_frame (ops : list ShipOp) (s : Ship.t) :
  Ship.lives (runShipOps ops s) = Ship.lives s /\
  Ship.isDead (runShipOps ops s) = Ship.isDead s /\
  (Ship.invulnerabilityTimer s - Z.of_nat (ticks ops)
     <= Ship.invulnerabilityTimer (runShipOps ops s))%Z.
Proof.
  revert s. induction ops as [|op ops IH]; intro s.
  - simpl. repeat split. lia.
  - unfold runShipOps in *. simpl fold_left.
    destruct (IH (runShipOp op s)) as (Hl & Hd & Ht).
    destruct (runShipOp_frame op s) as (Hl1 & Hd1 & Ht1).
    rewrite Hl, Hd, Hl1, Hd1. repeat split.
    unfold ticks in *. simpl filter.
    destruct (isUpdate op); simpl List.length; lia.
Qed.

Lemma update_slots (s : Ship.t) :
  List.length (Ship.cargo (Ship.update s)) = List.length (Ship.cargo s).
Proof. destruct (update_lives s) as (_ & _ & Hc & _). now rewrite Hc. Qed.

(** Every ship the program can hold has exactly 4 cargo slots. *)
Lemma reachable_ship_slots (s : Ship.t) :
  ShipReachable s -> List.length (Ship.cargo s) = MAX_CARGO_SLOTS.
Proof.
  induction 1 as [x0 y0 col | op s Hs IH | s Hs IH | s Hs IH | x0 y0 s Hs IH].
  - reflexivity.
  - destruct op; simpl; try exact IH.
    + rewrite update_slots. exact IH.
    + rewrite addCargo_slots. exact IH.
    + rewrite removeCargoAt_slots. exact IH.
  - rewrite clearCargo_slots. exact IH.
  - rewrite takeDamage_slots. exact IH.
  - simpl. rewrite fill_length. exact IH.
Qed.

(** C7. [takeDamage()] returns false and changes nothing while the ship is
    invulnerable or already dead.  Otherwise it decrements lives by exactly
    one, empties every cargo slot, sets the invulnerability timer to the
    fixed window, and returns true exactly when lives is then at most 0
    (the ship is then marked dead).  Hence a second [takeDamage()] that
    follows a damaging one after fewer physics steps than the window is
    long finds the ship invulnerable and is a no-op: lives went down exactly
    once. *)
Theorem takeDamage_spec (s : Ship.t) :
  (Ship.isInvulnerable s = true \/ Ship.isDead s = true ->
     Ship.takeDamage s = (false, s)) /\
  (Ship.isInvulnerable s = false -> Ship.isDead s = false ->
     let s' := snd (Ship.takeDamage s) in
     Ship.lives s' = (Ship.lives s - 1)%Z /\
     Ship.cargo s' = fill None (Ship.cargo s) /\
     Ship.getCargoCount s' = 0%nat /\
     Ship.invulnerabilityTimer s' = INVULNERABILITY_TIME /\
     (fst (Ship.takeDamage s) = true <-> (Ship.lives s' <= 0)%Z) /\
     Ship.isDead s' = fst (Ship.takeDamage s)) /\
  (forall ops : list ShipOp,
     Ship.isInvulnerable s = false -> Ship.isDead s = false ->
     (Z.of_nat (ticks ops) < INVULNERABILITY_TIME)%Z ->
     let s1 := snd (Ship.takeDamage s) in
     let s2 := runShipOps ops s1 in
     Ship.takeDamage s2 = (false, s2) /\
     Ship.lives (snd (Ship.takeDamage s2)) = (Ship.lives s - 1)%Z).
Proof.
  assert (Hdmg : Ship.isInvulnerable s = false -> Ship.isDead s = false ->
     Ship.lives (snd (Ship.takeDamage s)) = (Ship.lives s - 1)%Z /\
     Ship.cargo (snd (Ship.takeDamage s)) = fill None (Ship.cargo s) /\
     Ship.invulnerabilityTimer (snd (Ship.takeDamage s)) = INVULNERABILITY_TIME /\
     fst (Ship.takeDamage s) = (Ship.lives s - 1 <=? 0)%Z /\
     Ship.isDead (snd (Ship.takeDamage s)) = fst (Ship.takeDamage s)).
  { intros Hi Hd. unfold Ship.takeDamage. rewrite Hi, Hd. simpl.
    destruct (Ship.lives s - 1 <=? 0)%Z; simpl; repeat split; try reflexivity.
    exact Hd. }
  split; [|split].
  - intros H. unfold Ship.takeDamage.
    destruct H as [H|H]; rewrite H; [reflexivity|].
    rewrite orb_true_r. reflexivity.
  - intros Hi Hd s'. subst s'. destruct (Hdmg Hi Hd) as (Hl & Hc & Ht & Hf & Hdd).
    repeat split; try assumption.
    + unfold Ship.getCargoCount. rewrite Hc, fill_null_count. reflexivity.
    + rewrite Hf, Hl. intro H. apply Z.leb_le. exact H.
    + rewrite Hf, Hl. intro H. apply Z.leb_le. exact H.
  - intros ops Hi Hd Hticks s1 s2.
    destruct (Hdmg Hi Hd) as (Hl & _ & Ht & _).
    destruct (runShipOps_frame ops s1) as (Hl2 & _ & Ht2).
    fold s2 in Hl2, Ht2. fold s1 in Hl, Ht. rewrite Ht in Ht2.
    assert (Hinv : Ship.isInvulnerable s2 = true).
    { unfold Ship.isInvulnerable. apply Z.ltb_lt. lia. }
    assert (Hnoop : Ship.takeDamage s2 = (false, s2)).
    { unfold Ship.takeDamage. rewrite Hinv. reflexivity. }
    split; [exact Hnoop|]. rewrite Hnoop. simpl. rewrite Hl2. exact Hl.
Qed.

Lemma takeDamage_spec_witness :
  let s := Ship.set_cargo [Some RED; None; Some GOLD; None] (Ship.new 600 600 PLAYER_COLOR) in
  let hit := Ship.takeDamage s in
  let again := Ship.takeDamage (runShipOps [OpUpdate; OpAddCargo BLUE; OpUpdate] (snd hit)) in
  Ship.isInvulnerable s = false /\ Ship.isDead s = false /\
  Ship.lives (snd hit) = 2%Z /\
  Ship.cargo (snd hit) = [None; None; None; None] /\
  Ship.invulnerabilityTimer (snd hit) = 180%Z /\
  fst again = false /\
  Ship.lives (snd again) = 2%Z /\
  Ship.takeDamage (snd hit) = (false, snd hit).
Proof.
  intros s hit again.
  destruct (takeDamage_spec s) as (_ & Hdmg & Htwice).
  destruct (Hdmg eq_refl eq_refl) as (Hl & Hc & _ & Ht & _).
  destruct (Htwice [OpUpdate; OpAddCargo BLUE; OpUpdate] eq_refl eq_refl eq_refl)
    as (Hnoop & Hl2).
  destruct (takeDamage_spec (snd hit)) as (Hguard & _).
  split; [reflexivity|]. split; [reflexivity|].
  split; [exact Hl|]. split; [exact Hc|]. split; [exact Ht|].
  split; [unfold again, hit; rewrite Hnoop; reflexivity|].
  split; [exact Hl2|].
  apply Hguard. left. unfold Ship.isInvulnerable. unfold hit. rewrite Ht. reflexivity.
Defined.

(** ** Computations on the world *)

Lemma bind_some {A B : Type} (c : M A) (k : A -> M B) (w w2 : World) (b : B) :
  bind c k w = Some (b, w2) ->
  exists a w1, c w = Some (a, w1) /\ k a w1 = Some (b, w2).
Proof.
  unfold bind. destruct (c w) as [[a w1]|]; [|discriminate].
  intro H. exists a, w1. split; [reflexivity | exact H].
Qed.

Lemma post_ret {A : Type} (a : A) (P : A -> Prop) : P a -> post (ret a) P.
Proof. intros H w b w' Hr. unfold ret in Hr. injection Hr as <- _. exact H. Qed.

Lemma post_bind {A B : Type} (c : M A) (k : A -> M B) (P : A -> Prop) (Q : B -> Prop) :
  post c P -> (forall a, P a -> post (k a) Q) -> post (bind c k) Q.
Proof.
  intros Hc Hk w b w2 H. apply bind_some in H. destruct H as (a & w1 & Ha & Hb).
  exact (Hk a (Hc w a w1 Ha) w1 b w2 Hb).
Qed.

Lemma post_bind_any {A B : Type} (c : M A) (k : A -> M B) (Q : B -> Prop) :
  (forall a, post (k a) Q) -> post (bind c k) Q.
Proof.
  intro Hk. apply (post_bind c k (fun _ => True)).
  - intros w a w' _. exact I.
  - intros a _. apply Hk.
Qed.



Lemma post_forPush_length {A : Type} (body : nat -> M A) (n i : nat) :
  post (forPush n i body) (fun l => List.length l = n).
Proof.
  revert i. induction n as [|n IH]; intro i; simpl.
  - apply post_ret. reflexivity.
  - apply post_bind_any. intro a.
    apply (post_bind _ _ (fun l => List.length l = n)); [apply IH|]. intros l Hl.
    apply post_ret. simpl. now rewrite Hl.
Qed.

Lemma post_and {A : Type} (c : M A) (P Q : A -> Prop) :
  post c P -> post c Q -> post c (fun a => P a /\ Q a).
Proof. intros HP HQ w a w' H. split; [exact (HP w a w' H) | exact (HQ w a w' H)]. Qed.

Lemma post_weaken {A : Type} (c : M A) (P Q : A -> Prop) :
  post c P -> (forall a, P a -> Q a) -> post c Q.
Proof. intros HP HPQ w a w' H. apply HPQ. exact (HP w a w' H). Qed.

Lemma returnsIf_ret {A : Type} (P : (nat -> R) -> Prop) (a : A) : returnsIf P (ret a).
Proof. intros w _. exists a, w. repeat split; reflexivity. Qed.

Lemma returnsIf_bind {A B : Type} (P : (nat -> R) -> Prop) (c : M A) (k : A -> M B) :
  returnsIf P c -> (forall a, returnsIf P (k a)) -> returnsIf P (bind c k).
Proof.
  intros Hc Hk w Hw. destruct (Hc w Hw) as (a & w1 & Ha & Hr1 & Hh1).
  assert (Hw1 : P (randoms w1)) by (rewrite Hr1; exact Hw).
  destruct (Hk a w1 Hw1) as (b & w2 & Hb & Hr2 & Hh2).
  exists b, w2. split; [|split].
  - unfold bind. rewrite Ha. exact Hb.
  - rewrite Hr2. exact Hr1.
  - rewrite Hh2. exact Hh1.
Qed.

Lemma returnsIf_weaken {A : Type} (P Q : (nat -> R) -> Prop) (c : M A) :
  returnsIf P c -> (forall f, Q f -> P f) -> returnsIf Q c.
Proof. intros Hc HQP w Hw. apply Hc. apply HQP. exact Hw. Qed.

Lemma returnsIf_random (P : (nat -> R) -> Prop) : returnsIf P random.
Proof. intros w _. eexists. eexists. repeat split; reflexivity. Qed.

Lemma returnsIf_nextHazardId (P : (nat -> R) -> Prop) : returnsIf P nextHazardId.
Proof. intros w _. eexists. eexists. repeat split; reflexivity. Qed.

Lemma returnsIf_nextOrbId (P : (nat -> R) -> Prop) : returnsIf P nextOrbId.
Proof. intros w _. eexists. eexists. repeat split; reflexivity. Qed.

Lemma returnsIf_emit (P : (nat -> R) -> Prop) (e : Event) : returnsIf P (emit e).
Proof. intros w _. eexists. eexists. repeat split; reflexivity. Qed.

Lemma returnsIf_forPush {A : Type} (P : (nat -> R) -> Prop) (body : nat -> M A) (n i : nat) :
  (forall j, returnsIf P (body j)) -> returnsIf P (forPush n i body).
Proof.
  intro Hbody. revert i. induction n as [|n IH]; intro i; simpl.
  - apply returnsIf_ret.
  - apply returnsIf_bind; [apply Hbody|]. intro a.
    apply returnsIf_bind; [apply IH|]. intro l. apply returnsIf_ret.
Qed.

(** What a computation that returns and a postcondition give together. *)
Lemma returns_with_post {A : Type} (P : (nat -> R) -> Prop) (c : M A) (Q : A -> Prop) :
  returnsIf P c -> post c Q ->
  forall w, P (randoms w) -> exists a w', c w = Some (a, w') /\ Q a.
Proof.
  intros Hr Hq w Hw. destruct (Hr w Hw) as (a & w' & Ha & _).
  exists a, w'. split; [exact Ha | exact (Hq w a w' Ha)].
Qed.

Ltac returns_steps :=
  repeat match goal with
         | |- returnsIf _ (ret _) => apply returnsIf_ret
         | |- returnsIf _ random => apply returnsIf_random
         | |- returnsIf _ nextHazardId => apply returnsIf_nextHazardId
         | |- returnsIf _ nextOrbId => apply returnsIf_nextOrbId
         | |- returnsIf _ (emit _) => apply returnsIf_emit
         | |- returnsIf _ (forPush _ _ _) => apply returnsIf_forPush; intro
         | |- returnsIf _ (bind _ _) => apply returnsIf_bind; [|intro]
         end.

Ltac post_steps :=
  repeat match goal with
         | |- post (bind _ _) _ => apply post_bind_any; intro
         end.

(** ** Attack translation: the spawning helpers *)

Lemma Asteroid_new_returns P p v l : returnsIf P (Asteroid.new p v l).
Proof. unfold Asteroid.new. returns_steps. Qed.

Lemma SeekerDrone_new_returns P p : returnsIf P (SeekerDrone.new p).
Proof. unfold SeekerDrone.new. returns_steps. Qed.

Lemma Mine_new_returns P p : returnsIf P (Mine.new p).
Proof. unfold Mine.new. returns_steps. Qed.

Lemma Nuke_new_returns P p : returnsIf P (Nuke.new p).
Proof. unfold Nuke.new. returns_steps. Qed.

Lemma SpeedBoostZone_new_returns P p e : returnsIf P (SpeedBoostZone.new p e).
Proof. unfold SpeedBoostZone.new. returns_steps. Qed.

Lemma getRandomEdgePosition_returns P c d : returnsIf P (getRandomEdgePosition c d).
Proof.
  unfold getRandomEdgePosition. apply returnsIf_bind; [apply returnsIf_random|].
  intro r. destruct (Int_part (r * 4)) as [|p|p]; [returns_steps| |returns_steps].
  destruct p as [p|p|]; [destruct p|destruct p|]; returns_steps.
Qed.

Lemma getRandomPosition_returns P c d : returnsIf P (getRandomPosition c d).
Proof. unfold getRandomPosition. returns_steps. Qed.

Lemma spawnAsteroid_returns P hub l : returnsIf P (spawnAsteroid hub l).
Proof.
  unfold spawnAsteroid.
  apply returnsIf_bind; [apply getRandomEdgePosition_returns|]. intro.
  do 2 (apply returnsIf_bind; [apply returnsIf_random|]; intro).
  apply returnsIf_bind; [apply Asteroid_new_returns|]. intro. apply returnsIf_ret.
Qed.

Lemma spawnSeeker_returns P ship hub : returnsIf P (spawnSeeker ship hub).
Proof.
  unfold spawnSeeker.
  apply returnsIf_bind; [apply getRandomPosition_returns|]. intro.
  apply returnsIf_bind; [apply SeekerDrone_new_returns|]. intro. apply returnsIf_ret.
Qed.

Lemma spawnMine_returns P hub : returnsIf P (spawnMine hub).
Proof.
  unfold spawnMine.
  apply returnsIf_bind; [apply getRandomPosition_returns|]. intro.
  apply returnsIf_bind; [apply Mine_new_returns|]. intro. apply returnsIf_ret.
Qed.

Lemma spawnNuke_returns P hub : returnsIf P (spawnNuke hub).
Proof.
  unfold spawnNuke.
  apply returnsIf_bind; [apply Nuke_new_returns|]. intro. apply returnsIf_ret.
Qed.

Lemma Asteroid_new_post p v l :
  post (Asteroid.new p v l) (fun a => Asteroid.isLarge a = l).
Proof. unfold Asteroid.new. post_steps. apply post_ret. reflexivity. Qed.

Lemma Nuke_new_post p :
  post (Nuke.new p)
       (fun n => Nuke.position n = p /\ Nuke.detonated n = false /\
                 Nuke.active n = true).
Proof. unfold Nuke.new. post_steps. apply post_ret. repeat split; reflexivity. Qed.

Lemma spawnAsteroid_post hub l :
  post (spawnAsteroid hub l)
       (fun h => exists a, h = HAsteroid a /\ Asteroid.isLarge a = l).
Proof.
  unfold spawnAsteroid. do 3 (apply post_bind_any; intro).
  eapply post_bind; [apply Asteroid_new_post|]. intros ast Hast.
  apply post_ret. exists ast. split; [reflexivity | exact Hast].
Qed.

Lemma spawnSeeker_post ship hub :
  post (spawnSeeker ship hub)
       (fun h => exists d, h = HSeeker d /\ SeekerDrone.targetShip d = Some ship).
Proof.
  unfold spawnSeeker. post_steps. apply post_ret. eexists. split; reflexivity.
Qed.

Lemma spawnMine_post hub :
  post (spawnMine hub) (fun h => exists m, h = HMine m).
Proof. unfold spawnMine. post_steps. apply post_ret. eexists. reflexivity. Qed.

Lemma spawnNuke_post hub :
  post (spawnNuke hub)
       (fun h => exists n, h = HNuke n /\ Nuke.position n = hub /\
                           Nuke.detonated n = false /\ Nuke.active n = true).
Proof.
  unfold spawnNuke. eapply post_bind; [apply Nuke_new_post|]. intros n Hn.
  apply post_ret. exists n. split; [reflexivity | exact Hn].
Qed.

(** ** Attack translation: the priority ladder *)

Lemma countOf_increment (c : Counts) (orb ty : OrbType) :
  countOf (increment c orb) ty =
  (countOf c ty + (if OrbType_eqb ty orb then 1 else 0))%nat.
Proof. destruct orb, ty; simpl; lia. Qed.

Lemma countOf_fold (cargo : list OrbType) (c : Counts) (ty : OrbType) :
  countOf (fold_left increment cargo c) ty = (countOf c ty + occurrences ty cargo)%nat.
Proof.
  revert c. induction cargo as [|orb cargo IH]; intro c; simpl.
  - unfold occurrences. simpl. lia.
  - rewrite IH, countOf_increment. unfold occurrences. simpl.
    destruct (OrbType_eqb ty orb); simpl; lia.
Qed.

Lemma countCargo_spec (cargo : list OrbType) (ty : OrbType) :
  countOf (countCargo cargo) ty = occurrences ty cargo.
Proof. unfold countCargo. rewrite countOf_fold. destruct ty; reflexivity. Qed.

Lemma nuke_branch (cargo : list OrbType) (ship : ShipRef) (hub : Vec2.t) :
  (8 <= occurrences GOLD cargo)%nat ->
  translateCargoToAttack cargo ship hub =
    (n <- spawnNuke hub ;; ret (AttackResult.mk [n] [] TIER_4 "NUKE DETONATED!")).
Proof.
  intro H. unfold translateCargoToAttack. rewrite countCargo_spec.
  apply Nat.leb_le in H. rewrite H. reflexivity.
Qed.

Lemma spawnChaosStorm_spec (ship : ShipRef) (hub : Vec2.t) (w : World) :
  exists a1 a2 d m1 m2 w',
    spawnChaosStorm ship hub w =
      Some (AttackResult.mk [HAsteroid a1; HAsteroid a2; HSeeker d; HMine m1; HMine m2]
                            [] TIER_2 "CHAOS STORM!", w') /\
    Asteroid.isLarge a1 = false /\ Asteroid.isLarge a2 = true /\
    SeekerDrone.targetShip d = Some ship.
Proof.
  destruct (spawnAsteroid_returns (fun _ => True) hub false w I) as (h1 & w1 & E1 & _).
  destruct (spawnAsteroid_post hub false w h1 w1 E1) as (a1 & -> & L1).
  destruct (spawnAsteroid_returns (fun _ => True) hub true w1 I) as (h2 & w2 & E2 & _).
  destruct (spawnAsteroid_post hub true w1 h2 w2 E2) as (a2 & -> & L2).
  destruct (spawnSeeker_returns (fun _ => True) ship hub w2 I) as (h3 & w3 & E3 & _).
  destruct (spawnSeeker_post ship hub w2 h3 w3 E3) as (d & -> & T3).
  destruct (spawnMine_returns (fun _ => True) hub w3 I) as (h4 & w4 & E4 & _).
  destruct (spawnMine_post hub w3 h4 w4 E4) as (m1 & ->).
  destruct (spawnMine_returns (fun _ => True) hub w4 I) as (h5 & w5 & E5 & _).
  destruct (spawnMine_post hub w4 h5 w5 E5) as (m2 & ->).
  exists a1, a2, d, m1, m2, w5. split; [|auto].
  unfold spawnChaosStorm, bind. rewrite E1, E2, E3, E4, E5. reflexivity.
Qed.

(** C1. Attack ladder on the listed hands, whatever the random draws:
    a cargo with at least 8 GOLD gives tier 4 and exactly one hazard, a
    Nuke placed at the hub position; the cargo [RED, BLUE, GREEN] gives
    tier 2 with exactly 5 hazards (2 asteroids, 1 seeker, 2 mines) and no
    boost zone; the cargo [BLUE] gives tier 1 with exactly one SeekerDrone;
    the empty cargo gives tier 1 with no hazard and no boost zone. *)
Theorem attack_ladder_determinism (ship : ShipRef) (hub : Vec2.t) (w : World) :
  (forall cargo : list OrbType,
      (8 <= occurrences GOLD cargo)%nat ->
      exists r w', translateCargoToAttack cargo ship hub w = Some (r, w') /\
        AttackResult.tier r = TIER_4 /\
        (exists n, AttackResult.hazards r = [HNuke n] /\ Nuke.position n = hub) /\
        AttackResult.boostZones r = []) /\
  (exists r w', translateCargoToAttack [RED; BLUE; GREEN] ship hub w = Some (r, w') /\
      AttackResult.tier r = TIER_2 /\
      List.length (AttackResult.hazards r) = 5%nat /\
      countType ASTEROID (AttackResult.hazards r) = 2%nat /\
      countType SEEKER (AttackResult.hazards r) = 1%nat /\
      countType MINE (AttackResult.hazards r) = 2%nat /\
      AttackResult.boostZones r = []) /\
  (exists r w', translateCargoToAttack [BLUE] ship hub w = Some (r, w') /\
      AttackResult.tier r = TIER_1 /\
      (exists d, AttackResult.hazards r = [HSeeker d]) /\
      AttackResult.boostZones r = []) /\
  (exists r, translateCargoToAttack [] ship hub w = Some (r, w) /\
      AttackResult.tier r = TIER_1 /\
      AttackResult.hazards r = [] /\
      AttackResult.boostZones r = []).
Proof.
  split; [|split; [|split]].
  - intros cargo Hgold. rewrite (nuke_branch cargo ship hub Hgold).
    destruct (spawnNuke_returns (fun _ => True) hub w I) as (h & w' & E & _).
    destruct (spawnNuke_post hub w h w' E) as (n & -> & Hpos & _).
    eexists. exists w'. split.
    + unfold bind. rewrite E. reflexivity.
    + simpl. split; [reflexivity|]. split; [|reflexivity].
      exists n. split; [reflexivity | exact Hpos].
  - destruct (spawnChaosStorm_spec ship hub w) as (a1 & a2 & d & m1 & m2 & w' & E & _).
    eexists. exists w'. split; [exact E|]. repeat split.
  - destruct (spawnSeeker_returns (fun _ => True) ship hub w I) as (h & w' & E & _).
    destruct (spawnSeeker_post ship hub w h w' E) as (d & -> & _).
    eexists. exists w'. split.
    + change (translateCargoToAttack [BLUE] ship hub) with (spawnTier1Attack BLUE ship hub).
      unfold spawnTier1Attack, bind. rewrite E. reflexivity.
    + simpl. split; [reflexivity|]. split; [|reflexivity]. exists d. reflexivity.
  - eexists. split; [reflexivity|]. repeat split.
Qed.

Lemma attack_ladder_determinism_witness :
  (8 <= occurrences GOLD (repeat GOLD 8))%nat /\
  exists r w',
    translateCargoToAttack (repeat GOLD 8) player hubCenter exampleWorld = Some (r, w') /\
    AttackResult.tier r = TIER_4 /\
    (exists n, AttackResult.hazards r = [HNuke n] /\ Nuke.position n = hubCenter) /\
    AttackResult.boostZones r = [].
Proof.
  split.
  - apply Nat.leb_le. reflexivity.
  - apply (proj1 (attack_ladder_determinism player hubCenter exampleWorld)).
    apply Nat.leb_le. reflexivity.
Defined.

(** Whenever no earlier rung applies (fewer than 8 GOLD, no color with 4),
    one orb of each of RED, BLUE and GREEN selects the chaos storm, however
    many orbs of one color the hand holds. *)
Lemma chaos_before_same_color (cargo : list OrbType) (ship : ShipRef) (hub : Vec2.t) :
  (occurrences GOLD cargo < 8)%nat ->
  (occurrences RED cargo < 4)%nat ->
  (occurrences BLUE cargo < 4)%nat ->
  (occurrences GREEN cargo < 4)%nat ->
  (1 <= occurrences RED cargo)%nat ->
  (1 <= occurrences BLUE cargo)%nat ->
  (1 <= occurrences GREEN cargo)%nat ->
  translateCargoToAttack cargo ship hub = spawnChaosStorm ship hub.
Proof.
  intros Hg Hr Hb Hgr Hr1 Hb1 Hg1.
  unfold translateCargoToAttack, firstColorWith. cbn [find].
  rewrite !countCargo_spec.
  apply Nat.leb_gt in Hg, Hr, Hb, Hgr. rewrite Hg, Hr, Hb, Hgr.
  apply Nat.leb_le in Hr1, Hb1, Hg1. rewrite Hr1, Hb1, Hg1. reflexivity.
Qed.

(** C2. The hand [RED, RED, RED, BLUE, GREEN] resolves to the chaos storm:
    the result is exactly what [spawnChaosStorm] produces, tier 2 with 2
    asteroids, 1 seeker and 2 mines, and never the asteroid wall of the
    3-same-color rung. *)
Theorem chaos_storm_priority (ship : ShipRef) (hub : Vec2.t) (w : World) :
  translateCargoToAttack [RED; RED; RED; BLUE; GREEN] ship hub w =
    spawnChaosStorm ship hub w /\
  exists r w',
    translateCargoToAttack [RED; RED; RED; BLUE; GREEN] ship hub w = Some (r, w') /\
    AttackResult.tier r = TIER_2 /\
    AttackResult.description r = "CHAOS STORM!" /\
    List.length (AttackResult.hazards r) = 5%nat /\
    countType ASTEROID (AttackResult.hazards r) = 2%nat /\
    countType SEEKER (AttackResult.hazards r) = 1%nat /\
    countType MINE (AttackResult.hazards r) = 2%nat /\
    AttackResult.boostZones r = [] /\
    spawnTier2Attack RED ship hub w <> Some (r, w').
Proof.
  split; [reflexivity|].
  destruct (spawnChaosStorm_spec ship hub w) as (a1 & a2 & d & m1 & m2 & w' & E & _).
  eexists. exists w'. split; [exact E|]. repeat split.
  unfold spawnTier2Attack. intro Hwall.
  apply bind_some in Hwall. destruct Hwall as (wall & w1 & _ & Hret).
  unfold ret in Hret. discriminate.
Qed.

(** ** Attack translation: no nuke below 8 GOLD *)





Lemma spawnAsteroidWall_length hub :
  post (spawnAsteroidWall hub) (fun l => List.length l = 8%nat).
Proof.
  unfold spawnAsteroidWall. apply post_bind_any. intro r.
  apply post_bind_any. intros [[startX startY] velocity].
  apply post_forPush_length.
Qed.









(** ** Attack translation: it returns *)

Lemma returnsIf_bind_post {A B : Type} (P : (nat -> R) -> Prop) (c : M A)
    (Q : A -> Prop) (k : A -> M B) :
  returnsIf P c -> post c Q -> (forall a, Q a -> returnsIf P (k a)) ->
  returnsIf P (bind c k).
Proof.
  intros Hc Hq Hk w Hw. destruct (Hc w Hw) as (a & w1 & Ha & Hr1 & Hh1).
  assert (Hw1 : P (randoms w1)) by (rewrite Hr1; exact Hw).
  destruct (Hk a (Hq w a w1 Ha) w1 Hw1) as (b & w2 & Hb & Hr2 & Hh2).
  exists b, w2. split; [|split].
  - unfold bind. rewrite Ha. exact Hb.
  - rewrite Hr2. exact Hr1.
  - rewrite Hh2. exact Hh1.
Qed.

Lemma random_post_inRange (w : World) :
  randomInRange w -> forall r w', random w = Some (r, w') -> 0 <= r < 1.
Proof. intros Hw r w' H. unfold random in H. injection H as <- _. apply Hw. Qed.

Lemma returnsIf_bind_random {B : Type} (k : R -> M B) :
  (forall r, 0 <= r < 1 -> returnsIf inRange (k r)) ->
  returnsIf inRange (bind random k).
Proof.
  intros Hk w Hw. unfold bind, random.
  destruct (Hk (randoms w (cursor w)) (Hw (cursor w))
               (mkWorld (randoms w) (S (cursor w)) (hazardIdCounter w)
                        (orbNextId w) (wormholes w) (trace w)) Hw)
    as (b & w2 & Hb & Hr2 & Hh2).
  exists b, w2. repeat split; assumption.
Qed.

(** [Math.floor(Math.random() * 4)] is one of 0, 1, 2, 3. *)
Lemma floor4_range (r : R) : 0 <= r < 1 -> (0 <= Int_part (r * 4) <= 3)%Z.
Proof.
  intros [H0 H1]. destruct (base_Int_part (r * 4)) as [Hlo Hhi]. split.
  - assert (H : (-1 < Int_part (r * 4))%Z); [|lia].
    apply lt_IZR. lra.
  - assert (H : (Int_part (r * 4) < 4)%Z); [|lia].
    apply lt_IZR. lra.
Qed.

Lemma spawnAsteroidWall_returns hub : returnsIf inRange (spawnAsteroidWall hub).
Proof.
  unfold spawnAsteroidWall. apply returnsIf_bind_random. intros r Hr.
  pose proof (floor4_range r Hr) as Hedge.
  assert (Hbody : forall (sx sy : R) (v : Vec2.t) (e : Z),
    returnsIf inRange
      (forPush 8 0 (fun i =>
         let x := if (Z.rem e 2 =? 0)%Z then sx + INR i * (if (Z.rem e 2 =? 0)%Z then 60 else 60) else sx in
         let y := if (Z.rem e 2 =? 1)%Z then sy + INR i * (if (Z.rem e 2 =? 0)%Z then 60 else 60) else sy in
         match Some v with
         | None => throw
         | Some v0 =>
             a <- Asteroid.new (Vec2.mk x y) (Vec2.clone v0) (Nat.modulo i 3 =? 0)%nat ;;
             ret (HAsteroid a)
         end))).
  { intros sx sy v e. apply returnsIf_forPush. intro j. cbv zeta.
    apply returnsIf_bind; [apply Asteroid_new_returns|]. intro a. apply returnsIf_ret. }
  destruct (Int_part (r * 4)) as [|p|p]; [| |lia].
  - eapply returnsIf_bind_post with
      (Q := fun st => exists sx sy v, st = (sx, sy, Some v)).
    + returns_steps.
    + apply post_bind_any. intro r'. apply post_ret. eauto.
    + intros st (sx & sy & v & ->). apply Hbody.
  - destruct p as [[p|p|]|[p|p|]|]; try lia;
      (eapply returnsIf_bind_post with
         (Q := fun st => exists sx sy v, st = (sx, sy, Some v));
       [ returns_steps
       | apply post_bind_any; intro r'; apply post_ret; eauto
       | intros st (sx & sy & v & ->); apply Hbody ]).
Qed.

Lemma spawnTier1Attack_returns P type ship hub :
  returnsIf P (spawnTier1Attack type ship hub).
Proof.
  destruct type; unfold spawnTier1Attack.
  - apply returnsIf_bind; [apply returnsIf_forPush; intro; apply spawnAsteroid_returns|].
    intro. apply returnsIf_ret.
  - apply returnsIf_bind; [apply spawnSeeker_returns|]. intro. apply returnsIf_ret.
  - apply returnsIf_bind; [apply SpeedBoostZone_new_returns|]. intro. apply returnsIf_ret.
  - apply returnsIf_ret.
Qed.

Lemma spawnEnhancedAttack_returns P type ship hub :
  returnsIf P (spawnEnhancedAttack type ship hub).
Proof.
  destruct type; unfold spawnEnhancedAttack.
  - apply returnsIf_bind; [apply returnsIf_forPush; intro; apply spawnAsteroid_returns|].
    intro.
    apply returnsIf_bind; [apply returnsIf_forPush; intro; apply spawnAsteroid_returns|].
    intro. apply returnsIf_ret.
  - apply returnsIf_bind; [apply returnsIf_forPush; intro; apply spawnSeeker_returns|].
    intro. apply returnsIf_ret.
  - apply returnsIf_bind; [apply SpeedBoostZone_new_returns|]. intro. apply returnsIf_ret.
  - apply returnsIf_ret.
Qed.

Lemma spawnTier2Attack_returns type ship hub :
  returnsIf inRange (spawnTier2Attack type ship hub).
Proof.
  destruct type; unfold spawnTier2Attack.
  - apply returnsIf_bind; [apply spawnAsteroidWall_returns|]. intro. apply returnsIf_ret.
  - apply returnsIf_bind; [apply returnsIf_forPush; intro; apply spawnSeeker_returns|].
    intro. apply returnsIf_ret.
  - apply returnsIf_bind; [apply returnsIf_forPush; intro; apply spawnMine_returns|].
    intro. apply returnsIf_ret.
  - apply returnsIf_ret.
Qed.

Lemma spawnMegaAttack_returns P type ship hub :
  returnsIf P (spawnMegaAttack type ship hub).
Proof.
  destruct type; unfold spawnMegaAttack.
  - apply returnsIf_bind; [apply returnsIf_forPush; intro; apply spawnAsteroid_returns|].
    intro.
    apply returnsIf_bind; [apply returnsIf_forPush; intro; apply spawnAsteroid_returns|].
    intro. apply returnsIf_ret.
  - apply returnsIf_bind; [apply returnsIf_forPush; intro; apply spawnSeeker_returns|].
    intro. apply returnsIf_ret.
  - apply returnsIf_bind; [apply returnsIf_forPush; intro; apply spawnMine_returns|].
    intro.
    apply returnsIf_bind; [apply SpeedBoostZone_new_returns|]. intro. apply returnsIf_ret.
  - apply returnsIf_ret.
Qed.

Lemma spawnChaosStorm_returns P ship hub : returnsIf P (spawnChaosStorm ship hub).
Proof.
  unfold spawnChaosStorm.
  do 2 (apply returnsIf_bind; [apply spawnAsteroid_returns|]; intro).
  apply returnsIf_bind; [apply spawnSeeker_returns|]. intro.
  do 2 (apply returnsIf_bind; [apply spawnMine_returns|]; intro).
  apply returnsIf_ret.
Qed.

(** With a random source in [0, 1), the translation returns a result for
    every hand. *)
Lemma translateCargoToAttack_returns (cargo : list OrbType) (ship : ShipRef) (hub : Vec2.t) :
  returnsIf inRange (translateCargoToAttack cargo ship hub).
Proof.
  unfold translateCargoToAttack.
  destruct (8 <=? countOf (countCargo cargo) GOLD)%nat.
  { apply returnsIf_bind; [apply spawnNuke_returns|]. intro. apply returnsIf_ret. }
  destruct (firstColorWith (countCargo cargo) 4); [apply spawnMegaAttack_returns|].
  match goal with |- context [if ?c then _ else _] => destruct c end;
    [apply spawnChaosStorm_returns|].
  destruct (firstColorWith (countCargo cargo) 3); [apply spawnTier2Attack_returns|].
  destruct (firstColorWith (countCargo cargo) 2); [apply spawnEnhancedAttack_returns|].
  repeat match goal with |- context [if ?c then _ else _] => destruct c end;
    try apply spawnTier1Attack_returns.
  apply returnsIf_ret.
Qed.

(** ** Banking *)




Lemma Rleb_true (a b : R) : Rleb a b = true <-> a <= b.
Proof. unfold Rleb. destruct (Rle_dec a b); split; intro; try assumption; try reflexivity; try discriminate. contradiction. Qed.

Lemma Rleb_false (a b : R) : Rleb a b = false <-> b < a.
Proof.
  unfold Rleb. destruct (Rle_dec a b); split; intro H; try discriminate; try reflexivity; lra.
Qed.

Lemma Rltb_true (a b : R) : Rltb a b = true <-> a < b.
Proof. unfold Rltb. destruct (Rlt_dec a b); split; intro; try assumption; try reflexivity; try discriminate. contradiction. Qed.

Lemma Rltb_false (a b : R) : Rltb a b = false <-> b <= a.
Proof.
  unfold Rltb. destruct (Rlt_dec a b); split; intro H; try discriminate; try reflexivity; lra.
Qed.

Lemma isCargoEmpty_true (s : Ship.t) :
  Ship.isCargoEmpty s = true <-> Forall (fun slot => slot = None) (Ship.cargo s).
Proof.
  unfold Ship.isCargoEmpty, Ship.getCargoCount. rewrite Nat.eqb_eq.
  induction (Ship.cargo s) as [|[o|] c IH]; simpl.
  - split; [constructor | reflexivity].
  - split; [discriminate|]. intro H. inversion H. discriminate.
  - rewrite IH. split.
    + intro H. constructor; [reflexivity | exact H].
    + intro H. inversion H. assumption.
Qed.

Lemma bankOrbs_noop (g : GridState.t) (w : World) (hub : Wormhole.t) :
  nth_error (wormholes w) (GridState.wormhole g) = Some hub ->
  Wormhole.isInBankingZone hub (Ship.position (GridState.ship g))
    && negb (Ship.isCargoEmpty (GridState.ship g)) = false ->
  GridState.bankOrbs g w = Some (g, w).
Proof.
  intros Hhub Hguard. unfold GridState.bankOrbs, bind, readWormhole.
  rewrite Hhub, Hguard. reflexivity.
Qed.

(** C9. Banking guard.  When the ship is farther from the grid's hub than
    the banking-zone radius, or every cargo slot is empty, [bankOrbs()]
    returns with the grid and the world exactly as they were: the ship's
    cargo, the hazards, the boost zones, [lastAttackResult],
    [attackMessageTimer] and [screenShake] are unchanged, no random number
    or identifier is consumed and the trace of callback invocations gains
    no bank event. *)
Theorem bankOrbs_guard (g : GridState.t) (w : World) (hub : Wormhole.t) :
  nth_error (wormholes w) (GridState.wormhole g) = Some hub ->
  WORMHOLE_BANKING_RADIUS <
    Vec2.length (Vec2.sub (Ship.position (GridState.ship g)) (Wormhole.position hub))
  \/ Forall (fun slot => slot = None) (Ship.cargo (GridState.ship g)) ->
  GridState.bankOrbs g w = Some (g, w).
Proof.
  intros Hhub Hout. apply (bankOrbs_noop g w hub Hhub).
  destruct Hout as [Hfar|Hempty].
  - unfold Wormhole.isInBankingZone.
    apply Rleb_false in Hfar. rewrite Hfar. reflexivity.
  - apply isCargoEmpty_true in Hempty. rewrite Hempty. apply andb_false_r.
Qed.

Lemma length_of_square (v : Vec2.t) (d : R) :
  0 <= d -> Vec2.x v * Vec2.x v + Vec2.y v * Vec2.y v = d * d -> Vec2.length v = d.
Proof. intros Hd H. unfold Vec2.length. rewrite H. apply sqrt_square. exact Hd. Qed.

Lemma bankOrbs_guard_witness :
  let far := exampleGrid (Ship.set_cargo [Some RED; None; Some GOLD; None]
                                         (Ship.new 600 600 PLAYER_COLOR)) in
  let empty := exampleGrid (Ship.new 600 400 PLAYER_COLOR) in
  GridState.bankOrbs far exampleWorld = Some (far, exampleWorld) /\
  GridState.bankOrbs empty exampleWorld = Some (empty, exampleWorld).
Proof.
  intros far empty. split.
  - apply (bankOrbs_guard far exampleWorld Wormhole.new eq_refl). left.
    rewrite (length_of_square _ 200).
    + unfold WORMHOLE_BANKING_RADIUS. lra.
    + lra.
    + simpl. unfold WORLD_WIDTH, WORLD_HEIGHT. lra.
  - apply (bankOrbs_guard empty exampleWorld Wormhole.new eq_refl). right.
    repeat constructor.
Defined.

(** ** Distances *)

Lemma lengthSq_nonneg (v : Vec2.t) : 0 <= Vec2.x v * Vec2.x v + Vec2.y v * Vec2.y v.
Proof. nra. Qed.

Lemma length_nonneg (v : Vec2.t) : 0 <= Vec2.length v.
Proof. apply sqrt_pos. Qed.

Lemma length_le_iff (v : Vec2.t) (d : R) :
  0 <= d -> (Vec2.length v <= d <-> Vec2.lengthSq v <= d * d).
Proof.
  intro Hd. unfold Vec2.length, Vec2.lengthSq.
  pose proof (lengthSq_nonneg v) as Hv.
  rewrite <- (sqrt_square d Hd) at 1. split.
  - intro H. apply sqrt_le_0 in H; [exact H | exact Hv | nra].
  - intro H. apply sqrt_le_1; [exact Hv | nra | exact H].
Qed.

Lemma length_lt_iff (v : Vec2.t) (d : R) :
  0 <= d -> (Vec2.length v < d <-> Vec2.lengthSq v < d * d).
Proof.
  intro Hd. unfold Vec2.length, Vec2.lengthSq.
  pose proof (lengthSq_nonneg v) as Hv.
  rewrite <- (sqrt_square d Hd) at 1. split.
  - intro H. apply sqrt_lt_0_alt in H. exact H.
  - intro H. apply sqrt_lt_1; [exact Hv | nra | exact H].
Qed.

Lemma length_sub_sym (a b : Vec2.t) :
  Vec2.length (Vec2.sub a b) = Vec2.length (Vec2.sub b a).
Proof. unfold Vec2.length, Vec2.sub. simpl. f_equal. ring. Qed.

(** ** Nuke *)

Lemma freshNuke_new :
  exists w', Nuke.new hubCenter exampleWorld = Some (freshNuke, w').
Proof.
  exists (mkWorld (randoms exampleWorld) 0 1%Z 0%Z [Wormhole.new] []). reflexivity.
Qed.

Lemma Nuke_update_safeZoneRadius (n : Nuke.t) :
  Nuke.safeZoneRadius (Nuke.update n) = Nuke.safeZoneRadius n /\
  Nuke.position (Nuke.update n) = Nuke.position n.
Proof.
  unfold Nuke.update. destruct (Nuke.active n); simpl; [|split; reflexivity].
  destruct (Nuke.detonated n); simpl; [split; reflexivity|].
  destruct (Nuke.countdownTime n - 1 <=? 0)%Z; split; reflexivity.
Qed.

(** Every nuke the program creates keeps a safe-zone radius of 50 around
    the position it was created at. *)
Lemma nuke_safeZoneRadius_50 (hub : Vec2.t) (w w' : World) (n0 : Nuke.t) (k : nat) :
  Nuke.new hub w = Some (n0, w') ->
  Nuke.safeZoneRadius (Nat.iter k Nuke.update n0) = 50 /\
  Nuke.position (Nat.iter k Nuke.update n0) = hub.
Proof.
  intro Hnew.
  assert (H0 : Nuke.safeZoneRadius n0 = 50 /\ Nuke.position n0 = hub).
  { unfold Nuke.new, bind, nextHazardId, ret in Hnew.
    injection Hnew as <- _. split; reflexivity. }
  clear Hnew. induction k as [|k [IHr IHp]].
  - exact H0.
  - change (Nat.iter (S k) Nuke.update n0) with (Nuke.update (Nat.iter k Nuke.update n0)).
    destruct (Nuke_update_safeZoneRadius (Nat.iter k Nuke.update n0)) as [Hr Hp].
    rewrite Hr, Hp. split; assumption.
Qed.

(** C4 (as the code has it). For every detonated, active nuke and every
    ship position: [collidesWith] returns false whenever the ship is within
    the nuke's safe-zone radius of the nuke's position, or strictly less
    than 80 units from one of the 4 world corners; otherwise it returns true
    exactly when the distance between nuke and ship is at most the current
    blast radius plus the ship radius. *)
Theorem nuke_collidesWith_safe_zones (n : Nuke.t) (p : Vec2.t) (shipRadius : R)
    (Hactive : Nuke.active n = true) (Hdetonated : Nuke.detonated n = true) :
  (Vec2.length (Vec2.sub p (Nuke.position n)) <= Nuke.safeZoneRadius n ->
     Nuke.collidesWith n p shipRadius = false) /\
  ((exists corner, In corner Nuke.corners /\ Vec2.length (Vec2.sub p corner) < 80) ->
     Nuke.collidesWith n p shipRadius = false) /\
  (Nuke.safeZoneRadius n < Vec2.length (Vec2.sub p (Nuke.position n)) ->
   (forall corner, In corner Nuke.corners -> 80 <= Vec2.length (Vec2.sub p corner)) ->
     (Nuke.collidesWith n p shipRadius = true <->
      Vec2.length (Vec2.sub (Nuke.position n) p) <= Nuke.radius n + shipRadius)).
Proof.
  unfold Nuke.collidesWith. rewrite Hactive, Hdetonated. simpl negb. simpl orb.
  cbv zeta. split; [|split].
  - intro Hsafe. apply Rleb_true in Hsafe. rewrite Hsafe. reflexivity.
  - intros (corner & Hin & Hnear).
    destruct (Rleb _ (Nuke.safeZoneRadius n)); [reflexivity|].
    assert (Hex : existsb (fun c => Rltb (Vec2.length (Vec2.sub p c)) 80) Nuke.corners = true).
    { apply existsb_exists. exists corner. split; [exact Hin|].
      apply Rltb_true. exact Hnear. }
    rewrite Hex. reflexivity.
  - intros Hout Hcorners.
    apply Rleb_false in Hout. rewrite Hout.
    assert (Hex : existsb (fun c => Rltb (Vec2.length (Vec2.sub p c)) 80) Nuke.corners = false).
    { apply not_true_is_false. intro H. apply existsb_exists in H.
      destruct H as (corner & Hin & Hlt). apply Rltb_true in Hlt.
      specialize (Hcorners corner Hin). lra. }
    rewrite Hex. apply Rleb_true.
Qed.

Lemma Rleb_length_true (v : Vec2.t) (d : R) :
  0 <= d -> Vec2.lengthSq v <= d * d -> Rleb (Vec2.length v) d = true.
Proof. intros Hd H. apply Rleb_true. apply length_le_iff; assumption. Qed.

Lemma Rleb_length_false (v : Vec2.t) (d : R) :
  0 <= d -> d * d < Vec2.lengthSq v -> Rleb (Vec2.length v) d = false.
Proof.
  intros Hd H. apply Rleb_false. apply Rnot_le_lt. intro Hle.
  apply length_le_iff in Hle; [lra | exact Hd].
Qed.

Lemma Rltb_length_true (v : Vec2.t) (d : R) :
  0 <= d -> Vec2.lengthSq v < d * d -> Rltb (Vec2.length v) d = true.
Proof. intros Hd H. apply Rltb_true. apply length_lt_iff; assumption. Qed.

Lemma Rltb_length_false (v : Vec2.t) (d : R) :
  0 <= d -> d * d <= Vec2.lengthSq v -> Rltb (Vec2.length v) d = false.
Proof.
  intros Hd H. apply Rltb_false. apply Rnot_lt_le. intro Hlt.
  apply length_lt_iff in Hlt; [lra | exact Hd].
Qed.

(** Evaluates the squared length of a vector of numerals. *)
Ltac numerals :=
  unfold Vec2.lengthSq, Vec2.sub, hubCenter, WORLD_WIDTH, WORLD_HEIGHT,
         WORMHOLE_RADIUS, WORMHOLE_BANKING_RADIUS, SHIP_COLLISION_RADIUS;
  cbn [Vec2.x Vec2.y]; lra.

Lemma nuke_after_380 :
  Nat.iter 380 Nuke.update freshNuke =
  Nuke.mk 0%Z hubCenter Vec2.zero (375 * Rmin (IZR 80 / IZR 120 * 1.5) 1) 375
          40%Z 420%Z 0%Z true 80%Z 120%Z true 50.
Proof. reflexivity. Qed.

(** C4, counterexample: 380 ticks after it was placed at the hub, the nuke
    is detonated, active and fully expanded; a ship 60 units from the hub,
    inside the hub core radius of 80, is hit. *)
Lemma nuke_safe_zone_counterexample :
  let n := Nat.iter 380 Nuke.update freshNuke in
  let p := Vec2.mk 660 400 in
  Nuke.active n = true /\ Nuke.detonated n = true /\
  Nuke.position n = hubCenter /\
  Vec2.length (Vec2.sub p (Nuke.position n)) <= WORMHOLE_RADIUS /\
  Nuke.collidesWith n p SHIP_COLLISION_RADIUS = true.
Proof.
  intros n p. subst n. rewrite nuke_after_380.
  split; [reflexivity|]. split; [reflexivity|]. split; [reflexivity|].
  cbn [Nuke.position]. split.
  - apply length_le_iff; [unfold WORMHOLE_RADIUS; lra | subst p; numerals].
  - unfold Nuke.collidesWith.
    cbn [Nuke.active Nuke.detonated Nuke.position Nuke.safeZoneRadius Nuke.radius
         negb orb existsb Nuke.corners].
    rewrite Rleb_length_false; [|lra|subst p; numerals].
    repeat (rewrite Rltb_length_false; [|lra|subst p; numerals]).
    cbn [orb].
    apply Rleb_length_true.
    + assert (H : Rmin (IZR 80 / IZR 120 * 1.5) 1 = 1).
      { unfold Rmin. destruct (Rle_dec (IZR 80 / IZR 120 * 1.5) 1); lra. }
      rewrite H. unfold SHIP_COLLISION_RADIUS. lra.
    + assert (H : Rmin (IZR 80 / IZR 120 * 1.5) 1 = 1).
      { unfold Rmin. destruct (Rle_dec (IZR 80 / IZR 120 * 1.5) 1); lra. }
      rewrite H. subst p. numerals.
Qed.

Lemma nuke_collidesWith_safe_zones_witness :
  let n := Nat.iter 380 Nuke.update freshNuke in
  Nuke.active n = true /\ Nuke.detonated n = true /\
  Nuke.collidesWith n (Vec2.mk 630 440) SHIP_COLLISION_RADIUS = false /\
  Nuke.collidesWith n (Vec2.mk 1160 30) SHIP_COLLISION_RADIUS = false /\
  Nuke.collidesWith n (Vec2.mk 660 400) SHIP_COLLISION_RADIUS = true.
Proof.
  intro n.
  assert (Ha : Nuke.active n = true) by reflexivity.
  assert (Hd : Nuke.detonated n = true) by reflexivity.
  split; [exact Ha|]. split; [exact Hd|].
  assert (Hn : n = Nuke.mk 0%Z hubCenter Vec2.zero (375 * Rmin (IZR 80 / IZR 120 * 1.5) 1)
                           375 40%Z 420%Z 0%Z true 80%Z 120%Z true 50)
    by exact nuke_after_380.
  assert (Hmin : Rmin (IZR 80 / IZR 120 * 1.5) 1 = 1).
  { unfold Rmin. destruct (Rle_dec (IZR 80 / IZR 120 * 1.5) 1); lra. }
  split; [|split].
  - apply (proj1 (nuke_collidesWith_safe_zones n (Vec2.mk 630 440) SHIP_COLLISION_RADIUS Ha Hd)).
    rewrite Hn. cbn [Nuke.position Nuke.safeZoneRadius].
    apply length_le_iff; [lra | numerals].
  - apply (proj1 (proj2 (nuke_collidesWith_safe_zones n (Vec2.mk 1160 30)
                           SHIP_COLLISION_RADIUS Ha Hd))).
    exists (Vec2.mk WORLD_WIDTH 0). split.
    + right. left. reflexivity.
    + apply length_lt_iff; [lra | numerals].
  - apply (proj2 (proj2 (nuke_collidesWith_safe_zones n (Vec2.mk 660 400)
                           SHIP_COLLISION_RADIUS Ha Hd))).
    + rewrite Hn. cbn [Nuke.position Nuke.safeZoneRadius].
      apply Rnot_le_lt. intro H. apply length_le_iff in H; [revert H; numerals | lra].
    + intros corner Hin. apply Rnot_lt_le. intro H.
      apply length_lt_iff in H; [|lra].
      destruct Hin as [<-|[<-|[<-|[<-|[]]]]]; revert H; numerals.
    + rewrite Hn. cbn [Nuke.position Nuke.radius]. rewrite Hmin.
      apply length_le_iff; [unfold SHIP_COLLISION_RADIUS; lra | numerals].
Defined.

(** ** Ship: motion and toroidal wrap *)

Lemma abs_x_le_length (v : Vec2.t) : Rabs (Vec2.x v) <= Vec2.length v.
Proof.
  unfold Vec2.length. rewrite <- sqrt_Rsqr_abs. apply sqrt_le_1_alt.
  unfold Rsqr. nra.
Qed.

Lemma abs_y_le_length (v : Vec2.t) : Rabs (Vec2.y v) <= Vec2.length v.
Proof.
  unfold Vec2.length. rewrite <- sqrt_Rsqr_abs. apply sqrt_le_1_alt.
  unfold Rsqr. nra.
Qed.

Lemma abs_le_between (a m : R) : Rabs a <= m -> - m <= a <= m.
Proof. unfold Rabs. destruct (Rcase_abs a); lra. Qed.

Lemma abs_scaled (a len m : R) :
  Rabs a <= len -> 0 <= m -> m < len -> Rabs (a / len * m) <= m.
Proof.
  intros Ha Hm Hlen.
  assert (Hpos : 0 < len) by lra.
  unfold Rdiv. rewrite Rabs_mult, Rabs_mult.
  rewrite (Rabs_right m) by lra.
  rewrite (Rabs_right (/ len)) by (left; apply Rinv_0_lt_compat; exact Hpos).
  assert (H1 : Rabs a * / len <= 1).
  { apply Rmult_le_reg_r with len; [exact Hpos|].
    rewrite Rmult_assoc, Rinv_l by lra. lra. }
  nra.
Qed.

(** The speed cap: after [clamp], no component exceeds the maximum. *)
Lemma clamp_bound (v : Vec2.t) (m : R) :
  0 <= m ->
  Rabs (Vec2.x (Vec2.clamp v m)) <= m /\ Rabs (Vec2.y (Vec2.clamp v m)) <= m.
Proof.
  intro Hm. unfold Vec2.clamp.
  pose proof (abs_x_le_length v) as Hx. pose proof (abs_y_le_length v) as Hy.
  destruct (Rltb m (Vec2.length v)) eqn:Hlt.
  - apply Rltb_true in Hlt. unfold Vec2.normalize, Reqb.
    destruct (Req_dec_T (Vec2.length v) 0) as [H0|H0]; [lra|].
    simpl. split; apply abs_scaled; assumption.
  - apply Rltb_false in Hlt. simpl. split; lra.
Qed.

Lemma wrapPosition_position (s : Ship.t) :
  Ship.position (Ship.wrapPosition s) =
  Vec2.mk (wrapAxis WORLD_WIDTH (Vec2.x (Ship.position s)))
          (wrapAxis WORLD_HEIGHT (Vec2.y (Ship.position s))).
Proof.
  destruct s as [[px py] v a pp pa th rl rr c l tm d sb col].
  unfold Ship.wrapPosition, wrapAxis. cbn [Ship.position Vec2.x Vec2.y].
  destruct (Rltb px 0); [|destruct (Rltb WORLD_WIDTH px)];
    cbn; (destruct (Rltb py 0); [|destruct (Rltb WORLD_HEIGHT py)]); reflexivity.
Qed.

(** Where [update] puts a living ship: the old position plus the capped and
    dragged velocity, wrapped on each axis. *)
Lemma update_position (s : Ship.t) :
  Ship.isDead s = false ->
  let v := Vec2.mul (Vec2.clamp (thrusted s) (SHIP_MAX_SPEED * Ship.speedBoost s)) SHIP_DRAG in
  Ship.position (Ship.update s) =
  Vec2.mk (wrapAxis WORLD_WIDTH (Vec2.x (Ship.position s) + Vec2.x v))
          (wrapAxis WORLD_HEIGHT (Vec2.y (Ship.position s) + Vec2.y v)).
Proof.
  intros Halive v. rewrite (update_unfold s Halive).
  assert (Hpos : forall (b : bool) (k : Z) (u : Ship.t),
            Ship.position (Ship.set_speedBoost 1.0
              (if b then Ship.set_invulnerabilityTimer k u else u)) = Ship.position u).
  { intros [|] k u; reflexivity. }
  rewrite Hpos, wrapPosition_position. reflexivity.
Qed.

Lemma wrapAxis_bounds (size x : R) :
  0 <= size -> - size <= x <= 2 * size -> 0 <= wrapAxis size x <= size.
Proof.
  intros Hs Hx. unfold wrapAxis.
  destruct (Rltb x 0) eqn:H0.
  - apply Rltb_true in H0. lra.
  - apply Rltb_false in H0. destruct (Rltb size x) eqn:H1.
    + apply Rltb_true in H1. lra.
    + apply Rltb_false in H1. lra.
Qed.

(** C5 (as the code has it). For every living ship whose position lies in
    the world, 0 <= x <= WORLD_WIDTH and 0 <= y <= WORLD_HEIGHT, and whose
    capped speed does not exceed the world height (a boost of up to 160;
    the program only ever sets 1, 1.5 or 2), whatever its velocity and
    controls: after [update()] the position again satisfies
    0 <= x <= WORLD_WIDTH and 0 <= y <= WORLD_HEIGHT, each coordinate being
    the unwrapped one, or that shifted by one world size. *)
Theorem ship_update_wrap (s : Ship.t) :
  Ship.isDead s = false ->
  0 <= Vec2.x (Ship.position s) <= WORLD_WIDTH ->
  0 <= Vec2.y (Ship.position s) <= WORLD_HEIGHT ->
  0 <= Ship.speedBoost s ->
  SHIP_MAX_SPEED * Ship.speedBoost s <= WORLD_HEIGHT ->
  let v := Vec2.mul (Vec2.clamp (thrusted s) (SHIP_MAX_SPEED * Ship.speedBoost s)) SHIP_DRAG in
  let x0 := Vec2.x (Ship.position s) + Vec2.x v in
  let y0 := Vec2.y (Ship.position s) + Vec2.y v in
  let x' := Vec2.x (Ship.position (Ship.update s)) in
  let y' := Vec2.y (Ship.position (Ship.update s)) in
  (0 <= x' <= WORLD_WIDTH /\ 0 <= y' <= WORLD_HEIGHT) /\
  (x' = x0 \/ x' = x0 + WORLD_WIDTH \/ x' = x0 - WORLD_WIDTH) /\
  (y' = y0 \/ y' = y0 + WORLD_HEIGHT \/ y' = y0 - WORLD_HEIGHT).
Proof.
  intros Halive Hx Hy Hb Hcap v x0 y0 x' y'.
  subst x' y'. rewrite (update_position s Halive). fold v. cbn [Vec2.x Vec2.y]. fold x0 y0.
  assert (Hm : 0 <= SHIP_MAX_SPEED * Ship.speedBoost s) by (unfold SHIP_MAX_SPEED; lra).
  destruct (clamp_bound (thrusted s) (SHIP_MAX_SPEED * Ship.speedBoost s) Hm) as [Hcx Hcy].
  assert (Hvx : Rabs (Vec2.x v) <= WORLD_HEIGHT).
  { subst v. unfold Vec2.mul. cbn [Vec2.x]. rewrite Rabs_mult.
    unfold SHIP_DRAG at 1. rewrite (Rabs_right 0.992) by lra.
    unfold WORLD_HEIGHT in *. nra. }
  assert (Hvy : Rabs (Vec2.y v) <= WORLD_HEIGHT).
  { subst v. unfold Vec2.mul. cbn [Vec2.y]. rewrite Rabs_mult.
    unfold SHIP_DRAG at 1. rewrite (Rabs_right 0.992) by lra.
    unfold WORLD_HEIGHT in *. nra. }
  apply abs_le_between in Hvx, Hvy.
  split; [split|split].
  - apply wrapAxis_bounds; unfold WORLD_WIDTH, WORLD_HEIGHT in *; subst x0; lra.
  - apply wrapAxis_bounds; unfold WORLD_WIDTH, WORLD_HEIGHT in *; subst y0; lra.
  - unfold wrapAxis. destruct (Rltb x0 0); [|destruct (Rltb WORLD_WIDTH x0)]; auto.
  - unfold wrapAxis. destruct (Rltb y0 0); [|destruct (Rltb WORLD_HEIGHT y0)]; auto.
Qed.

Lemma clamp_zero (m : R) : 0 <= m -> Vec2.clamp Vec2.zero m = Vec2.mk 0 0.
Proof.
  intro Hm. unfold Vec2.clamp.
  assert (H0 : Vec2.length Vec2.zero = 0).
  { apply length_of_square; [lra | simpl; lra]. }
  rewrite H0. rewrite (proj2 (Rltb_false m 0)) by exact Hm. reflexivity.
Qed.

(** C5, counterexamples.  A living ship at rest on the right edge,
    x = WORLD_WIDTH, stays there: [wrapPosition] wraps only when x exceeds
    the width, so x < WORLD_WIDTH fails.  A living ship at rest far outside
    the world, x = 5000, is shifted by one width only and stays outside. *)
Lemma ship_wrap_counterexample :
  let onEdge := Ship.new 1200 400 PLAYER_COLOR in
  let outside := Ship.new 5000 400 PLAYER_COLOR in
  Ship.isDead onEdge = false /\ Ship.velocity onEdge = Vec2.zero /\
  Vec2.x (Ship.position (Ship.update onEdge)) = WORLD_WIDTH /\
  ~ (0 <= Vec2.x (Ship.position (Ship.update onEdge)) < WORLD_WIDTH) /\
  Ship.isDead outside = false /\ Ship.velocity outside = Vec2.zero /\
  Vec2.x (Ship.position (Ship.update outside)) = 3800 /\
  ~ (0 <= Vec2.x (Ship.position (Ship.update outside)) < WORLD_WIDTH).
Proof.
  intros onEdge outside.
  assert (Hclamp : Vec2.clamp Vec2.zero (SHIP_MAX_SPEED * 1.0) = Vec2.mk 0 0).
  { apply clamp_zero. unfold SHIP_MAX_SPEED. lra. }
  assert (H1 : Vec2.x (Ship.position (Ship.update onEdge)) = WORLD_WIDTH).
  { rewrite (update_position onEdge eq_refl).
    unfold thrusted. cbn [onEdge Ship.new Ship.thrusting Ship.velocity Ship.speedBoost
                          Ship.position Vec2.x].
    rewrite Hclamp. unfold Vec2.mul. cbn [Vec2.x]. unfold wrapAxis.
    rewrite (proj2 (Rltb_false _ _)) by (unfold SHIP_DRAG; lra).
    rewrite (proj2 (Rltb_false _ _)) by (unfold SHIP_DRAG, WORLD_WIDTH; lra).
    unfold WORLD_WIDTH. lra. }
  assert (H2 : Vec2.x (Ship.position (Ship.update outside)) = 3800).
  { rewrite (update_position outside eq_refl).
    unfold thrusted. cbn [outside Ship.new Ship.thrusting Ship.velocity Ship.speedBoost
                          Ship.position Vec2.x].
    rewrite Hclamp. unfold Vec2.mul. cbn [Vec2.x]. unfold wrapAxis.
    rewrite (proj2 (Rltb_false _ _)) by (unfold SHIP_DRAG; lra).
    rewrite (proj2 (Rltb_true _ _)) by (unfold SHIP_DRAG, WORLD_WIDTH; lra).
    unfold WORLD_WIDTH. lra. }
  repeat split; try reflexivity; try assumption.
  - rewrite H1. lra.
  - rewrite H2. unfold WORLD_WIDTH. lra.
Qed.

Lemma ship_update_wrap_witness :
  let s := Ship.mk (Vec2.mk 1199 5) (Vec2.mk 4 (-30)) 0 (Vec2.mk 1195 35) 0
                   true false true [None; None; None; None] 3%Z 0%Z false 1.5
                   PLAYER_COLOR in
  Ship.isDead s = false /\
  0 <= Vec2.x (Ship.position (Ship.update s)) <= WORLD_WIDTH /\
  0 <= Vec2.y (Ship.position (Ship.update s)) <= WORLD_HEIGHT.
Proof.
  intro s. split; [reflexivity|].
  apply (ship_update_wrap s).
  - reflexivity.
  - cbn. unfold WORLD_WIDTH. lra.
  - cbn. unfold WORLD_HEIGHT. lra.
  - cbn. lra.
  - cbn. unfold SHIP_MAX_SPEED, WORLD_HEIGHT. lra.
Defined.

(** ** SeekerDrone *)

Lemma seeker_update_without_target (ships : ShipRef -> Ship.t) (d : SeekerDrone.t) :
  SeekerDrone.targetShip d = None -> SeekerDrone.update ships d = d.
Proof.
  intro H. unfold SeekerDrone.update. rewrite H.
  destruct (negb (SeekerDrone.active d)); reflexivity.
Qed.

Lemma seeker_update_with_target (ships : ShipRef -> Ship.t) (d : SeekerDrone.t)
    (ref : ShipRef) :
  SeekerDrone.active d = true -> SeekerDrone.targetShip d = Some ref ->
  SeekerDrone.lifetime (SeekerDrone.update ships d) = (SeekerDrone.lifetime d - 1)%Z /\
  SeekerDrone.active (SeekerDrone.update ships d) = true /\
  SeekerDrone.targetShip (SeekerDrone.update ships d) = Some ref.
Proof.
  intros Ha Ht. unfold SeekerDrone.update. rewrite Ha, Ht. simpl negb. cbv iota zeta.
  cbn [SeekerDrone.lifetime SeekerDrone.active SeekerDrone.targetShip].
  repeat split; assumption.
Qed.

(** A drone with a target, left active, loses one tick of lifetime per
    update, wherever the ships are at each tick, and so is expired after
    as many updates as its lifetime. *)
Lemma seeker_with_target_expires (envs : list (ShipRef -> Ship.t)) (d : SeekerDrone.t)
    (ref : ShipRef) :
  SeekerDrone.active d = true -> SeekerDrone.targetShip d = Some ref ->
  let d' := fold_left (fun d0 ships => SeekerDrone.update ships d0) envs d in
  SeekerDrone.lifetime d' = (SeekerDrone.lifetime d - Z.of_nat (List.length envs))%Z /\
  ((SeekerDrone.lifetime d <= Z.of_nat (List.length envs))%Z ->
     SeekerDrone.isExpired d' = true).
Proof.
  intros Ha Ht d'.
  assert (H : SeekerDrone.lifetime d' =
              (SeekerDrone.lifetime d - Z.of_nat (List.length envs))%Z).
  { subst d'. revert d Ha Ht. induction envs as [|ships envs IH]; intros d Ha Ht.
    - simpl. lia.
    - destruct (seeker_update_with_target ships d ref Ha Ht) as (Hl & Ha' & Ht').
      cbn [fold_left]. rewrite (IH _ Ha' Ht'), Hl. cbn [List.length]. lia. }
  split; [exact H|]. intro Hle. unfold SeekerDrone.isExpired. rewrite H.
  apply Z.leb_le. lia.
Qed.

(** A drone without a target is left exactly as it is by any number of
    updates. *)
Lemma seeker_untargeted_fixed (envs : list (ShipRef -> Ship.t)) (d : SeekerDrone.t) :
  SeekerDrone.targetShip d = None ->
  fold_left (fun d0 ships => SeekerDrone.update ships d0) envs d = d.
Proof.
  intro Hd. induction envs as [|ships envs IH]; [reflexivity|].
  cbn [fold_left]. rewrite (seeker_update_without_target ships d Hd). exact IH.
Qed.

Lemma SeekerDrone_new_shape (p : Vec2.t) (w w' : World) (d : SeekerDrone.t) :
  SeekerDrone.new p w = Some (d, w') ->
  d = SeekerDrone.mk (hazardIdCounter w) p Vec2.zero 12 1200%Z 1200%Z true
                     (randoms w (cursor w) * PI * 2) (SHIP_MAX_SPEED * 0.6) None.
Proof.
  unfold SeekerDrone.new, bind, nextHazardId, random, ret. cbv zeta.
  intro H. injection H as <- _. reflexivity.
Qed.

(** C6. Seeker expiry.  The drone that [new SeekerDrone(p)] creates has a
    maximal lifetime of 1200 ticks.  Once a target ship has been assigned
    to it, every update while active takes one tick off its lifetime,
    wherever the ships are at each tick, and never deactivates it, so it
    is expired exactly from the 1200th update on.  As long as no target is
    assigned the drone is inert: it rests with zero velocity, [update()]
    leaves it exactly as it is, and it does not expire. *)
Theorem seeker_expires_once_targeted (p : Vec2.t) (w w' : World) (d : SeekerDrone.t)
    (ref : ShipRef) (envs : list (ShipRef -> Ship.t)) :
  SeekerDrone.new p w = Some (d, w') ->
  let run := fold_left (fun d0 ships => SeekerDrone.update ships d0) envs in
  let k := List.length envs in
  SeekerDrone.maxLifetime d = 1200%Z /\
  SeekerDrone.lifetime (run (SeekerDrone.setTarget ref d)) = (1200 - Z.of_nat k)%Z /\
  SeekerDrone.active (run (SeekerDrone.setTarget ref d)) = true /\
  SeekerDrone.isExpired (run (SeekerDrone.setTarget ref d)) = (1200 <=? k)%nat /\
  run d = d /\
  SeekerDrone.velocity d = Vec2.zero /\
  SeekerDrone.isExpired (run d) = false.
Proof.
  intros Hnew run k. apply SeekerDrone_new_shape in Hnew.
  assert (Hrun : forall d0,
            SeekerDrone.active d0 = true -> SeekerDrone.targetShip d0 = Some ref ->
            SeekerDrone.lifetime (run d0) = (SeekerDrone.lifetime d0 - Z.of_nat k)%Z /\
            SeekerDrone.active (run d0) = true).
  { subst run k. induction envs as [|ships envs IH]; intros d0 Ha Ht.
    - cbn [fold_left List.length]. split; [cbn; lia | exact Ha].
    - destruct (seeker_update_with_target ships d0 ref Ha Ht) as (Hl & Ha' & Ht').
      cbn [fold_left]. destruct (IH _ Ha' Ht') as (IHl & IHa).
      split; [rewrite IHl, Hl; cbn [List.length]; lia | exact IHa]. }
  assert (Hidle : run d = d).
  { subst run. apply seeker_untargeted_fixed. rewrite Hnew. reflexivity. }
  destruct (Hrun (SeekerDrone.setTarget ref d)) as (Hl & Ha);
    [rewrite Hnew; reflexivity | reflexivity |].
  assert (Hl0 : SeekerDrone.lifetime (SeekerDrone.setTarget ref d) = 1200%Z)
    by (rewrite Hnew; reflexivity).
  rewrite Hl0 in Hl.
  split; [rewrite Hnew; reflexivity|]. split; [exact Hl|]. split; [exact Ha|].
  split; [|split; [exact Hidle|split]].
  - unfold SeekerDrone.isExpired. rewrite Hl.
    destruct (1200 <=? k)%nat eqn:E.
    + apply Nat.leb_le in E. apply Z.leb_le. lia.
    + apply Nat.leb_gt in E. apply Z.leb_gt. lia.
  - rewrite Hnew. reflexivity.
  - rewrite Hidle, Hnew. reflexivity.
Qed.

Lemma seeker_expires_once_targeted_witness :
  let ships := fun _ : ShipRef => Ship.new 600 600 PLAYER_COLOR in
  let run := fun n d =>
    fold_left (fun d0 env => SeekerDrone.update env d0) (repeat ships n) d in
  exists d w',
    SeekerDrone.new hubCenter exampleWorld = Some (d, w') /\
    SeekerDrone.isExpired (run 1199%nat (SeekerDrone.setTarget player d)) = false /\
    SeekerDrone.isExpired (run 1200%nat (SeekerDrone.setTarget player d)) = true.
Proof.
  intros ships run.
  destruct (SeekerDrone_new_returns (fun _ => True) hubCenter exampleWorld I)
    as (d & w' & Hnew & _).
  exists d, w'. split; [exact Hnew|].
  destruct (seeker_expires_once_targeted hubCenter exampleWorld w' d player
              (repeat ships 1199) Hnew) as (_ & _ & _ & H1199 & _).
  destruct (seeker_expires_once_targeted hubCenter exampleWorld w' d player
              (repeat ships 1200) Hnew) as (_ & _ & _ & H1200 & _).
  cbv zeta in H1199, H1200. rewrite repeat_length in H1199, H1200.
  split; [exact H1199 | exact H1200].
Defined.

(** C6, counterexample.  The drone that [new SeekerDrone(hubCenter)]
    creates has no target and is active; 1200 updates leave it as it was,
    so it is not expired after its maximal lifetime. *)
Lemma seeker_untargeted_counterexample :
  let ships := fun _ : ShipRef => Ship.new 600 600 PLAYER_COLOR in
  exists d w',
    SeekerDrone.new hubCenter exampleWorld = Some (d, w') /\
    SeekerDrone.targetShip d = None /\
    SeekerDrone.active d = true /\
    SeekerDrone.maxLifetime d = 1200%Z /\
    SeekerDrone.isExpired (Nat.iter 1200 (SeekerDrone.update ships) d) = false.
Proof.
  intro ships. eexists. eexists. split; [reflexivity|].
  split; [reflexivity|]. split; [reflexivity|]. split; [reflexivity|].
  assert (Hfix : forall n d, SeekerDrone.targetShip d = None ->
                             Nat.iter n (SeekerDrone.update ships) d = d).
  { intros n d Hd. induction n as [|n IH]; [reflexivity|].
    change (Nat.iter (S n) (SeekerDrone.update ships) d)
      with (SeekerDrone.update ships (Nat.iter n (SeekerDrone.update ships) d)).
    rewrite IH. apply seeker_update_without_target. exact Hd. }
  rewrite Hfix by reflexivity. reflexivity.
Qed.

(** ** The grid step and the hub *)

Lemma yields_ret {A : Type} (a : A) (w : World) (Q : A -> World -> Prop) :
  Q a w -> yields (ret a) w Q.
Proof. intro H. exists a, w. split; [reflexivity | exact H]. Qed.

Lemma yields_bind {A B : Type} (c : M A) (k : A -> M B) (w : World)
    (Q : B -> World -> Prop) :
  yields c w (fun a w1 => yields (k a) w1 Q) -> yields (bind c k) w Q.
Proof.
  intros (a & w1 & Ha & b & w2 & Hb & HQ). exists b, w2. split; [|exact HQ].
  unfold bind. rewrite Ha. exact Hb.
Qed.

Lemma yields_returns {A : Type} (c : M A) (w : World) (Qp : A -> Prop)
    (Q : A -> World -> Prop) :
  total c -> post c Qp ->
  (forall a w', Qp a -> randoms w' = randoms w -> wormholes w' = wormholes w -> Q a w') ->
  yields c w Q.
Proof.
  intros Hr Hp HQ. destruct (Hr w I) as (a & w' & Ha & Hrand & Hhub).
  exists a, w'. split; [exact Ha|]. apply HQ; [exact (Hp w a w' Ha) | exact Hrand | exact Hhub].
Qed.

Lemma nth_error_setAt {A : Type} (i : nat) (v a : A) (l : list A) :
  nth_error l i = Some a -> nth_error (setAt i v l) i = Some v.
Proof.
  revert i. induction l as [|b l IH]; intros [|i] H; simpl in *; try discriminate.
  - reflexivity.
  - apply IH. exact H.
Qed.

Lemma setAt_setAt {A : Type} (i : nat) (u v : A) (l : list A) :
  setAt i v (setAt i u l) = setAt i v l.
Proof.
  revert i. induction l as [|b l IH]; intros [|i]; simpl; try reflexivity.
  now rewrite IH.
Qed.

Lemma links_refl (g : GridState.t) : links g g.
Proof. repeat split. Qed.

Lemma links_trans (g1 g2 g3 : GridState.t) : links g1 g2 -> links g2 g3 -> links g1 g3.
Proof.
  intros (A1 & A2 & A3 & A4 & A5) (B1 & B2 & B3 & B4 & B5).
  repeat split; congruence.
Qed.

Lemma returnsIf_forEachM {A S : Type} (P : (nat -> R) -> Prop) (l : list A)
    (body : A -> S -> M S) (st : S) :
  (forall a s, returnsIf P (body a s)) -> returnsIf P (forEachM l body st).
Proof.
  intro Hbody. revert st. induction l as [|a l IH]; intro st; simpl.
  - apply returnsIf_ret.
  - apply returnsIf_bind; [apply Hbody|]. intro st'. apply IH.
Qed.

Lemma post_forEachM {A S : Type} (Inv : S -> Prop) (l : list A)
    (body : A -> S -> M S) (st : S) :
  (forall a s, Inv s -> post (body a s) Inv) -> Inv st -> post (forEachM l body st) Inv.
Proof.
  intro Hbody. revert st. induction l as [|a l IH]; intros st Hst; simpl.
  - apply post_ret. exact Hst.
  - eapply post_bind; [apply Hbody; exact Hst|]. intros st' Hst'. apply IH. exact Hst'.
Qed.

Lemma createBurst_returns P p col count spread size0 life0 ps :
  returnsIf P (ParticleSystem.createBurst p col count spread size0 life0 ps).
Proof. unfold ParticleSystem.createBurst. returns_steps. Qed.

Lemma Orb_new_returns P p ty : returnsIf P (Orb.new p ty).
Proof. unfold Orb.new. returns_steps. Qed.

Lemma getRandomType_returns P : returnsIf P Orb.getRandomType.
Proof. unfold Orb.getRandomType. returns_steps. Qed.

Lemma spawnOrbLoop_returns P attempts g : returnsIf P (GridState.spawnOrbLoop attempts g).
Proof.
  induction attempts as [|n IH]; simpl.
  - apply returnsIf_ret.
  - do 2 (apply returnsIf_bind; [apply returnsIf_random|]; intro).
    destruct (Rleb _ _); [|exact IH].
    destruct (negb _); [|exact IH].
    apply returnsIf_bind; [apply getRandomType_returns|]. intro.
    apply returnsIf_bind; [apply Orb_new_returns|]. intro. apply returnsIf_ret.
Qed.

Lemma spawnOrbLoop_links attempts g :
  post (GridState.spawnOrbLoop attempts g) (fun g' => links g' g).
Proof.
  induction attempts as [|n IH]; simpl.
  - apply post_ret. apply links_refl.
  - do 2 (apply post_bind_any; intro).
    destruct (Rleb _ _); [|exact IH].
    destruct (negb _); [|exact IH].
    do 2 (apply post_bind_any; intro). apply post_ret. repeat split.
Qed.

Lemma updateOrbSpawning_returns P g : returnsIf P (GridState.updateOrbSpawning g).
Proof.
  unfold GridState.updateOrbSpawning.
  destruct (_ <=? _)%nat; [apply returnsIf_ret|]. cbv zeta.
  destruct (Rleb _ _); [|apply returnsIf_ret].
  apply returnsIf_bind; [apply spawnOrbLoop_returns|]. intro.
  apply returnsIf_bind; [apply returnsIf_random|]. intro. apply returnsIf_ret.
Qed.

Lemma updateOrbSpawning_links g :
  post (GridState.updateOrbSpawning g) (fun g' => links g' g).
Proof.
  unfold GridState.updateOrbSpawning.
  destruct (_ <=? _)%nat; [apply post_ret; apply links_refl|]. cbv zeta.
  destruct (Rleb _ _); [|apply post_ret; repeat split].
  eapply post_bind; [apply spawnOrbLoop_links|]. intros g2 H2.
  apply post_bind_any. intro r. apply post_ret.
  eapply links_trans; [|exact H2]. repeat split.
Qed.

Lemma invoke_returns (cb : option (M unit)) (e : Event) :
  (forall handler, cb = Some handler -> total handler) -> total (invoke cb e).
Proof.
  intro H. unfold invoke. destruct cb as [handler|]; [|apply returnsIf_ret].
  apply returnsIf_bind; [apply returnsIf_emit|]. intro. apply H. reflexivity.
Qed.

Lemma handleShipHit_returns hazard g :
  handlersReturn g -> total (GridState.handleShipHit hazard g).
Proof.
  intros [Hkill Hdestroyed]. unfold GridState.handleShipHit.
  apply returnsIf_bind; [apply createBurst_returns|]. intro ps1. cbv zeta.
  destruct (Ship.takeDamage _) as [died ship1]. destruct died; [|apply returnsIf_ret].
  apply returnsIf_bind; [apply createBurst_returns|]. intro ps2.
  apply returnsIf_bind.
  { apply invoke_returns. cbn. intros handler Hh.
    destruct (GridState.onKillFeed g) as [f|] eqn:Hf; [|discriminate].
    injection Hh as <-. apply (Hkill f). reflexivity. }
  intro. apply returnsIf_bind.
  { apply invoke_returns. cbn. intros handler Hh.
    destruct (GridState.onShipDestroyed g) as [f|] eqn:Hf; [|discriminate].
    injection Hh as <-. apply (Hdestroyed f). reflexivity. }
  intro. apply returnsIf_ret.
Qed.

Lemma handleShipHit_links hazard g :
  post (GridState.handleShipHit hazard g) (fun g' => links g' g).
Proof.
  unfold GridState.handleShipHit. apply post_bind_any. intro ps1. cbv zeta.
  destruct (Ship.takeDamage _) as [died ship1].
  destruct died; [|apply post_ret; repeat split].
  do 3 (apply post_bind_any; intro). apply post_ret. repeat split.
Qed.

Lemma collectOrbs_links (g : GridState.t) :
  post (forEachM (GridState.orbs g)
          (fun kv g0 =>
             let '(id, orb) := kv in
             if Orb.collidesWith orb (Ship.position (GridState.ship g0)) SHIP_COLLISION_RADIUS
             then
               let '(added, ship1) := Ship.addCargo (Orb.type orb) (GridState.ship g0) in
               if added
               then
                 let color := GridState.getOrbColor (Orb.type orb) in
                 ps1 <- ParticleSystem.createCollectionBurst (Orb.position orb) color
                          (GridState.particles g0) ;;
                 ret (GridState.set_orbs (GridState.mapDelete id (GridState.orbs g0))
                        (GridState.set_particles ps1 (GridState.set_ship ship1 g0)))
               else ret (GridState.set_ship ship1 g0)
             else ret g0) g)
       (fun g' => links g' g).
Proof.
  apply post_forEachM; [|apply links_refl].
  intros [id orb] g0 H0.
  destruct (Orb.collidesWith _ _ _); [|apply post_ret; exact H0].
  destruct (Ship.addCargo _ _) as [added ship1].
  destruct added.
  - cbv zeta. apply post_bind_any. intro ps1. apply post_ret.
    eapply links_trans; [|exact H0]. repeat split.
  - apply post_ret. eapply links_trans; [|exact H0]. repeat split.
Qed.

Lemma handlersReturn_links (g' g : GridState.t) :
  links g' g -> handlersReturn g -> handlersReturn g'.
Proof.
  intros (_ & _ & _ & Hd & Hk) [H1 H2]. split.
  - intros f m Hf. apply (H1 f). rewrite <- Hk. exact Hf.
  - intros f o Hf. apply (H2 f). rewrite <- Hd. exact Hf.
Qed.

Lemma checkCollisions_returns g :
  handlersReturn g -> total (GridState.checkCollisions g).
Proof.
  intro Hh. unfold GridState.checkCollisions.
  eapply returnsIf_bind_post.
  - apply returnsIf_forEachM. intros [id orb] g0.
    destruct (Orb.collidesWith _ _ _); [|apply returnsIf_ret].
    destruct (Ship.addCargo _ _) as [added ship1].
    destruct added; [|apply returnsIf_ret]. cbv zeta.
    apply returnsIf_bind; [apply createBurst_returns|]. intro. apply returnsIf_ret.
  - apply collectOrbs_links.
  - intros g1 H1. cbv beta.
    destruct (negb _); [|apply returnsIf_ret].
    destruct (find _ _) as [hazard|]; [|apply returnsIf_ret].
    apply handleShipHit_returns. exact (handlersReturn_links g1 g H1 Hh).
Qed.

Lemma checkCollisions_links g :
  post (GridState.checkCollisions g) (fun g' => links g' g).
Proof.
  unfold GridState.checkCollisions.
  eapply post_bind; [apply collectOrbs_links|]. intros g1 H1. cbv beta.
  destruct (negb _); [|apply post_ret; exact H1].
  destruct (find _ _) as [hazard|]; [|apply post_ret; exact H1].
  eapply post_weaken; [apply handleShipHit_links|].
  intros g2 H2. exact (links_trans _ _ _ H2 H1).
Qed.

Lemma checkBoostZones_links (g : GridState.t) : links (GridState.checkBoostZones g) g.
Proof.
  unfold GridState.checkBoostZones.
  generalize (GridState.boostZones g) as zones.
  assert (H : forall zones g0, links g0 g ->
    links (fold_left (fun g1 zone =>
             if SpeedBoostZone.contains zone (Ship.position (GridState.ship g1))
             then GridState.set_ship
                    (Ship.applySpeedBoost (SpeedBoostZone.boostMultiplier zone)
                                          (GridState.ship g1)) g1
             else g1) zones g0) g).
  { induction zones as [|z zones IH]; intros g0 H0; simpl; [exact H0|].
    apply IH. destruct (SpeedBoostZone.contains _ _); [|exact H0].
    eapply links_trans; [|exact H0]. repeat split. }
  intro zones. apply H. apply links_refl.
Qed.

Lemma update_gameOver (others : ShipRef -> Ship.t) (g : GridState.t) (w : World) :
  GridState.gameOver g = true ->
  yields (GridState.update others g) w (fun g' w' => w' = w /\ links g' g).
Proof.
  intro Hover. unfold GridState.update. rewrite Hover.
  apply yields_ret. split; [reflexivity | repeat split].
Qed.

(** A grid that is not game over runs [Wormhole.update] on the hub it
    refers to, once, and touches no other hub. *)
Lemma update_hub (others : ShipRef -> Ship.t) (g : GridState.t) (w : World)
    (h : Wormhole.t) :
  nth_error (wormholes w) (GridState.wormhole g) = Some h ->
  GridState.gameOver g = false ->
  handlersReturn g ->
  yields (GridState.update others g) w
    (fun g' w' =>
       wormholes w' = setAt (GridState.wormhole g) (Wormhole.update h) (wormholes w) /\
       randoms w' = randoms w /\ links g' g).
Proof.
  intros Hhub Hover Hh. unfold GridState.update. rewrite Hover. cbv zeta.
  apply yields_bind.
  exists tt.
  exists (mkWorld (randoms w) (cursor w) (hazardIdCounter w) (orbNextId w)
                  (setAt (GridState.wormhole g) (Wormhole.update h) (wormholes w))
                  (trace w)).
  split.
  { unfold modifyWormhole. cbn [GridState.wormhole GridState.set_ship].
    rewrite Hhub. reflexivity. }
  match goal with
  | |- yields (bind (GridState.updateOrbSpawning ?x) _) _ _ => set (g5 := x)
  end.
  assert (L5 : links g5 g) by (subst g5; repeat split).
  apply yields_bind.
  apply yields_returns with (Qp := fun g6 => links g6 g5);
    [apply updateOrbSpawning_returns | apply updateOrbSpawning_links |].
  intros g6 w2 L6 Hr2 Hw2. cbn [randoms wormholes] in Hr2, Hw2.
  assert (L6' : links g6 g) by exact (links_trans _ _ _ L6 L5).
  apply yields_bind.
  apply yields_returns with (Qp := fun g7 => links g7 g6);
    [apply checkCollisions_returns; exact (handlersReturn_links _ _ L6' Hh)
    | apply checkCollisions_links |].
  intros g7 w3 L7 Hr3 Hw3.
  assert (L7' : links g7 g) by exact (links_trans _ _ _ L7 L6').
  match goal with
  | |- yields (bind (readWormhole (GridState.wormhole ?x)) _) _ _ => set (g9 := x)
  end.
  assert (L9 : links g9 g).
  { subst g9. destruct (0 <? _)%Z.
    - eapply links_trans; [|eapply links_trans; [apply checkBoostZones_links | exact L7']].
      repeat split.
    - eapply links_trans; [apply checkBoostZones_links | exact L7']. }
  apply yields_bind.
  exists (Wormhole.update h), w3. split.
  { unfold readWormhole. destruct L9 as (_ & -> & _).
    rewrite Hw3, Hw2. rewrite (nth_error_setAt _ _ _ _ Hhub). reflexivity. }
  match goal with
  | |- yields (if ?c then ret ?a else ret ?b) _ _ =>
      assert (La : links b g); [|destruct c; apply yields_ret]
  end.
  { eapply links_trans; [|exact L9].
    destruct (negb _ && _); destruct (Rltb _ _); repeat split. }
  - split; [rewrite Hw3, Hw2; reflexivity|]. split; [rewrite Hr3, Hr2; reflexivity|].
    eapply links_trans; [|exact La]. repeat split.
  - split; [rewrite Hw3, Hw2; reflexivity|]. split; [rewrite Hr3, Hr2; reflexivity|].
    exact La.
Qed.

Lemma hub_after_updates (k : nat) (h : Wormhole.t) :
  Wormhole.rotation (Nat.iter k Wormhole.update h) =
    Wormhole.rotation h + INR k * WORMHOLE_ROTATION_SPEED /\
  Wormhole.pulsePhase (Nat.iter k Wormhole.update h) =
    Wormhole.pulsePhase h + INR k * Wormhole.pulseSpeed h /\
  Wormhole.pulseSpeed (Nat.iter k Wormhole.update h) = Wormhole.pulseSpeed h /\
  Wormhole.position (Nat.iter k Wormhole.update h) = Wormhole.position h.
Proof.
  induction k as [|k (IHr & IHp & IHs & IHpos)].
  - simpl. repeat split; lra.
  - change (Nat.iter (S k) Wormhole.update h)
      with (Wormhole.update (Nat.iter k Wormhole.update h)).
    rewrite S_INR. set (hk := Nat.iter k Wormhole.update h) in *.
    unfold Wormhole.update.
    cbn [Wormhole.rotation Wormhole.pulsePhase Wormhole.pulseSpeed Wormhole.position].
    rewrite IHr, IHp, IHs, IHpos. repeat split; lra.
Qed.

Lemma iter_update_shift (k : nat) (h : Wormhole.t) :
  Nat.iter k Wormhole.update (Wormhole.update h) = Nat.iter (S k) Wormhole.update h.
Proof.
  induction k as [|k IH]; [reflexivity|].
  change (Nat.iter (S k) Wormhole.update (Wormhole.update h))
    with (Wormhole.update (Nat.iter k Wormhole.update (Wormhole.update h))).
  rewrite IH. reflexivity.
Qed.

Lemma updateGrids_hub (r : WormholeRef) (todo done : list GridState.t) (w : World)
    (h : Wormhole.t) :
  nth_error (wormholes w) r = Some h ->
  Forall (fun g => GridState.wormhole g = r /\ handlersReturn g) todo ->
  yields (Game.updateGrids done todo) w
    (fun gs w' =>
       nth_error (wormholes w') r = Some (Nat.iter (liveGrids todo) Wormhole.update h) /\
       randoms w' = randoms w /\
       List.length gs = (List.length done + List.length todo)%nat).
Proof.
  revert done w h. induction todo as [|g rest IH]; intros done w h Hhub Hall.
  - simpl. apply yields_ret. repeat split; [exact Hhub | lia].
  - inversion Hall as [|g0 rest0 [Hr Hh] Hrest]; subst g0 rest0.
    cbn [Game.updateGrids]. apply yields_bind.
    destruct (GridState.gameOver g) eqn:Hover.
    + destruct (update_gameOver (Game.shipOf (done ++ rest)) g w Hover)
        as (g' & w' & Hrun & -> & Hl).
      exists g', w. split; [exact Hrun|].
      destruct (IH (done ++ [g']) w h Hhub Hrest) as (gs & w2 & Hgs & Hhub2 & Hr2 & Hlen).
      exists gs, w2. split; [exact Hgs|].
      unfold liveGrids in *. cbn [filter]. rewrite Hover. cbn [negb].
      split; [exact Hhub2|]. split; [exact Hr2|].
      rewrite Hlen, length_app. simpl. lia.
    + subst r.
      destruct (update_hub (Game.shipOf (done ++ rest)) g w h Hhub Hover Hh)
        as (g' & w' & Hrun & Hw' & Hrand & Hl).
      exists g', w'. split; [exact Hrun|].
      assert (Hhub' : nth_error (wormholes w') (GridState.wormhole g)
                      = Some (Wormhole.update h)).
      { rewrite Hw'. apply (nth_error_setAt _ _ _ _ Hhub). }
      destruct (IH (done ++ [g']) w' (Wormhole.update h) Hhub' Hrest)
        as (gs & w2 & Hgs & Hhub2 & Hr2 & Hlen).
      exists gs, w2. split; [exact Hgs|].
      unfold liveGrids in *. cbn [filter]. rewrite Hover. cbn [negb List.length].
      rewrite <- iter_update_shift.
      split; [exact Hhub2|]. split; [rewrite Hr2; exact Hrand|].
      rewrite Hlen, length_app. simpl. lia.
Qed.

(** C3, the code as it is: a grid that is not game over runs the hub's
    [update] itself, shared or not, so the hub it refers to advances by one
    rotation step and one pulse step per grid update; and in one tick (the
    orchestrator's hub update, then every grid's update) a hub shared by
    all grids advances by one step for the orchestrator plus one for every
    grid that is not game over. *)
Theorem shared_hub_advances_per_grid :
  (forall (others : ShipRef -> Ship.t) (g : GridState.t) (w : World) (h : Wormhole.t),
      nth_error (wormholes w) (GridState.wormhole g) = Some h ->
      GridState.gameOver g = false ->
      handlersReturn g ->
      exists g' w' h',
        GridState.update others g w = Some (g', w') /\
        nth_error (wormholes w') (GridState.wormhole g) = Some h' /\
        Wormhole.rotation h' = Wormhole.rotation h + WORMHOLE_ROTATION_SPEED /\
        Wormhole.pulsePhase h' = Wormhole.pulsePhase h + Wormhole.pulseSpeed h) /\
  (forall (gm : Game.t) (w : World) (h : Wormhole.t),
      nth_error (wormholes w) (Game.sharedWormhole gm) = Some h ->
      Forall (fun g => GridState.wormhole g = Game.sharedWormhole gm /\ handlersReturn g)
             (Game.grids gm) ->
      exists gm' w' h',
        Game.stepWormholeAndGrids gm w = Some (gm', w') /\
        nth_error (wormholes w') (Game.sharedWormhole gm) = Some h' /\
        Wormhole.rotation h' =
          Wormhole.rotation h
          + (1 + INR (liveGrids (Game.grids gm))) * WORMHOLE_ROTATION_SPEED).
Proof.
  split.
  - intros others g w h Hhub Hover Hh.
    destruct (update_hub others g w h Hhub Hover Hh) as (g' & w' & Hrun & Hw' & _ & _).
    exists g', w', (Wormhole.update h). split; [exact Hrun|]. split.
    + rewrite Hw'. apply (nth_error_setAt _ _ _ _ Hhub).
    + split; reflexivity.
  - intros gm w h Hhub Hall. unfold Game.stepWormholeAndGrids.
    set (r := Game.sharedWormhole gm) in *.
    set (w1 := mkWorld (randoms w) (cursor w) (hazardIdCounter w) (orbNextId w)
                       (setAt r (Wormhole.update h) (wormholes w)) (trace w)).
    assert (Hstep : modifyWormhole r Wormhole.update w = Some (tt, w1)).
    { unfold modifyWormhole. rewrite Hhub. reflexivity. }
    assert (Hhub1 : nth_error (wormholes w1) r = Some (Wormhole.update h)).
    { apply (nth_error_setAt _ _ _ _ Hhub). }
    destruct (updateGrids_hub r (Game.grids gm) [] w1 (Wormhole.update h) Hhub1 Hall)
      as (gs & w2 & Hgs & Hhub2 & _ & _).
    eexists. exists w2. eexists. split; [|split].
    + unfold bind. rewrite Hstep, Hgs. reflexivity.
    + exact Hhub2.
    + rewrite iter_update_shift.
      destruct (hub_after_updates (S (liveGrids (Game.grids gm))) h) as (Hrot & _).
      rewrite Hrot, S_INR. lra.
Qed.

Lemma idleHandlers_return (g : GridState.t) :
  handlersReturn (Game.setupGridCallbacks idleHandlers g).
Proof.
  split; cbn; intros f x Hf; injection Hf as <-; apply returnsIf_ret.
Qed.

Lemma exampleGame_new :
  Game.new idleHandlers 2 emptyWorld = Some (exampleGame, exampleWorld).
Proof. reflexivity. Qed.

Lemma shared_hub_advances_per_grid_witness :
  exists gm' w2 h',
    liveGrids (Game.grids exampleGame) = 3%nat /\
    nth_error (wormholes exampleWorld) (Game.sharedWormhole exampleGame)
      = Some Wormhole.new /\
    Game.stepWormholeAndGrids exampleGame exampleWorld = Some (gm', w2) /\
    nth_error (wormholes w2) (Game.sharedWormhole exampleGame) = Some h' /\
    Wormhole.rotation h' = 4 * WORMHOLE_ROTATION_SPEED.
Proof.
  destruct (proj2 shared_hub_advances_per_grid exampleGame exampleWorld
                  Wormhole.new eq_refl)
    as (gm' & w2 & h' & Hstep & Hhub & Hrot).
  { repeat constructor; apply idleHandlers_return. }
  exists gm', w2, h'.
  split; [reflexivity|]. split; [reflexivity|].
  split; [exact Hstep|]. split; [exact Hhub|].
  rewrite Hrot. cbn [Wormhole.rotation Wormhole.new liveGrids]. simpl INR. lra.
Defined.

(** ** Banking succeeds inside the zone *)



Lemma yields_readWormhole (r : WormholeRef) (w : World) (h : Wormhole.t)
    (Q : Wormhole.t -> World -> Prop) :
  nth_error (wormholes w) r = Some h -> Q h w -> yields (readWormhole r) w Q.
Proof.
  intros Hh HQ. exists h, w. split; [|exact HQ]. unfold readWormhole. rewrite Hh. reflexivity.
Qed.


Lemma exampleWorld_inRange : randomInRange exampleWorld.
Proof. intro n. simpl. lra. Qed.


(* ===================================================================== *)
(** * Further properties of the simulation core *)
(* ===================================================================== *)

(** ** Mine: arming *)

Lemma Mine_new_shape (p : Vec2.t) (w w' : World) (m : Mine.t) :
  Mine.new p w = Some (m, w') ->
  m = Mine.mk (hazardIdCounter w) p Vec2.zero 10 60 1800%Z 1800%Z 120%Z true false 0.
Proof.
  unfold Mine.new, bind, nextHazardId, ret. intro H. injection H as <- _. reflexivity.
Qed.

Lemma Mine_update_step (m : Mine.t) :
  Mine.active m = true ->
  Mine.position (Mine.update m) = Mine.position m /\
  Mine.radius (Mine.update m) = Mine.radius m /\
  Mine.armingRadius (Mine.update m) = Mine.armingRadius m /\
  Mine.active (Mine.update m) = true /\
  Mine.lifetime (Mine.update m) = (Mine.lifetime m - 1)%Z /\
  Mine.armed (Mine.update m) = (Mine.armed m || (Mine.armingTime m - 1 <=? 0)%Z) /\
  (Mine.armed m = false -> Mine.armingTime (Mine.update m) = (Mine.armingTime m - 1)%Z).
Proof.
  destruct m as [i p v r ar l ml tm act armd bp].
  cbn [Mine.active]. intros ->. unfold Mine.update.
  cbn [Mine.active Mine.armed negb]. destruct armd; cbn [negb].
  - cbn. repeat split. discriminate.
  - cbn. destruct (tm - 1 <=? 0)%Z; repeat split.
Qed.

Lemma Mine_after (n : nat) (m : Mine.t) :
  Mine.active m = true -> Mine.armed m = false -> (0 < Mine.armingTime m)%Z ->
  let m' := Nat.iter n Mine.update m in
  Mine.position m' = Mine.position m /\
  Mine.radius m' = Mine.radius m /\
  Mine.armingRadius m' = Mine.armingRadius m /\
  Mine.active m' = true /\
  Mine.lifetime m' = (Mine.lifetime m - Z.of_nat n)%Z /\
  Mine.armed m' = (Mine.armingTime m <=? Z.of_nat n)%Z /\
  (Mine.armed m' = false -> Mine.armingTime m' = (Mine.armingTime m - Z.of_nat n)%Z).
Proof.
  intros Ha Hu Hpos. induction n as [|n IH].
  - cbn. split; [reflexivity|]. split; [reflexivity|]. split; [reflexivity|].
    split; [exact Ha|]. split; [lia|]. split; [|intros _; lia].
    rewrite Hu. symmetry. apply Z.leb_gt. lia.
  - change (Nat.iter (S n) Mine.update m) with (Mine.update (Nat.iter n Mine.update m)).
    cbv zeta in IH. destruct IH as (Ip & Ir & Iar & Iact & Il & Iarmed & Itime).
    destruct (Mine_update_step (Nat.iter n Mine.update m) Iact)
      as (Sp & Sr & Sar & Sact & Sl & Sarmed & Stime).
    cbv zeta. rewrite Sp, Sr, Sar, Sl, Ip, Ir, Iar, Il.
    assert (Harm : Mine.armed (Mine.update (Nat.iter n Mine.update m)) =
                   (Mine.armingTime m <=? Z.of_nat (S n))%Z).
    { rewrite Sarmed, Iarmed.
      destruct (Mine.armingTime m <=? Z.of_nat n)%Z eqn:Hle.
      - cbn. symmetry. apply Z.leb_le. apply Z.leb_le in Hle. lia.
      - cbn. rewrite Itime by (rewrite Iarmed; reflexivity).
        apply Z.leb_gt in Hle.
        destruct (Mine.armingTime m - Z.of_nat n - 1 <=? 0)%Z eqn:H1;
          symmetry; [apply Z.leb_le; apply Z.leb_le in H1 | apply Z.leb_gt; apply Z.leb_gt in H1]; lia. }
    repeat split; try assumption; try lia.
    intro Hstill. rewrite Harm in Hstill. apply Z.leb_gt in Hstill.
    assert (Hprev : Mine.armed (Nat.iter n Mine.update m) = false).
    { rewrite Iarmed. apply Z.leb_gt. lia. }
    rewrite (Stime Hprev), (Itime Hprev). lia.
Qed.

(** X1. Mine arming.  For a mine created by [new Mine(p)] and updated [n]
    times: a ship whose distance from the mine lies between body contact
    (radius 10 plus the ship radius) and the blast radius (60 plus the ship
    radius) collides exactly from the 120th update on; within body contact
    it collides at every tick, beyond the blast radius at none. *)
Theorem mine_arming (p : Vec2.t) (w w' : World) (m : Mine.t) (q : Vec2.t)
    (shipRadius : R) (n : nat) :
  Mine.new p w = Some (m, w') ->
  let d := Vec2.length (Vec2.sub p q) in
  let hit := Mine.collidesWith (Nat.iter n Mine.update m) q shipRadius in
  (10 + shipRadius < d <= 60 + shipRadius -> hit = (120 <=? n)%nat) /\
  (d <= 10 + shipRadius -> hit = true) /\
  (60 + shipRadius < d -> hit = false).
Proof.
  intros Hnew d hit. apply Mine_new_shape in Hnew. subst m.
  match goal with
  | _ := Mine.collidesWith (Nat.iter n Mine.update ?m0) _ _ |- _ =>
      destruct (Mine_after n m0 eq_refl eq_refl eq_refl)
        as (Hp & Hr & Har & Hact & _ & Harmed & _);
      set (m' := Nat.iter n Mine.update m0) in *
  end.
  cbn [Mine.position Mine.radius Mine.armingRadius Mine.armingTime] in *.
  assert (Hhit : hit = if (120 <=? Z.of_nat n)%Z
                       then Rleb d (60 + shipRadius) else Rleb d (10 + shipRadius)).
  { subst hit. unfold Mine.collidesWith. rewrite Hact, Harmed, Hp, Hr, Har.
    cbn [negb]. reflexivity. }
  assert (Hn : (120 <=? Z.of_nat n)%Z = (120 <=? n)%nat).
  { destruct (120 <=? n)%nat eqn:E.
    - apply Nat.leb_le in E. apply Z.leb_le. lia.
    - apply Nat.leb_gt in E. apply Z.leb_gt. lia. }
  rewrite Hn in Hhit. rewrite Hhit. split; [|split].
  - intros [Hlo Hhi]. destruct (120 <=? n)%nat.
    + apply Rleb_true. exact Hhi.
    + apply Rleb_false. exact Hlo.
  - intro Hin. destruct (120 <=? n)%nat; apply Rleb_true; lra.
  - intro Hout. destruct (120 <=? n)%nat; apply Rleb_false; lra.
Qed.

Lemma mine_arming_witness :
  let q := Vec2.mk 630 440 in
  exists m w',
    Mine.new hubCenter exampleWorld = Some (m, w') /\
    Mine.collidesWith (Nat.iter 119 Mine.update m) q SHIP_COLLISION_RADIUS = false /\
    Mine.collidesWith (Nat.iter 120 Mine.update m) q SHIP_COLLISION_RADIUS = true.
Proof.
  intro q.
  exists (Mine.mk 0%Z hubCenter Vec2.zero 10 60 1800%Z 1800%Z 120%Z true false 0).
  exists (mkWorld (randoms exampleWorld) 0 1%Z 0%Z [Wormhole.new] []).
  assert (Hnew : Mine.new hubCenter exampleWorld =
                 Some (Mine.mk 0%Z hubCenter Vec2.zero 10 60 1800%Z 1800%Z 120%Z true false 0,
                       mkWorld (randoms exampleWorld) 0 1%Z 0%Z [Wormhole.new] []))
    by reflexivity.
  assert (Hd : Vec2.length (Vec2.sub hubCenter q) = 50).
  { apply length_of_square; [lra | subst q; numerals]. }
  split; [exact Hnew|]. split.
  - apply (proj1 (mine_arming hubCenter exampleWorld _ _ q SHIP_COLLISION_RADIUS 119 Hnew)).
    rewrite Hd. unfold SHIP_COLLISION_RADIUS. lra.
  - apply (proj1 (mine_arming hubCenter exampleWorld _ _ q SHIP_COLLISION_RADIUS 120 Hnew)).
    rewrite Hd. unfold SHIP_COLLISION_RADIUS. lra.
Defined.

(** ** Nuke: countdown, blast, extinction *)

Lemma Nuke_new_shape (p : Vec2.t) (w w' : World) (n0 : Nuke.t) :
  Nuke.new p w = Some (n0, w') ->
  n0 = Nuke.mk (hazardIdCounter w) p Vec2.zero 0 375 420%Z 420%Z 300%Z false 0%Z
               120%Z true 50.
Proof.
  unfold Nuke.new, bind, nextHazardId, ret. intro H. injection H as <- _. reflexivity.
Qed.

(** One tick of the countdown. *)
Lemma Nuke_update_countdown (i : Z) (p v : Vec2.t) (r mr : R) (l ml c e me : Z) (sz : R) :
  Nuke.update (Nuke.mk i p v r mr l ml c false e me true sz) =
  if (c - 1 <=? 0)%Z
  then Nuke.mk i p v r mr (l - 1)%Z ml (c - 1)%Z true 0%Z me true sz
  else Nuke.mk i p v r mr (l - 1)%Z ml (c - 1)%Z false e me true sz.
Proof.
  unfold Nuke.update. cbn [Nuke.active Nuke.detonated negb].
  cbv zeta. cbn [Nuke.countdownTime].
  destruct (c - 1 <=? 0)%Z; reflexivity.
Qed.

(** One tick of the blast. *)
Lemma Nuke_update_blast (i : Z) (p v : Vec2.t) (r mr : R) (l ml c e me : Z) (sz : R) :
  Nuke.update (Nuke.mk i p v r mr l ml c true e me true sz) =
  Nuke.mk i p v (mr * Rmin (IZR (e + 1) / IZR me * 1.5) 1) mr (l - 1)%Z ml c true
          (e + 1)%Z me (if (me <=? e + 1)%Z then false else true) sz.
Proof. reflexivity. Qed.

Lemma Nuke_update_inactive (n : Nuke.t) :
  Nuke.active n = false -> Nuke.update n = n.
Proof. intro H. unfold Nuke.update. rewrite H. reflexivity. Qed.

(** The nuke [k] ticks after it was placed, phase by phase. *)
Lemma Nuke_after (i : Z) (p : Vec2.t) (k : nat) :
  let n0 := Nuke.mk i p Vec2.zero 0 375 420%Z 420%Z 300%Z false 0%Z 120%Z true 50 in
  let n := Nat.iter k Nuke.update n0 in
  let t := Z.of_nat k in
  ((t < 300)%Z ->
     n = Nuke.mk i p Vec2.zero 0 375 (420 - t)%Z 420%Z (300 - t)%Z false 0%Z 120%Z true 50) /\
  (t = 300%Z ->
     n = Nuke.mk i p Vec2.zero 0 375 120%Z 420%Z 0%Z true 0%Z 120%Z true 50) /\
  ((300 < t <= 420)%Z ->
     n = Nuke.mk i p Vec2.zero (375 * Rmin (IZR (t - 300) / IZR 120 * 1.5) 1) 375
                 (420 - t)%Z 420%Z 0%Z true (t - 300)%Z 120%Z (t <? 420)%Z 50) /\
  ((420 < t)%Z ->
     n = Nuke.mk i p Vec2.zero (375 * Rmin (IZR 120 / IZR 120 * 1.5) 1) 375
                 0%Z 420%Z 0%Z true 120%Z 120%Z false 50).
Proof.
  intros n0 n t. subst n t. induction k as [|k IH].
  - cbn [Nat.iter nat_rect Z.of_nat]. repeat split; intro H; first [lia | reflexivity].
  - change (Nat.iter (S k) Nuke.update n0) with (Nuke.update (Nat.iter k Nuke.update n0)).
    destruct IH as (I1 & I2 & I3 & I4).
    rewrite Nat2Z.inj_succ.
    set (t := Z.of_nat k) in *. assert (Ht : (0 <= t)%Z) by (subst t; lia).
    clearbody t. set (n := Nat.iter k Nuke.update n0) in *. clearbody n.
    split; [|split; [|split]]; intro H.
    + rewrite I1 by lia. rewrite Nuke_update_countdown.
      replace (300 - t - 1 <=? 0)%Z with false by (symmetry; apply Z.leb_gt; lia).
      f_equal; lia.
    + rewrite I1 by lia. rewrite Nuke_update_countdown.
      replace (300 - t - 1 <=? 0)%Z with true by (symmetry; apply Z.leb_le; lia).
      f_equal; lia.
    + destruct (Z.eq_dec t 300) as [E|E].
      * rewrite (I2 E), Nuke_update_blast. subst t.
        cbn [Z.add Z.sub Z.succ Z.leb Z.ltb Z.compare Pos.compare Pos.compare_cont
             Z.opp Z.pos_sub Pos.succ Pos.add Pos.pred_double]. reflexivity.
      * rewrite I3 by lia.
        replace (t <? 420)%Z with true by (symmetry; apply Z.ltb_lt; lia).
        rewrite Nuke_update_blast.
        replace (t - 300 + 1)%Z with (Z.succ t - 300)%Z by lia.
        replace (420 - t - 1)%Z with (420 - Z.succ t)%Z by lia.
        destruct (Z.succ t <? 420)%Z eqn:Hlt.
        -- replace (120 <=? Z.succ t - 300)%Z with false
             by (symmetry; apply Z.leb_gt; apply Z.ltb_lt in Hlt; lia).
           reflexivity.
        -- replace (120 <=? Z.succ t - 300)%Z with true
             by (symmetry; apply Z.leb_le; apply Z.ltb_ge in Hlt; lia).
           reflexivity.
    + destruct (Z.eq_dec t 420) as [E|E].
      * rewrite I3 by lia. subst t. apply Nuke_update_inactive. reflexivity.
      * rewrite I4 by lia. apply Nuke_update_inactive. reflexivity.
Qed.

(** X2. Nuke lifecycle.  A nuke created by [new Nuke(p)] counts down for
    300 ticks, during which it is not detonated, collides with no ship
    wherever it is, and shows ceil((300 - k) / 60) whole seconds; from tick
    300 to tick 419 it is detonated and active; from tick 420 on it is
    inactive and expired and collides with nothing again. *)
Theorem nuke_lifecycle (p : Vec2.t) (w w' : World) (n0 : Nuke.t) (k : nat)
    (q : Vec2.t) (shipRadius : R) :
  Nuke.new p w = Some (n0, w') ->
  let n := Nat.iter k Nuke.update n0 in
  ((k < 300)%nat ->
     Nuke.detonated n = false /\ Nuke.active n = true /\
     Nuke.collidesWith n q shipRadius = false /\
     Nuke.getCountdownSeconds n = (5 - Z.of_nat k / 60)%Z) /\
  ((300 <= k < 420)%nat ->
     Nuke.detonated n = true /\ Nuke.active n = true /\ Nuke.isExpired n = false) /\
  ((420 <= k)%nat ->
     Nuke.active n = false /\ Nuke.isExpired n = true /\
     Nuke.collidesWith n q shipRadius = false).
Proof.
  intros Hnew n. apply Nuke_new_shape in Hnew. subst n0.
  destruct (Nuke_after (hazardIdCounter w) p k) as (P1 & P2 & P3 & P4).
  cbv zeta in P1, P2, P3, P4. fold n in P1, P2, P3, P4.
  split; [|split]; intro Hk.
  - rewrite P1 by lia. cbn [Nuke.detonated Nuke.active].
    split; [reflexivity|]. split; [reflexivity|]. split; [reflexivity|].
    unfold Nuke.getCountdownSeconds. cbn [Nuke.countdownTime].
    replace (- (300 - Z.of_nat k))%Z with (Z.of_nat k + (-5) * 60)%Z by lia.
    rewrite Z.div_add by lia. lia.
  - destruct (Nat.eq_dec k 300) as [E|E].
    + rewrite P2 by lia. repeat split.
    + rewrite P3 by lia. unfold Nuke.isExpired.
      cbn [Nuke.detonated Nuke.active Nuke.lifetime].
      split; [reflexivity|]. split; [apply Z.ltb_lt; lia | apply Z.leb_gt; lia].
  - destruct (Nat.eq_dec k 420) as [E|E].
    + rewrite P3 by lia.
      unfold Nuke.collidesWith, Nuke.isExpired. cbn [Nuke.active Nuke.lifetime Nuke.detonated].
      replace (Z.of_nat k <? 420)%Z with false by (symmetry; apply Z.ltb_ge; lia).
      split; [reflexivity|]. split; [apply Z.leb_le; lia | reflexivity].
    + rewrite P4 by lia. repeat split.
Qed.

Lemma nuke_lifecycle_witness :
  exists n0 w',
    Nuke.new hubCenter exampleWorld = Some (n0, w') /\
    Nuke.collidesWith (Nat.iter 299 Nuke.update n0) (Vec2.mk 700 400)
                      SHIP_COLLISION_RADIUS = false /\
    Nuke.getCountdownSeconds (Nat.iter 299 Nuke.update n0) = 1%Z /\
    Nuke.detonated (Nat.iter 300 Nuke.update n0) = true /\
    Nuke.active (Nat.iter 420 Nuke.update n0) = false.
Proof.
  destruct freshNuke_new as (w' & Hnew). exists freshNuke, w'.
  split; [exact Hnew|].
  pose proof (nuke_lifecycle hubCenter exampleWorld w' freshNuke 299 (Vec2.mk 700 400)
                SHIP_COLLISION_RADIUS Hnew) as H299.
  pose proof (nuke_lifecycle hubCenter exampleWorld w' freshNuke 300 (Vec2.mk 700 400)
                SHIP_COLLISION_RADIUS Hnew) as H300.
  pose proof (nuke_lifecycle hubCenter exampleWorld w' freshNuke 420 (Vec2.mk 700 400)
                SHIP_COLLISION_RADIUS Hnew) as H420.
  cbv zeta in H299, H300, H420.
  destruct H299 as (A & _ & _). destruct (A ltac:(lia)) as (_ & _ & A3 & A4).
  destruct H300 as (_ & B & _). destruct (B ltac:(lia)) as (B1 & _).
  destruct H420 as (_ & _ & C). destruct (C ltac:(lia)) as (C1 & _).
  split; [exact A3|]. split; [exact A4|]. split; [exact B1 | exact C1].
Defined.

(** X3. Blast radius.  [j] ticks into the blast (0 <= j <= 120) the radius
    of a program-made nuke is min(4.6875 * j, 375): a linear ramp that
    reaches the maximum of 375 at tick 80, three quarters of the way through
    the blast, never exceeds it and never shrinks. *)
Theorem nuke_blast_radius (p : Vec2.t) (w w' : World) (n0 : Nuke.t) (j : nat) :
  Nuke.new p w = Some (n0, w') ->
  (j <= 120)%nat ->
  let r := Nuke.radius (Nat.iter (300 + j) Nuke.update n0) in
  r = Rmin (4.6875 * INR j) 375 /\
  0 <= r <= Nuke.maxRadius (Nat.iter (300 + j) Nuke.update n0) /\
  ((80 <= j)%nat -> r = 375) /\
  r <= Nuke.radius (Nat.iter (300 + S j) Nuke.update n0).
Proof.
  intros Hnew Hj r. apply Nuke_new_shape in Hnew. subst n0.
  assert (Hrad : forall i : nat, (i <= 121)%nat ->
            Nuke.radius (Nat.iter (300 + i) Nuke.update
              (Nuke.mk (hazardIdCounter w) p Vec2.zero 0 375 420%Z 420%Z 300%Z false 0%Z
                       120%Z true 50)) = Rmin (4.6875 * INR (Nat.min i 120)) 375 /\
            Nuke.maxRadius (Nat.iter (300 + i) Nuke.update
              (Nuke.mk (hazardIdCounter w) p Vec2.zero 0 375 420%Z 420%Z 300%Z false 0%Z
                       120%Z true 50)) = 375).
  { intros i Hi.
    destruct (Nuke_after (hazardIdCounter w) p (300 + i)) as (_ & P2 & P3 & P4).
    cbv zeta in P2, P3, P4.
    assert (Hramp : forall z : Z, (0 <= z)%Z ->
              375 * Rmin (IZR z / IZR 120 * 1.5) 1 = Rmin (4.6875 * IZR z) 375).
    { intros z Hz. unfold Rmin.
      destruct (Rle_dec (IZR z / IZR 120 * 1.5) 1), (Rle_dec (4.6875 * IZR z) 375); lra. }
    destruct (Nat.eq_dec i 0) as [E|E]; [|destruct (Nat.eq_dec i 121) as [E'|E']].
    - subst i. rewrite P2 by lia. cbn [Nuke.radius Nuke.maxRadius Nat.min INR].
      split; [|reflexivity]. unfold Rmin. destruct (Rle_dec (4.6875 * 0) 375); lra.
    - subst i. rewrite P4 by lia. cbn [Nuke.radius Nuke.maxRadius].
      split; [|reflexivity]. rewrite Hramp by lia.
      replace (Nat.min 121 120) with 120%nat by reflexivity. rewrite INR_IZR_INZ.
      reflexivity.
    - rewrite P3 by lia. cbn [Nuke.radius Nuke.maxRadius]. split; [|reflexivity].
      rewrite Hramp by lia. rewrite Nat.min_l by lia. rewrite INR_IZR_INZ.
      do 2 f_equal. f_equal. lia. }
  destruct (Hrad j ltac:(lia)) as [Hr Hm].
  destruct (Hrad (S j) ltac:(lia)) as [Hr' _].
  rewrite Nat.min_l in Hr by lia.
  subst r. rewrite Hr, Hm, Hr'.
  assert (Hjpos : 0 <= INR j) by apply pos_INR.
  assert (Hmono : INR j <= INR (Nat.min (S j) 120)).
  { apply le_INR. lia. }
  split; [reflexivity|]. split; [|split].
  - unfold Rmin. destruct (Rle_dec (4.6875 * INR j) 375); lra.
  - intro H80. assert (H : 80 <= INR j).
    { replace 80 with (INR 80) by (simpl; lra). apply le_INR. exact H80. }
    unfold Rmin. destruct (Rle_dec (4.6875 * INR j) 375); lra.
  - unfold Rmin.
    destruct (Rle_dec (4.6875 * INR j) 375),
             (Rle_dec (4.6875 * INR (Nat.min (S j) 120)) 375); lra.
Qed.

Lemma nuke_blast_radius_witness :
  exists n0 w',
    Nuke.new hubCenter exampleWorld = Some (n0, w') /\
    Nuke.radius (Nat.iter (300 + 16) Nuke.update n0) = 75 /\
    Nuke.radius (Nat.iter (300 + 100) Nuke.update n0) = 375.
Proof.
  destruct freshNuke_new as (w' & Hnew). exists freshNuke, w'.
  split; [exact Hnew|].
  destruct (nuke_blast_radius hubCenter exampleWorld w' freshNuke 16 Hnew ltac:(lia))
    as (H16 & _).
  destruct (nuke_blast_radius hubCenter exampleWorld w' freshNuke 100 Hnew ltac:(lia))
    as (_ & _ & H100 & _).
  split.
  - rewrite H16. unfold Rmin. simpl INR.
    destruct (Rle_dec _ 375); lra.
  - apply H100. lia.
Defined.

(** ** Asteroid: reflection off the world boundary *)

Lemma Asteroid_new_shape (p v : Vec2.t) (l : bool) :
  post (Asteroid.new p v l)
       (fun a => Asteroid.position a = p /\ Asteroid.velocity a = v /\
                 Asteroid.radius a = (if l then 35 else 20) /\
                 Asteroid.lifetime a = 900%Z /\ Asteroid.active a = true /\
                 Asteroid.isLarge a = l).
Proof. unfold Asteroid.new. post_steps. apply post_ret. repeat split. Qed.

(** One axis of the bounce: the coordinate is clamped into the band and the
    velocity component keeps its magnitude. *)
Lemma bounce_axis (size r x v : R) :
  0 <= r -> 2 * r <= size ->
  let x' := if Rltb x r then r else if Rltb (size - r) x then size - r else x in
  let v' := if Rltb x r then Rabs v else if Rltb (size - r) x then - Rabs v else v in
  r <= x' <= size - r /\ Rabs v' = Rabs v /\
  (x < r -> 0 <= v') /\ (size - r < x -> v' <= 0) /\
  (r <= x <= size - r -> x' = x /\ v' = v).
Proof.
  intros Hr Hsize x' v'. subst x' v'.
  pose proof (Rabs_pos v) as Habs.
  destruct (Rltb x r) eqn:H1.
  - apply Rltb_true in H1. repeat split; try lra. apply Rabs_Rabsolu.
  - apply Rltb_false in H1. destruct (Rltb (size - r) x) eqn:H2.
    + apply Rltb_true in H2. repeat split; try lra.
      rewrite Rabs_Ropp. apply Rabs_Rabsolu.
    + apply Rltb_false in H2. repeat split; lra.
Qed.

Lemma Asteroid_update_step (a : Asteroid.t) :
  Asteroid.active a = true ->
  0 <= Asteroid.radius a -> 2 * Asteroid.radius a <= WORLD_HEIGHT ->
  let a' := Asteroid.update a in
  let r := Asteroid.radius a in
  (r <= Vec2.x (Asteroid.position a') <= WORLD_WIDTH - r /\
   r <= Vec2.y (Asteroid.position a') <= WORLD_HEIGHT - r) /\
  (Rabs (Vec2.x (Asteroid.velocity a')) = Rabs (Vec2.x (Asteroid.velocity a)) /\
   Rabs (Vec2.y (Asteroid.velocity a')) = Rabs (Vec2.y (Asteroid.velocity a))) /\
  Asteroid.radius a' = r /\ Asteroid.active a' = true /\
  Asteroid.lifetime a' = (Asteroid.lifetime a - 1)%Z.
Proof.
  destruct a as [i [px py] [vx vy] r l ml act rot rs lg so].
  cbn [Asteroid.active Asteroid.radius Asteroid.position Asteroid.velocity
       Asteroid.lifetime].
  intros -> Hr Hsize.
  assert (HsizeW : 2 * r <= WORLD_WIDTH) by (unfold WORLD_WIDTH, WORLD_HEIGHT in *; lra).
  destruct (bounce_axis WORLD_WIDTH r (px + vx) vx Hr HsizeW) as (Bx & Bvx & _).
  destruct (bounce_axis WORLD_HEIGHT r (py + vy) vy Hr Hsize) as (By & Bvy & _).
  cbv zeta in Bx, Bvx, By, Bvy.
  cbv beta iota zeta delta
    [Asteroid.update Asteroid.set_velocity Asteroid.set_position Asteroid.position
     Asteroid.velocity Asteroid.radius Asteroid.active Asteroid.lifetime
     Asteroid.id Asteroid.maxLifetime Asteroid.rotation Asteroid.rotationSpeed
     Asteroid.isLarge Asteroid.shapeOffsets negb Vec2.add Vec2.x Vec2.y
     Vec2.set_x Vec2.set_y].
  destruct (Rltb (px + vx) r); [|destruct (Rltb (WORLD_WIDTH - r) (px + vx))];
    (destruct (Rltb (py + vy) r); [|destruct (Rltb (WORLD_HEIGHT - r) (py + vy))]);
    repeat split; try reflexivity; try lra; try assumption.
Qed.

(** X4. Asteroids stay in the world.  For an asteroid created by
    [new Asteroid(p, v, isLarge)], wherever it is placed and however fast:
    after every update from the first on its centre lies at least one
    radius (20, or 35 when large) inside each world edge; each velocity
    component keeps its magnitude for ever (the reflection is elastic); and
    it is expired exactly from the 900th update on. *)
Theorem asteroid_stays_in_world (p v : Vec2.t) (l : bool) (w w' : World)
    (a : Asteroid.t) (n : nat) :
  Asteroid.new p v l w = Some (a, w') ->
  let a' := Nat.iter (S n) Asteroid.update a in
  let r := if l then 35 else 20 in
  r <= Vec2.x (Asteroid.position a') <= WORLD_WIDTH - r /\
  r <= Vec2.y (Asteroid.position a') <= WORLD_HEIGHT - r /\
  Rabs (Vec2.x (Asteroid.velocity a')) = Rabs (Vec2.x v) /\
  Rabs (Vec2.y (Asteroid.velocity a')) = Rabs (Vec2.y v) /\
  Asteroid.isExpired a' = (900 <=? S n)%nat.
Proof.
  intros Hnew a' r.
  destruct (Asteroid_new_shape p v l w a w' Hnew) as (Hp & Hv & Hr & Hl & Ha & _).
  assert (Hrpos : 0 <= r /\ 2 * r <= WORLD_HEIGHT).
  { subst r. unfold WORLD_HEIGHT. destruct l; lra. }
  assert (Hinv : forall k,
            Asteroid.radius (Nat.iter k Asteroid.update a) = r /\
            Asteroid.active (Nat.iter k Asteroid.update a) = true /\
            Asteroid.lifetime (Nat.iter k Asteroid.update a) = (900 - Z.of_nat k)%Z /\
            Rabs (Vec2.x (Asteroid.velocity (Nat.iter k Asteroid.update a))) = Rabs (Vec2.x v) /\
            Rabs (Vec2.y (Asteroid.velocity (Nat.iter k Asteroid.update a))) = Rabs (Vec2.y v)).
  { induction k as [|k (Ir & Ia & Il & Ivx & Ivy)].
    - cbn [Nat.iter nat_rect]. rewrite Hr, Hl, Hv. repeat split; assumption.
    - change (Nat.iter (S k) Asteroid.update a)
        with (Asteroid.update (Nat.iter k Asteroid.update a)).
      destruct (Asteroid_update_step (Nat.iter k Asteroid.update a) Ia)
        as (_ & (Svx & Svy) & Sr & Sa & Sl); try (rewrite Ir; tauto).
      cbv zeta in Svx, Svy, Sr, Sa, Sl.
      rewrite Sr, Svx, Svy, Sl, Il, Ir. repeat split; try assumption. lia. }
  destruct (Hinv n) as (Ir & Ia & _).
  destruct (Hinv (S n)) as (_ & _ & Il' & Ivx' & Ivy').
  destruct (Asteroid_update_step (Nat.iter n Asteroid.update a) Ia)
    as ((Bx & By) & _); try (rewrite Ir; tauto).
  cbv zeta in Bx, By. rewrite Ir in Bx, By.
  change (Asteroid.update (Nat.iter n Asteroid.update a)) with a' in Bx, By.
  fold a' in Il', Ivx', Ivy'.
  split; [exact Bx|]. split; [exact By|]. split; [exact Ivx'|]. split; [exact Ivy'|].
  unfold Asteroid.isExpired. rewrite Il'.
  destruct (900 <=? S n)%nat eqn:E.
  - apply Nat.leb_le in E. apply Z.leb_le. lia.
  - apply Nat.leb_gt in E. apply Z.leb_gt. lia.
Qed.

Lemma asteroid_stays_in_world_witness :
  exists a w',
    Asteroid.new (Vec2.mk 10 30) (Vec2.mk (-3) 2) true exampleWorld = Some (a, w') /\
    35 <= Vec2.x (Asteroid.position (Nat.iter 1 Asteroid.update a)) <= WORLD_WIDTH - 35 /\
    Asteroid.isExpired (Nat.iter 900 Asteroid.update a) = true.
Proof.
  destruct (Asteroid_new_returns (fun _ => True) (Vec2.mk 10 30) (Vec2.mk (-3) 2) true
              exampleWorld I) as (a & w' & Hnew & _).
  exists a, w'. split; [exact Hnew|].
  destruct (asteroid_stays_in_world _ _ _ _ _ _ 0 Hnew) as (H1 & _).
  destruct (asteroid_stays_in_world _ _ _ _ _ _ 899 Hnew) as (_ & _ & _ & _ & H900).
  split; [exact H1 | exact H900].
Defined.

(** ** SpeedBoostZone *)

Lemma SpeedBoostZone_new_shape (p : Vec2.t) (e : bool) (w w' : World)
    (z : SpeedBoostZone.t) :
  SpeedBoostZone.new p e w = Some (z, w') ->
  z = if e
      then SpeedBoostZone.mk (hazardIdCounter w) p 150 900%Z 900%Z true 2.0
      else SpeedBoostZone.mk (hazardIdCounter w) p 100 600%Z 600%Z true 1.5.
Proof.
  unfold SpeedBoostZone.new, bind, nextHazardId, ret. intro H. injection H as <- _.
  destruct e; reflexivity.
Qed.

Lemma SpeedBoostZone_after (z : SpeedBoostZone.t) (n : nat) :
  SpeedBoostZone.active z = true -> (0 < SpeedBoostZone.lifetime z)%Z ->
  let z' := Nat.iter n SpeedBoostZone.update z in
  SpeedBoostZone.position z' = SpeedBoostZone.position z /\
  SpeedBoostZone.radius z' = SpeedBoostZone.radius z /\
  SpeedBoostZone.boostMultiplier z' = SpeedBoostZone.boostMultiplier z /\
  SpeedBoostZone.lifetime z' = (SpeedBoostZone.lifetime z - Z.of_nat n)%Z /\
  SpeedBoostZone.active z' = (Z.of_nat n <? SpeedBoostZone.lifetime z)%Z.
Proof.
  intros Ha Hl. induction n as [|n (Ip & Ir & Im & Il & Iact)].
  - cbn [Nat.iter nat_rect]. repeat split; try lia.
    rewrite Ha. symmetry. apply Z.ltb_lt. exact Hl.
  - change (Nat.iter (S n) SpeedBoostZone.update z)
      with (SpeedBoostZone.update (Nat.iter n SpeedBoostZone.update z)).
    set (zn := Nat.iter n SpeedBoostZone.update z) in *.
    unfold SpeedBoostZone.update.
    cbn [SpeedBoostZone.position SpeedBoostZone.radius SpeedBoostZone.boostMultiplier
         SpeedBoostZone.lifetime SpeedBoostZone.active].
    rewrite Ip, Ir, Im, Il, Iact. repeat split; try lia.
    destruct (SpeedBoostZone.lifetime z - Z.of_nat n - 1 <=? 0)%Z eqn:E1.
    + apply Z.leb_le in E1. symmetry. apply Z.ltb_ge. lia.
    + apply Z.leb_gt in E1.
      replace (Z.of_nat n <? SpeedBoostZone.lifetime z)%Z with true
        by (symmetry; apply Z.ltb_lt; lia).
      symmetry. apply Z.ltb_lt. lia.
Qed.

(** X5. Boost zone presets and lifetime.  [new SpeedBoostZone(p, enhanced)]
    makes a zone of radius 100, multiplier 1.5 and 600 ticks, or, enhanced,
    radius 150, multiplier 2 and 900 ticks.  After [n] updates it is active
    exactly while [n] is below that lifetime and expired from then on, and
    it contains a point exactly while active and within its radius. *)
Theorem boost_zone_lifecycle (p : Vec2.t) (e : bool) (w w' : World)
    (z : SpeedBoostZone.t) (n : nat) (q : Vec2.t) :
  SpeedBoostZone.new p e w = Some (z, w') ->
  let z' := Nat.iter n SpeedBoostZone.update z in
  let life := if e then 900%nat else 600%nat in
  SpeedBoostZone.radius z' = (if e then 150 else 100) /\
  SpeedBoostZone.boostMultiplier z' = (if e then 2 else 1.5) /\
  SpeedBoostZone.active z' = (n <? life)%nat /\
  SpeedBoostZone.isExpired z' = (life <=? n)%nat /\
  SpeedBoostZone.contains z' q =
    ((n <? life)%nat && Rleb (Vec2.length (Vec2.sub p q)) (if e then 150 else 100)).
Proof.
  intros Hnew z' life. apply SpeedBoostZone_new_shape in Hnew.
  assert (Hz : SpeedBoostZone.active z = true /\
               SpeedBoostZone.lifetime z = Z.of_nat life /\
               SpeedBoostZone.position z = p /\
               SpeedBoostZone.radius z = (if e then 150 else 100) /\
               SpeedBoostZone.boostMultiplier z = (if e then 2 else 1.5)).
  { subst z life. destruct e; cbn; repeat split; lra. }
  destruct Hz as (Ha & Hl & Hp & Hr & Hm).
  destruct (SpeedBoostZone_after z n Ha) as (Ip & Ir & Im & Il & Iact).
  { rewrite Hl. subst life. destruct e; lia. }
  fold z' in Ip, Ir, Im, Il, Iact.
  assert (Hact : SpeedBoostZone.active z' = (n <? life)%nat).
  { rewrite Iact, Hl. destruct (n <? life)%nat eqn:E.
    - apply Nat.ltb_lt in E. apply Z.ltb_lt. lia.
    - apply Nat.ltb_ge in E. apply Z.ltb_ge. lia. }
  split; [rewrite Ir; exact Hr|]. split; [rewrite Im; exact Hm|].
  split; [exact Hact|]. split.
  - unfold SpeedBoostZone.isExpired. rewrite Il, Hl.
    destruct (life <=? n)%nat eqn:E.
    + apply Nat.leb_le in E. apply Z.leb_le. lia.
    + apply Nat.leb_gt in E. apply Z.leb_gt. lia.
  - unfold SpeedBoostZone.contains. rewrite Hact, Ip, Ir, Hp, Hr.
    destruct (n <? life)%nat; reflexivity.
Qed.

Lemma boost_zone_lifecycle_witness :
  exists z w',
    SpeedBoostZone.new hubCenter true exampleWorld = Some (z, w') /\
    SpeedBoostZone.contains (Nat.iter 899 SpeedBoostZone.update z) (Vec2.mk 700 400) = true /\
    SpeedBoostZone.contains (Nat.iter 900 SpeedBoostZone.update z) (Vec2.mk 700 400) = false.
Proof.
  destruct (SpeedBoostZone_new_returns (fun _ => True) hubCenter true exampleWorld I)
    as (z & w' & Hnew & _).
  exists z, w'. split; [exact Hnew|].
  destruct (boost_zone_lifecycle _ _ _ _ _ 899 (Vec2.mk 700 400) Hnew) as (_ & _ & _ & _ & C1).
  destruct (boost_zone_lifecycle _ _ _ _ _ 900 (Vec2.mk 700 400) Hnew) as (_ & _ & _ & _ & C2).
  split.
  - rewrite C1. rewrite Rleb_length_true; [reflexivity | lra | numerals].
  - rewrite C2. reflexivity.
Defined.

Lemma checkBoostZones_max (g : GridState.t) :
  let g' := GridState.checkBoostZones g in
  let b := Ship.speedBoost (GridState.ship g) in
  let b' := Ship.speedBoost (GridState.ship g') in
  let inside := fun z => SpeedBoostZone.contains z (Ship.position (GridState.ship g)) in
  g' = GridState.set_ship (Ship.set_speedBoost b' (GridState.ship g)) g /\
  b <= b' /\
  (forall z, In z (GridState.boostZones g) -> inside z = true ->
             SpeedBoostZone.boostMultiplier z <= b') /\
  (b' = b \/
   exists z, In z (GridState.boostZones g) /\ inside z = true /\
             b' = SpeedBoostZone.boostMultiplier z).
Proof.
  unfold GridState.checkBoostZones.
  generalize (GridState.boostZones g) as zones. intro zones.
  assert (Hgen : forall zones g0,
    GridState.set_ship (Ship.set_speedBoost (Ship.speedBoost (GridState.ship g0))
                                            (GridState.ship g)) g = g0 ->
    let g' := fold_left (fun g1 zone =>
                if SpeedBoostZone.contains zone (Ship.position (GridState.ship g1))
                then GridState.set_ship
                       (Ship.applySpeedBoost (SpeedBoostZone.boostMultiplier zone)
                                             (GridState.ship g1)) g1
                else g1) zones g0 in
    let b0 := Ship.speedBoost (GridState.ship g0) in
    let b' := Ship.speedBoost (GridState.ship g') in
    let inside := fun z => SpeedBoostZone.contains z (Ship.position (GridState.ship g)) in
    g' = GridState.set_ship (Ship.set_speedBoost b' (GridState.ship g)) g /\
    b0 <= b' /\
    (forall z, In z zones -> inside z = true -> SpeedBoostZone.boostMultiplier z <= b') /\
    (b' = b0 \/ exists z, In z zones /\ inside z = true /\
                          b' = SpeedBoostZone.boostMultiplier z)).
  { clear zones. induction zones as [|z zones IH]; intros g0 Hg0; cbn [fold_left]; cbv zeta.
    - split; [symmetry; exact Hg0|]. split; [lra|]. split; [intros z []|left; reflexivity].
    - assert (Hpos : Ship.position (GridState.ship g0) = Ship.position (GridState.ship g))
        by (rewrite <- Hg0; reflexivity).
      rewrite Hpos.
      destruct (SpeedBoostZone.contains z (Ship.position (GridState.ship g))) eqn:Hin.
      + match goal with
        | |- context [fold_left _ zones ?g1] => specialize (IH g1)
        end.
        cbv zeta in IH. destruct IH as (E & Hle & Hall & Hex).
        { rewrite <- Hg0. reflexivity. }
        cbn [GridState.ship GridState.set_ship Ship.applySpeedBoost Ship.speedBoost
             Ship.set_speedBoost] in Hle, Hex.
        split; [exact E|].
        pose proof (Rmax_l (Ship.speedBoost (GridState.ship g0))
                           (SpeedBoostZone.boostMultiplier z)) as Hl.
        pose proof (Rmax_r (Ship.speedBoost (GridState.ship g0))
                           (SpeedBoostZone.boostMultiplier z)) as Hr.
        split; [lra|]. split.
        * intros z0 [<-|Hz0] Hz0in; [lra | exact (Hall z0 Hz0 Hz0in)].
        * destruct Hex as [Hex|(z0 & Hz0 & Hz0in & Hz0b)].
          -- rewrite Hex. unfold Rmax.
             destruct (Rle_dec (Ship.speedBoost (GridState.ship g0))
                               (SpeedBoostZone.boostMultiplier z)).
             ++ right. exists z. split; [left; reflexivity|]. split; [exact Hin|reflexivity].
             ++ left. reflexivity.
          -- right. exists z0. split; [right; exact Hz0|]. split; assumption.
      + destruct (IH g0 Hg0) as (E & Hle & Hall & Hex). cbv zeta in *.
        split; [exact E|]. split; [exact Hle|]. split.
        * intros z0 [<-|Hz0] Hz0in; [congruence | exact (Hall z0 Hz0 Hz0in)].
        * destruct Hex as [Hex|(z0 & Hz0 & Hz0in & Hz0b)]; [left; exact Hex|].
          right. exists z0. split; [right; exact Hz0|]. split; assumption. }
  apply (Hgen zones g).
  destruct g as [o ip [sp sv sa spp spa sth srl srr sc sl stm sd sb scol] wh ob hz bz ps
                 ost nst bp lar amt ss go gt wn cb1 cb2 cb3].
  reflexivity.
Qed.

(** X6. Boost zones do not stack.  After [checkBoostZones] the ship's speed
    multiplier is the maximum of what it was and the multipliers of the
    zones that contain the ship: it is at least each of them and equal to
    one of them, never their sum; nothing else in the grid changes. *)
Theorem boost_zones_do_not_stack (g : GridState.t) :
  let g' := GridState.checkBoostZones g in
  let b := Ship.speedBoost (GridState.ship g) in
  let b' := Ship.speedBoost (GridState.ship g') in
  let inside := fun z => SpeedBoostZone.contains z (Ship.position (GridState.ship g)) in
  g' = GridState.set_ship (Ship.set_speedBoost b' (GridState.ship g)) g /\
  b <= b' /\
  (forall z, In z (GridState.boostZones g) -> inside z = true ->
             SpeedBoostZone.boostMultiplier z <= b') /\
  (b' = b \/
   exists z, In z (GridState.boostZones g) /\ inside z = true /\
             b' = SpeedBoostZone.boostMultiplier z).
Proof. exact (checkBoostZones_max g). Qed.

(** ** Ship cargo: slot discipline *)

Lemma findIndex_packed (pre : list OrbType) (k : nat) :
  findIndex Ship.isNull (map Some pre ++ repeat None (S k)) = Some (List.length pre).
Proof.
  induction pre as [|o pre IH]; [reflexivity|].
  cbn [map app findIndex Ship.isNull List.length]. rewrite IH. reflexivity.
Qed.

Lemma findIndex_packed_full (pre : list OrbType) :
  findIndex Ship.isNull (map Some pre ++ repeat None 0) = None.
Proof.
  induction pre as [|o pre IH]; [reflexivity|].
  cbn [map app findIndex Ship.isNull]. rewrite IH. reflexivity.
Qed.

Lemma setAt_packed (pre : list OrbType) (o : OrbType) (k : nat) :
  setAt (List.length pre) (Some o) (map Some pre ++ repeat None (S k)) =
  map Some (pre ++ [o]) ++ repeat None k.
Proof.
  induction pre as [|a pre IH]; [reflexivity|].
  cbn [map app setAt List.length]. f_equal. exact IH.
Qed.

Lemma collect_packed (l : list OrbType) (k : nat) :
  Ship.collect (map Some l ++ repeat None k) = l.
Proof.
  induction l as [|a l IH]; cbn [map app Ship.collect].
  - induction k as [|k IHk]; [reflexivity | exact IHk].
  - f_equal. exact IH.
Qed.

Lemma addAll_packed (l pre : list OrbType) (k : nat) (s : Ship.t) :
  Ship.cargo s = map Some pre ++ repeat None (List.length l + k) ->
  Ship.cargo (addAll l s) = map Some (pre ++ l) ++ repeat None k /\
  addAll l s = Ship.set_cargo (Ship.cargo (addAll l s)) s.
Proof.
  revert pre s. induction l as [|o l IH]; intros pre s Hc.
  - cbn [addAll fold_left]. rewrite app_nil_r. split; [exact Hc|]. destruct s; reflexivity.
  - change (addAll (o :: l) s) with (addAll l (snd (Ship.addCargo o s))).
    unfold Ship.addCargo.
    change (List.length (o :: l) + k)%nat with (S (List.length l + k)) in Hc.
    rewrite Hc, findIndex_packed, setAt_packed. cbn [snd].
    destruct (IH (pre ++ [o])
                 (Ship.set_cargo (map Some (pre ++ [o]) ++ repeat None (List.length l + k)) s))
      as (IH1 & IH2); [reflexivity|].
    rewrite <- app_assoc in IH1. cbn [app] in IH1.
    split; [exact IH1|]. rewrite IH2 at 1. destruct s; reflexivity.
Qed.

(** X7. Cargo round trip.  On a new ship, picking up a sequence of at most
    four orbs packs them into the first slots in pick-up order, and
    [clearCargo] hands back exactly that sequence and leaves the hold
    empty.  Pick-ups change nothing but the cargo, and a further pick-up
    succeeds exactly when fewer than four orbs are held; on a full hold it
    leaves the ship as it is. *)
Theorem cargo_round_trip (x0 y0 : R) (col : string) (l : list OrbType) :
  (List.length l <= MAX_CARGO_SLOTS)%nat ->
  let s := addAll l (Ship.new x0 y0 col) in
  Ship.getCargo s = map Some l ++ repeat None (MAX_CARGO_SLOTS - List.length l) /\
  s = Ship.set_cargo (Ship.getCargo s) (Ship.new x0 y0 col) /\
  Ship.getCargoCount s = List.length l /\
  fst (Ship.clearCargo s) = l /\
  Ship.isCargoEmpty (snd (Ship.clearCargo s)) = true /\
  (forall o, fst (Ship.addCargo o s) = negb (List.length l =? MAX_CARGO_SLOTS)%nat) /\
  (forall o, List.length l = MAX_CARGO_SLOTS -> Ship.addCargo o s = (false, s)).
Proof.
  intros Hlen s.
  destruct (addAll_packed l [] (MAX_CARGO_SLOTS - List.length l) (Ship.new x0 y0 col))
    as (Hc & Hs).
  { cbn [app map].
    replace (List.length l + (MAX_CARGO_SLOTS - List.length l))%nat with MAX_CARGO_SLOTS by lia.
    reflexivity. }
  cbn [app] in Hc. fold s in Hc, Hs. unfold Ship.getCargo.
  split; [exact Hc|]. split; [exact Hs|].
  assert (Hcount : Ship.getCargoCount s = List.length l).
  { unfold Ship.getCargoCount. rewrite <- collect_length, Hc, collect_packed. reflexivity. }
  split; [exact Hcount|]. split; [cbn [Ship.clearCargo fst]; rewrite Hc; apply collect_packed|].
  split.
  { unfold Ship.isCargoEmpty, Ship.getCargoCount, Ship.clearCargo.
    cbn [snd Ship.set_cargo Ship.cargo]. rewrite fill_null_count. reflexivity. }
  split.
  - intro o. unfold Ship.addCargo. rewrite Hc.
    destruct (MAX_CARGO_SLOTS - List.length l)%nat as [|k] eqn:Hk.
    + rewrite findIndex_packed_full. cbn [fst].
      replace (List.length l =? MAX_CARGO_SLOTS)%nat with true
        by (symmetry; apply Nat.eqb_eq; lia). reflexivity.
    + rewrite findIndex_packed. cbn [fst].
      replace (List.length l =? MAX_CARGO_SLOTS)%nat with false
        by (symmetry; apply Nat.eqb_neq; lia). reflexivity.
  - intros o Hfull. unfold Ship.addCargo. rewrite Hc.
    replace (MAX_CARGO_SLOTS - List.length l)%nat with 0%nat by lia.
    rewrite findIndex_packed_full. reflexivity.
Qed.

Lemma cargo_round_trip_witness :
  let s := addAll [GOLD; RED; GOLD] (Ship.new 600 600 PLAYER_COLOR) in
  Ship.getCargo s = [Some GOLD; Some RED; Some GOLD; None] /\
  fst (Ship.clearCargo s) = [GOLD; RED; GOLD].
Proof.
  assert (Hlen : (List.length [GOLD; RED; GOLD] <= MAX_CARGO_SLOTS)%nat)
    by (unfold MAX_CARGO_SLOTS; cbn; lia).
  destruct (cargo_round_trip 600 600 PLAYER_COLOR [GOLD; RED; GOLD] Hlen)
    as (H1 & _ & _ & H2 & _).
  split; [exact H1 | exact H2].
Defined.

(** X8. A picked-up orb goes into the lowest empty slot.  [addCargo]
    either finds the first slot that holds nothing, every slot before it
    being occupied, writes the orb there and changes nothing else, or, when
    every slot is occupied, returns false and leaves the ship as it is. *)
Theorem addCargo_lowest_empty_slot (o : OrbType) (s : Ship.t) :
  (exists i,
      nth_error (Ship.cargo s) i = Some None /\
      (forall j, (j < i)%nat -> exists held, nth_error (Ship.cargo s) j = Some (Some held)) /\
      Ship.addCargo o s = (true, Ship.set_cargo (setAt i (Some o) (Ship.cargo s)) s) /\
      nth_error (Ship.cargo (snd (Ship.addCargo o s))) i = Some (Some o) /\
      (forall j, j <> i ->
         nth_error (Ship.cargo (snd (Ship.addCargo o s))) j = nth_error (Ship.cargo s) j)) \/
  (Forall (fun slot => slot <> None) (Ship.cargo s) /\ Ship.addCargo o s = (false, s)).
Proof.
  unfold Ship.addCargo. destruct (findIndex Ship.isNull (Ship.cargo s)) as [i|] eqn:Hfind.
  - left. exists i. apply findIndex_some in Hfind.
    destruct Hfind as ((a & Ha & Hnull) & Hbefore).
    destruct a as [t|]; [discriminate|].
    split; [exact Ha|]. split.
    { intros j Hj.
      destruct (nth_error (Ship.cargo s) j) as [b|] eqn:Hb.
      - specialize (Hbefore j b Hj Hb). destruct b as [held|]; [|discriminate].
        exists held. reflexivity.
      - apply nth_error_None in Hb.
        assert (i < List.length (Ship.cargo s))%nat
          by (apply nth_error_Some; rewrite Ha; discriminate).
        lia. }
    split; [reflexivity|]. cbn [snd Ship.set_cargo Ship.cargo]. split.
    { apply nth_error_setAt with (a := None). exact Ha. }
    intros j Hji. clear Ha Hbefore Hnull. revert i j Hji.
    induction (Ship.cargo s) as [|b c IH]; intros [|i] [|j] Hji; cbn;
      try reflexivity; try congruence.
    apply IH. congruence.
  - right. split; [|reflexivity]. apply findIndex_none in Hfind.
    apply Forall_forall. intros slot Hin.
    rewrite forallb_forall in Hfind. specialize (Hfind slot Hin).
    destruct slot; [discriminate | discriminate].
Qed.

(** ** Vec2 *)

Lemma length_sq (v : Vec2.t) :
  Vec2.length v * Vec2.length v = Vec2.x v * Vec2.x v + Vec2.y v * Vec2.y v.
Proof. unfold Vec2.length. apply sqrt_sqrt. apply lengthSq_nonneg. Qed.

Lemma length_mul (v : Vec2.t) (k : R) :
  Vec2.length (Vec2.mul v k) = Rabs k * Vec2.length v.
Proof.
  apply length_of_square.
  - apply Rmult_le_pos; [apply Rabs_pos | apply length_nonneg].
  - cbn [Vec2.mul Vec2.x Vec2.y].
    replace (Rabs k * Vec2.length v * (Rabs k * Vec2.length v))
      with ((Rabs k * Rabs k) * (Vec2.length v * Vec2.length v)) by ring.
    rewrite length_sq. rewrite <- Rabs_mult, Rabs_right by nra. ring.
Qed.

Lemma length_normalize (v : Vec2.t) :
  Vec2.length v <> 0 -> Vec2.length (Vec2.normalize v) = 1.
Proof.
  intro Hne. unfold Vec2.normalize, Reqb.
  destruct (Req_dec_T (Vec2.length v) 0) as [H0|H0]; [contradiction|].
  apply length_of_square; [lra|].
  cbn [Vec2.div Vec2.x Vec2.y]. pose proof (length_sq v) as Hsq.
  field_simplify_eq; [|exact Hne]. lra.
Qed.

Lemma normalize_parallel (v : Vec2.t) :
  Vec2.length v <> 0 -> Vec2.mul (Vec2.normalize v) (Vec2.length v) = v.
Proof.
  intro Hne. unfold Vec2.normalize, Reqb.
  destruct (Req_dec_T (Vec2.length v) 0) as [H0|H0]; [contradiction|].
  destruct v as [a b]. unfold Vec2.mul, Vec2.div. cbn [Vec2.x Vec2.y].
  f_equal; field; exact Hne.
Qed.

Lemma vec2_clamp_facts (v : Vec2.t) (m : R) :
  0 <= m ->
  Vec2.length (Vec2.clamp v m) = Rmin (Vec2.length v) m /\
  (Vec2.length v <= m -> Vec2.clamp v m = v).
Proof.
  intro Hm. unfold Vec2.clamp. destruct (Rltb m (Vec2.length v)) eqn:Hlt.
  - apply Rltb_true in Hlt. split; [|lra].
    rewrite length_mul, length_normalize by lra.
    rewrite Rabs_right by lra. rewrite Rmin_right by lra. ring.
  - apply Rltb_false in Hlt. split; [|intros _; destruct v; reflexivity].
    rewrite Rmin_left by lra. reflexivity.
Qed.

(** X9. Unit vectors and the length cap.  [normalize] gives a vector of
    length one along the same direction, and the zero vector for the zero
    vector; [clamp] to a non-negative cap gives a vector whose length is
    the smaller of the original length and the cap, and returns a vector
    within the cap unchanged. *)
Theorem vec2_normalize_clamp (v : Vec2.t) (m : R) :
  (Vec2.length v <> 0 ->
     Vec2.length (Vec2.normalize v) = 1 /\
     Vec2.mul (Vec2.normalize v) (Vec2.length v) = v) /\
  (Vec2.length v = 0 -> Vec2.normalize v = Vec2.zero) /\
  (0 <= m -> Vec2.length (Vec2.clamp v m) = Rmin (Vec2.length v) m) /\
  (Vec2.length v <= m -> Vec2.clamp v m = v).
Proof.
  split; [intro Hne; split; [apply length_normalize | apply normalize_parallel]; exact Hne|].
  split.
  { intro H0. unfold Vec2.normalize, Reqb.
    destruct (Req_dec_T (Vec2.length v) 0); [reflexivity | contradiction]. }
  split.
  - intro Hm. apply vec2_clamp_facts. exact Hm.
  - intro Hle. unfold Vec2.clamp.
    rewrite (proj2 (Rltb_false m (Vec2.length v)) Hle). destruct v; reflexivity.
Qed.

Lemma vec2_normalize_clamp_witness :
  Vec2.length (Vec2.mk 3 4) <> 0 /\ 0 <= 2 /\
  Vec2.length (Vec2.normalize (Vec2.mk 3 4)) = 1 /\
  Vec2.length (Vec2.clamp (Vec2.mk 3 4) 2) = Rmin (Vec2.length (Vec2.mk 3 4)) 2.
Proof.
  assert (H5 : Vec2.length (Vec2.mk 3 4) = 5)
    by (apply length_of_square; [lra | cbn [Vec2.x Vec2.y]; lra]).
  destruct (vec2_normalize_clamp (Vec2.mk 3 4) 2) as (Hn & _ & Hc & _).
  split; [rewrite H5; lra|]. split; [lra|].
  split; [apply Hn; rewrite H5; lra | apply Hc; lra].
Defined.

(** ** Ship: speed cap and drag *)

Lemma wrapPosition_velocity (s : Ship.t) :
  Ship.velocity (Ship.wrapPosition s) = Ship.velocity s.
Proof.
  unfold Ship.wrapPosition.
  repeat match goal with |- context [if ?c then _ else _] => destruct c end;
    reflexivity.
Qed.

Lemma update_velocity (s : Ship.t) :
  Ship.isDead s = false ->
  Ship.velocity (Ship.update s) =
    Vec2.mul (Vec2.clamp (thrusted s) (SHIP_MAX_SPEED * Ship.speedBoost s)) SHIP_DRAG /\
  Ship.speedBoost (Ship.update s) = 1.
Proof.
  intro Halive. rewrite (update_unfold s Halive).
  destruct (0 <? Ship.invulnerabilityTimer (Ship.wrapPosition (moved s)))%Z;
    cbn [Ship.set_speedBoost Ship.set_invulnerabilityTimer Ship.velocity Ship.speedBoost];
    rewrite wrapPosition_velocity; (split; [reflexivity | lra]).
Qed.

(** X10. Speed cap and drag.  After an update a living ship moves at no
    more than 0.992 times 5 times its speed multiplier, whatever its speed
    was before, and its multiplier is back to 1, so a boost lasts one
    update unless it is applied again.  A ship within the cap that is not
    thrusting keeps its heading and loses exactly 0.8 percent of its
    speed. *)
Theorem ship_speed_cap (s : Ship.t) :
  Ship.isDead s = false -> 0 <= Ship.speedBoost s ->
  Vec2.length (Ship.velocity (Ship.update s)) <=
    SHIP_DRAG * (SHIP_MAX_SPEED * Ship.speedBoost s) /\
  Ship.speedBoost (Ship.update s) = 1 /\
  (Ship.thrusting s = false ->
   Vec2.length (Ship.velocity s) <= SHIP_MAX_SPEED * Ship.speedBoost s ->
   Ship.velocity (Ship.update s) = Vec2.mul (Ship.velocity s) SHIP_DRAG /\
   Vec2.length (Ship.velocity (Ship.update s)) = SHIP_DRAG * Vec2.length (Ship.velocity s)).
Proof.
  intros Halive Hboost. destruct (update_velocity s Halive) as (Hv & Hb).
  assert (Hcap : 0 <= SHIP_MAX_SPEED * Ship.speedBoost s)
    by (unfold SHIP_MAX_SPEED; lra).
  destruct (vec2_clamp_facts (thrusted s) _ Hcap) as (Hlen & Hid).
  split.
  - rewrite Hv, length_mul, Hlen. unfold SHIP_DRAG. rewrite Rabs_right by lra.
    apply Rmult_le_compat_l; [lra | apply Rmin_r].
  - split; [exact Hb|]. intros Hth Hslow. rewrite Hv.
    assert (Hcoast : thrusted s = Ship.velocity s) by (unfold thrusted; rewrite Hth; reflexivity).
    rewrite Hcoast in Hid |- *. rewrite (Hid Hslow). split; [reflexivity|].
    rewrite length_mul. unfold SHIP_DRAG. rewrite Rabs_right by lra. reflexivity.
Qed.

Lemma ship_speed_cap_witness :
  let s := Ship.set_velocity (Vec2.mk 30 40) (Ship.new 600 600 PLAYER_COLOR) in
  Vec2.length (Ship.velocity (Ship.update s)) <= SHIP_DRAG * (SHIP_MAX_SPEED * Ship.speedBoost s).
Proof.
  apply (ship_speed_cap (Ship.set_velocity (Vec2.mk 30 40) (Ship.new 600 600 PLAYER_COLOR))).
  - reflexivity.
  - cbn. lra.
Defined.

(** ** SeekerDrone: pursuit *)







(** ** Orb: the spawn distribution *)

(** X12. Orb rarity.  [Orb.getRandomType] consumes one random number [r]
    and answers RED for [r <= 0.40], BLUE up to 0.75, GREEN up to 0.95 and
    GOLD up to 1; the RED fallback after the loop is reached only for a
    draw above 1, which [Math.random()] never yields. *)
Theorem orb_rarity (w : World) :
  let r := randoms w (cursor w) in
  exists ty w',
    Orb.getRandomType w = Some (ty, w') /\
    cursor w' = S (cursor w) /\ orbNextId w' = orbNextId w /\
    (r <= 0.40 -> ty = RED) /\
    (0.40 < r <= 0.75 -> ty = BLUE) /\
    (0.75 < r <= 0.95 -> ty = GREEN) /\
    (0.95 < r <= 1 -> ty = GOLD) /\
    (1 < r -> ty = RED).
Proof.
  intro r. unfold Orb.getRandomType, bind, random, ret. fold r.
  eexists. eexists. split; [reflexivity|]. cbn [cursor orbNextId].
  split; [reflexivity|]. split; [reflexivity|].
  unfold ORB_SPAWN_WEIGHTS, Orb.pick.
  destruct (Rleb r (0 + 0.40)) eqn:H1;
    [apply Rleb_true in H1 | apply Rleb_false in H1;
     destruct (Rleb r (0 + 0.40 + 0.35)) eqn:H2;
       [apply Rleb_true in H2 | apply Rleb_false in H2;
        destruct (Rleb r (0 + 0.40 + 0.35 + 0.20)) eqn:H3;
          [apply Rleb_true in H3 | apply Rleb_false in H3;
           destruct (Rleb r (0 + 0.40 + 0.35 + 0.20 + 0.05)) eqn:H4;
             [apply Rleb_true in H4 | apply Rleb_false in H4]]]];
    repeat split; intros; try reflexivity; lra.
Qed.

(** ** ParticleSystem *)

Lemma stepParticle_life (n : nat) (p : ParticleSystem.Particle) :
  ParticleSystem.life (Nat.iter n ParticleSystem.stepParticle p) =
  (ParticleSystem.life p - Z.of_nat n)%Z.
Proof.
  induction n as [|n IH]; [cbn; lia|].
  change (Nat.iter (S n) ParticleSystem.stepParticle p)
    with (ParticleSystem.stepParticle (Nat.iter n ParticleSystem.stepParticle p)).
  unfold ParticleSystem.stepParticle at 1. cbn [ParticleSystem.life]. rewrite IH. lia.
Qed.

Lemma particles_after (n : nat) (ps : ParticleSystem.t) :
  ParticleSystem.particles (Nat.iter n ParticleSystem.update ps) =
  map (Nat.iter n ParticleSystem.stepParticle)
      (filter (fun p => (n =? 0)%nat || (Z.of_nat n <? ParticleSystem.life p)%Z)
              (ParticleSystem.particles ps)).
Proof.
  induction n as [|n IH].
  - cbn [Nat.iter nat_rect Nat.eqb orb].
    assert (Hall : forall l : list ParticleSystem.Particle, filter (fun _ => true) l = l).
    { induction l as [|a l IHl]; [reflexivity | cbn; now rewrite IHl]. }
    rewrite Hall. symmetry. apply map_id.
  - change (Nat.iter (S n) ParticleSystem.update ps)
      with (ParticleSystem.update (Nat.iter n ParticleSystem.update ps)).
    unfold ParticleSystem.update at 1. cbn [ParticleSystem.particles]. rewrite IH.
    cbn [Nat.eqb orb]. clear IH.
    induction (ParticleSystem.particles ps) as [|a l IHl]; [reflexivity|].
    cbn [filter].
    destruct ((n =? 0)%nat || (Z.of_nat n <? ParticleSystem.life a)%Z) eqn:Hkeep.
    + cbn [map filter].
      change (ParticleSystem.stepParticle (Nat.iter n ParticleSystem.stepParticle a))
        with (Nat.iter (S n) ParticleSystem.stepParticle a).
      rewrite stepParticle_life.
      destruct (Z.of_nat (S n) <? ParticleSystem.life a)%Z eqn:Hlive.
      * apply Z.ltb_lt in Hlive.
        replace (ParticleSystem.life a - Z.of_nat (S n) <=? 0)%Z with false
          by (symmetry; apply Z.leb_gt; lia).
        cbn [negb map]. f_equal. exact IHl.
      * apply Z.ltb_ge in Hlive.
        replace (ParticleSystem.life a - Z.of_nat (S n) <=? 0)%Z with true
          by (symmetry; apply Z.leb_le; lia).
        cbn [negb]. exact IHl.
    + apply orb_false_iff in Hkeep. destruct Hkeep as (_ & Hdead).
      apply Z.ltb_ge in Hdead.
      replace (Z.of_nat (S n) <? ParticleSystem.life a)%Z with false
        by (symmetry; apply Z.ltb_ge; lia).
      exact IHl.
Qed.

(** X13. Particles drain.  After [n] updates, [n] at least 1, the system
    holds exactly the particles whose life was above [n], each stepped [n]
    times and in their original order; so the count never grows under
    updates, and once [n] reaches the longest life the system is empty. *)
Theorem particles_drain (ps : ParticleSystem.t) (n : nat) :
  let ps' := Nat.iter (S n) ParticleSystem.update ps in
  ParticleSystem.particles ps' =
    map (Nat.iter (S n) ParticleSystem.stepParticle)
        (filter (fun p => (Z.of_nat (S n) <? ParticleSystem.life p)%Z)
                (ParticleSystem.particles ps)) /\
  (ParticleSystem.getCount ps' <= ParticleSystem.getCount ps)%nat /\
  (Forall (fun p => (ParticleSystem.life p <= Z.of_nat (S n))%Z)
          (ParticleSystem.particles ps) ->
   ParticleSystem.getCount ps' = 0%nat).
Proof.
  intro ps'. pose proof (particles_after (S n) ps) as H. fold ps' in H.
  cbn [Nat.eqb orb] in H. split; [exact H|]. unfold ParticleSystem.getCount. split.
  - rewrite H, length_map. apply filter_length_le.
  - intro Hall. rewrite H, length_map. clear H.
    induction (ParticleSystem.particles ps) as [|a l IHl]; [reflexivity|].
    inversion Hall as [|a0 l0 Ha Hl]; subst. cbn [filter].
    replace (Z.of_nat (S n) <? ParticleSystem.life a)%Z with false
      by (symmetry; apply Z.ltb_ge; lia).
    apply IHl. exact Hl.
Qed.

Lemma particles_drain_witness :
  let p := ParticleSystem.mkParticle hubCenter (Vec2.mk 1 0) 2%Z 2%Z 3 "#ff6600" 1 in
  ParticleSystem.getCount (Nat.iter 2 ParticleSystem.update (ParticleSystem.mk [p; p])) = 0%nat.
Proof.
  intro p. apply (particles_drain (ParticleSystem.mk [p; p]) 1).
  repeat constructor; cbn; lia.
Defined.

(** ** GridState: incoming attacks *)

(** X14. Incoming attacks.  [spawnAttack] appends the attack's hazards and
    boost zones after the ones the grid already has, in order; every drone
    among them arrives aimed at this grid's own ship, whatever it was aimed
    at before, and every other hazard arrives unchanged.  The ship and the
    orbs are untouched, the attack message is shown for 180 ticks and the
    screen shake is 20 for a tier of 3 or more, 10 for tier 2 and 5
    below. *)
Theorem spawnAttack_delivers (r : AttackResult.t) (sourceOwner : GridOwner)
    (g : GridState.t) :
  let g' := GridState.spawnAttack r sourceOwner g in
  (exists incoming,
      GridState.hazards g' = GridState.hazards g ++ incoming /\
      List.length incoming = List.length (AttackResult.hazards r) /\
      (forall i h, nth_error (AttackResult.hazards r) i = Some h ->
         nth_error incoming i =
           Some (match h with
                 | HSeeker d => HSeeker (SeekerDrone.setTarget (GridState.owner g) d)
                 | _ => h
                 end)) /\
      (forall d, In (HSeeker d) incoming ->
         SeekerDrone.targetShip d = Some (GridState.owner g))) /\
  GridState.boostZones g' = GridState.boostZones g ++ AttackResult.boostZones r /\
  GridState.ship g' = GridState.ship g /\
  GridState.orbs g' = GridState.orbs g /\
  GridState.gameOver g' = GridState.gameOver g /\
  GridState.attackMessageTimer g' = 180%Z /\
  GridState.screenShake g' =
    (match AttackResult.tier r with
     | TIER_3 | TIER_4 => 20
     | TIER_2 => 10
     | TIER_1 | TIER_1_5 => 5
     end).
Proof.
  intro g'. split.
  - eexists. split; [reflexivity|]. split; [apply length_map|]. split.
    + intros i h Hh. rewrite nth_error_map, Hh. reflexivity.
    + intros d Hin. apply in_map_iff in Hin. destruct Hin as (h & Hh & _).
      destruct h as [a|d0|m|n]; try discriminate.
      injection Hh as <-. reflexivity.
  - repeat split; try reflexivity.
    subst g'. unfold GridState.spawnAttack. cbn [GridState.screenShake GridState.set_screenShake].
    unfold GridState.shakeForTier.
    destruct (AttackResult.tier r); unfold tierValue;
      repeat match goal with
             | |- context [Rleb ?a ?b] =>
                 first [ rewrite (proj2 (Rleb_true a b)) by lra
                       | rewrite (proj2 (Rleb_false a b)) by lra ]
             end; reflexivity.
Qed.

(** ** GridState: one update *)

Lemma sameHazards_refl (g : GridState.t) : sameHazards g g.
Proof. repeat split. Qed.

Lemma sameHazards_trans (g3 g2 g1 : GridState.t) :
  sameHazards g3 g2 -> sameHazards g2 g1 -> sameHazards g3 g1.
Proof.
  intros (A1 & A2 & A3) (B1 & B2 & B3).
  repeat split; etransitivity; eassumption.
Qed.

Lemma spawnOrbLoop_frame attempts g :
  post (GridState.spawnOrbLoop attempts g)
       (fun g' => sameHazards g' g /\ GridState.ship g' = GridState.ship g).
Proof.
  induction attempts as [|n IH]; simpl.
  - apply post_ret. repeat split.
  - do 2 (apply post_bind_any; intro).
    destruct (Rleb _ _); [|exact IH].
    destruct (negb _); [|exact IH].
    do 2 (apply post_bind_any; intro). apply post_ret. repeat split.
Qed.

Lemma updateOrbSpawning_frame g :
  post (GridState.updateOrbSpawning g)
       (fun g' => sameHazards g' g /\ GridState.ship g' = GridState.ship g).
Proof.
  unfold GridState.updateOrbSpawning.
  destruct (_ <=? _)%nat; [apply post_ret; repeat split|]. cbv zeta.
  destruct (Rleb _ _); [|apply post_ret; repeat split].
  eapply post_bind; [apply spawnOrbLoop_frame|]. intros g2 ((H1 & H2 & H3) & H4).
  apply post_bind_any. intro r. apply post_ret.
  repeat split; cbn; assumption.
Qed.

Lemma takeDamage_outcome (s : Ship.t) :
  let s' := snd (Ship.takeDamage s) in
  Ship.position s' = Ship.position s /\
  (s' = s \/ (Ship.isInvulnerable s = false /\ lostLife s' s)).
Proof.
  unfold Ship.takeDamage.
  destruct (Ship.isInvulnerable s) eqn:Hinv; cbn [orb];
    [split; [reflexivity | left; reflexivity]|].
  destruct (Ship.isDead s) eqn:Hdead; [split; [reflexivity | left; reflexivity]|].
  cbv zeta.
  assert (Hcount : forall s0, Ship.getCargoCount (snd (Ship.clearCargo s0)) = 0%nat).
  { intro s0. unfold Ship.getCargoCount, Ship.clearCargo.
    cbn [snd Ship.set_cargo Ship.cargo]. rewrite fill_null_count. reflexivity. }
  match goal with |- context [if ?c then _ else _] => destruct c eqn:Hlives end;
    cbn [snd]; (split; [reflexivity|]); right; (split; [reflexivity|]);
    unfold lostLife; repeat split; try reflexivity; try exact Hdead;
    try (apply (Hcount _)).
  - cbn in Hlives |- *. rewrite Hlives. reflexivity.
  - cbn in Hlives |- *. rewrite Hlives. exact Hdead.
Qed.

Lemma handleShipHit_frame hazard g :
  post (GridState.handleShipHit hazard g)
       (fun g' => sameHazards g' g /\
                  GridState.ship g' = snd (Ship.takeDamage (GridState.ship g))).
Proof.
  unfold GridState.handleShipHit. apply post_bind_any. intro ps1. cbv zeta.
  cbn [GridState.ship GridState.set_screenShake GridState.set_particles].
  destruct (Ship.takeDamage (GridState.ship g)) as [died ship1].
  destruct died; [|apply post_ret; repeat split].
  do 3 (apply post_bind_any; intro). apply post_ret. repeat split.
Qed.

Lemma checkCollisions_frame g :
  post (GridState.checkCollisions g)
       (fun g' =>
          sameHazards g' g /\
          Ship.position (GridState.ship g') = Ship.position (GridState.ship g) /\
          (unhurt (GridState.ship g') (GridState.ship g) \/
           (Ship.isInvulnerable (GridState.ship g) = false /\
            lostLife (GridState.ship g') (GridState.ship g)))).
Proof.
  unfold GridState.checkCollisions.
  eapply post_bind.
  { apply post_forEachM
      with (Inv := fun g0 => sameHazards g0 g /\
                             GridState.ship g0 =
                               Ship.set_cargo (Ship.cargo (GridState.ship g0)) (GridState.ship g)).
    - intros [id orb] g0 (H0 & Hs0).
      destruct (Orb.collidesWith _ _ _); [|apply post_ret; split; assumption].
      unfold Ship.addCargo.
      destruct (findIndex Ship.isNull (Ship.cargo (GridState.ship g0))) as [slot|].
      + cbv zeta. apply post_bind_any. intro ps1. apply post_ret. split.
        * eapply sameHazards_trans; [|exact H0]. repeat split.
        * cbn [GridState.ship GridState.set_orbs GridState.set_particles GridState.set_ship
               Ship.cargo Ship.set_cargo]. rewrite Hs0. reflexivity.
      + apply post_ret. split; [exact H0|]. cbn [GridState.ship GridState.set_ship].
        exact Hs0.
    - split; [apply sameHazards_refl|]. destruct (GridState.ship g); reflexivity. }
  intros g1 (H1 & Hs1). cbv beta.
  assert (Hpos : Ship.position (GridState.ship g1) = Ship.position (GridState.ship g))
    by (rewrite Hs1; reflexivity).
  assert (Hl : Ship.lives (GridState.ship g1) = Ship.lives (GridState.ship g))
    by (rewrite Hs1; reflexivity).
  assert (Hd : Ship.isDead (GridState.ship g1) = Ship.isDead (GridState.ship g))
    by (rewrite Hs1; reflexivity).
  assert (Hi : Ship.isInvulnerable (GridState.ship g1) = Ship.isInvulnerable (GridState.ship g))
    by (rewrite Hs1; reflexivity).
  assert (Hstay : sameHazards g1 g /\
                  Ship.position (GridState.ship g1) = Ship.position (GridState.ship g) /\
                  (unhurt (GridState.ship g1) (GridState.ship g) \/
                   (Ship.isInvulnerable (GridState.ship g) = false /\
                    lostLife (GridState.ship g1) (GridState.ship g)))).
  { split; [exact H1|]. split; [exact Hpos|]. left. split; assumption. }
  destruct (negb _); [|apply post_ret; exact Hstay].
  destruct (find _ _) as [hazard|]; [|apply post_ret; exact Hstay].
  eapply post_weaken; [apply handleShipHit_frame|].
  intros g2 (H2 & Hs2).
  destruct (takeDamage_outcome (GridState.ship g1)) as (Hp2 & Hcase).
  cbv zeta in Hp2, Hcase. rewrite <- Hs2 in Hp2, Hcase.
  split; [exact (sameHazards_trans _ _ _ H2 H1)|].
  split; [rewrite Hp2; exact Hpos|].
  destruct Hcase as [Hsame|(Hinv & Hdead & Hlives & Htimer & Hcargo & Hdead')].
  - left. rewrite Hsame. split; assumption.
  - right. split; [rewrite <- Hi; exact Hinv|].
    unfold lostLife. rewrite <- Hd, <- Hl. repeat split; assumption.
Qed.

Lemma checkBoostZones_frame (g : GridState.t) :
  sameHazards (GridState.checkBoostZones g) g /\
  GridState.ship (GridState.checkBoostZones g) =
    Ship.set_speedBoost (Ship.speedBoost (GridState.ship (GridState.checkBoostZones g)))
                        (GridState.ship g).
Proof.
  destruct (checkBoostZones_max g) as (H & _). cbv zeta in H.
  split; rewrite H at 1; repeat split.
Qed.

Lemma update_post (others : ShipRef -> Ship.t) (g : GridState.t) :
  GridState.gameOver g = false ->
  post (GridState.update others g)
       (fun g' =>
          GridState.hazards g' =
            filter keptHazard (map (HazardOps.update (shipsSeenBy others g))
                                   (GridState.hazards g)) /\
          GridState.boostZones g' =
            filter keptZone (map SpeedBoostZone.update (GridState.boostZones g)) /\
          GridState.gameOver g' = Ship.isDead (GridState.ship g') /\
          (unhurt (GridState.ship g') (GridState.ship g) \/
           ((Ship.invulnerabilityTimer (GridState.ship g) <= 1)%Z /\
            lostLife (GridState.ship g') (GridState.ship g)))).
Proof.
  intro Hover. unfold GridState.update. rewrite Hover. cbv zeta.
  apply post_bind_any. intros [].
  match goal with
  | |- post (bind (GridState.updateOrbSpawning ?x) _) _ => set (g5 := x)
  end.
  eapply post_bind; [apply updateOrbSpawning_frame|]. intros g6 ((A6 & B6 & C6) & S6).
  eapply post_bind; [apply checkCollisions_frame|].
  intros g7 ((A7 & B7 & C7) & _ & S7).
  apply post_bind_any. intro hub.
  destruct (checkBoostZones_frame g7) as ((A8 & B8 & C8) & S8).
  set (g8 := GridState.checkBoostZones g7) in *.
  match goal with
  | |- post (if ?c then ret (GridState.handleGameOver ?x) else ret ?x) _ => set (g14 := x)
  end.
  assert (F14 : GridState.hazards g14 = filter keptHazard (GridState.hazards g8) /\
                GridState.boostZones g14 = filter keptZone (GridState.boostZones g8) /\
                GridState.gameOver g14 = GridState.gameOver g8 /\
                GridState.ship g14 = GridState.ship g8).
  { subst g14.
    repeat match goal with |- context [if ?c then _ else _] => destruct c end;
      repeat split. }
  destruct F14 as (A14 & B14 & C14 & S14).
  (* the ship through the update *)
  set (s0 := GridState.ship g) in *.
  assert (S5 : GridState.ship g5 = Ship.update (Ship.savePreviousState s0)) by reflexivity.
  destruct (update_lives (Ship.savePreviousState s0)) as (L5 & D5 & _ & T5).
  change (Ship.lives (Ship.savePreviousState s0)) with (Ship.lives s0) in L5.
  change (Ship.isDead (Ship.savePreviousState s0)) with (Ship.isDead s0) in D5, T5.
  change (Ship.invulnerabilityTimer (Ship.savePreviousState s0))
    with (Ship.invulnerabilityTimer s0) in T5.
  rewrite <- S5, <- S6 in L5, D5, T5.
  assert (Hship : unhurt (GridState.ship g14) s0 \/
                  ((Ship.invulnerabilityTimer s0 <= 1)%Z /\
                   lostLife (GridState.ship g14) s0)).
  { rewrite S14, S8.
    destruct S7 as [(L7 & D7)|(I7 & D7 & L7 & T7 & K7 & E7)].
    - left. split; cbn [Ship.lives Ship.isDead Ship.set_speedBoost]; congruence.
    - right. split.
      + unfold Ship.isInvulnerable in I7. apply Z.ltb_ge in I7.
        rewrite D5 in D7. rewrite T5, D7 in I7.
        destruct (0 <? Ship.invulnerabilityTimer s0)%Z eqn:E; [lia|].
        apply Z.ltb_ge in E. lia.
      + unfold lostLife.
        cbn [Ship.lives Ship.isDead Ship.set_speedBoost Ship.invulnerabilityTimer].
        unfold Ship.getCargoCount in *. cbn [Ship.cargo Ship.set_speedBoost].
        repeat split; congruence. }
  assert (Hhaz : GridState.hazards g14 =
                 filter keptHazard (map (HazardOps.update (shipsSeenBy others g))
                                        (GridState.hazards g))).
  { rewrite A14, A8, A7, A6. reflexivity. }
  assert (Hzones : GridState.boostZones g14 =
                   filter keptZone (map SpeedBoostZone.update (GridState.boostZones g))).
  { rewrite B14, B8, B7, B6. reflexivity. }
  assert (Hgo : GridState.gameOver g14 = false).
  { rewrite C14, C8, C7, C6. exact Hover. }
  rewrite Hgo. cbn [negb]. rewrite andb_true_r.
  destruct (Ship.isDead (GridState.ship g14)) eqn:Hdead; apply post_ret.
  - cbn [GridState.handleGameOver GridState.set_gameOver GridState.hazards
         GridState.boostZones GridState.gameOver GridState.ship].
    rewrite Hdead. repeat split; assumption.
  - rewrite Hdead, Hgo. repeat split; assumption.
Qed.

(** X15. Clean-up at the end of a grid update.  A grid that is not game
    over ends its update with exactly the hazards it started with, each
    updated once (a drone against the ships as they stand once the grid's
    own ship has moved), minus those now expired or inactive, in the same
    order; and likewise for the boost zones.  So the update creates no
    hazard, leaves no expired or inactive one behind, and does not remove a
    hazard because it hit the ship. *)
Theorem grid_update_cleanup (others : ShipRef -> Ship.t) (g : GridState.t) (w : World)
    (h : Wormhole.t) :
  nth_error (wormholes w) (GridState.wormhole g) = Some h ->
  GridState.gameOver g = false ->
  handlersReturn g ->
  yields (GridState.update others g) w
    (fun g' _ =>
       GridState.hazards g' =
         filter keptHazard (map (HazardOps.update (shipsSeenBy others g))
                                (GridState.hazards g)) /\
       GridState.boostZones g' =
         filter keptZone (map SpeedBoostZone.update (GridState.boostZones g)) /\
       Forall (fun x => HazardOps.active x = true /\ HazardOps.isExpired x = false)
              (GridState.hazards g') /\
       Forall (fun z => SpeedBoostZone.active z = true /\ SpeedBoostZone.isExpired z = false)
              (GridState.boostZones g') /\
       (List.length (GridState.hazards g') <= List.length (GridState.hazards g))%nat).
Proof.
  intros Hhub Hover Hh.
  destruct (update_hub others g w h Hhub Hover Hh) as (g' & w' & Hrun & _).
  exists g', w'. split; [exact Hrun|].
  destruct (update_post others g Hover w g' w' Hrun) as (Hhaz & Hzones & _).
  split; [exact Hhaz|]. split; [exact Hzones|]. split; [|split].
  - rewrite Hhaz. apply Forall_forall. intros x Hx. apply filter_In in Hx.
    destruct Hx as (_ & Hk). unfold keptHazard in Hk. apply andb_true_iff in Hk.
    destruct Hk as (He & Ha). split; [exact Ha|]. apply negb_true_iff. exact He.
  - rewrite Hzones. apply Forall_forall. intros z Hz. apply filter_In in Hz.
    destruct Hz as (_ & Hk). unfold keptZone in Hk. apply andb_true_iff in Hk.
    destruct Hk as (He & Ha). split; [exact Ha|]. apply negb_true_iff. exact He.
  - rewrite Hhaz. etransitivity; [apply filter_length_le|]. rewrite length_map. lia.
Qed.

Lemma grid_update_cleanup_witness :
  let spent := HMine (Mine.mk 7%Z hubCenter Vec2.zero 10 60 1%Z 1800%Z 0%Z true true 0) in
  let g := GridState.set_hazards [spent] (exampleGrid (Ship.new 600 600 PLAYER_COLOR)) in
  yields (GridState.update (fun _ => Ship.new 0 0 PLAYER_COLOR) g) exampleWorld
    (fun g' _ => GridState.hazards g' = []).
Proof.
  intros spent g.
  destruct (grid_update_cleanup (fun _ => Ship.new 0 0 PLAYER_COLOR) g exampleWorld
              Wormhole.new) as (g' & w' & Hrun & Hhaz & _).
  - reflexivity.
  - reflexivity.
  - split; intros f x Hf; discriminate.
  - exists g', w'. split; [exact Hrun|]. rewrite Hhaz. reflexivity.
Defined.

(** X16. At most one hit per update.  A grid that is not game over ends its
    update either with the ship's lives and death flag as they were, or
    with exactly one life fewer; in that case the ship was alive, its
    invulnerability had at most one tick left, it is now invulnerable for
    180 ticks, its hold is empty, and it is dead exactly when no life is
    left.  Afterwards the grid is game over exactly when its ship is
    dead. *)
Theorem grid_update_one_hit (others : ShipRef -> Ship.t) (g : GridState.t) (w : World)
    (h : Wormhole.t) :
  nth_error (wormholes w) (GridState.wormhole g) = Some h ->
  GridState.gameOver g = false ->
  handlersReturn g ->
  yields (GridState.update others g) w
    (fun g' _ =>
       GridState.gameOver g' = Ship.isDead (GridState.ship g') /\
       (unhurt (GridState.ship g') (GridState.ship g) \/
        ((Ship.invulnerabilityTimer (GridState.ship g) <= 1)%Z /\
         lostLife (GridState.ship g') (GridState.ship g)))).
Proof.
  intros Hhub Hover Hh.
  destruct (update_hub others g w h Hhub Hover Hh) as (g' & w' & Hrun & _).
  exists g', w'. split; [exact Hrun|].
  destruct (update_post others g Hover w g' w' Hrun) as (_ & _ & Hgo & Hship).
  split; assumption.
Qed.

Lemma grid_update_one_hit_witness :
  let g := exampleGrid (Ship.new 600 600 PLAYER_COLOR) in
  yields (GridState.update (fun _ => Ship.new 0 0 PLAYER_COLOR) g) exampleWorld
    (fun g' _ => GridState.gameOver g' = Ship.isDead (GridState.ship g')).
Proof.
  intro g.
  destruct (grid_update_one_hit (fun _ => Ship.new 0 0 PLAYER_COLOR) g exampleWorld
              Wormhole.new) as (g' & w' & Hrun & Hgo & _).
  - reflexivity.
  - reflexivity.
  - split; intros f x Hf; discriminate.
  - exists g', w'. split; [exact Hrun | exact Hgo].
Defined.

(** ** Bullet *)

Ltac case_Rltb :=
  match goal with
  | |- context [Rltb ?a ?b] =>
      let H := fresh "H" in
      destruct (Rltb a b) eqn:H; [apply Rltb_true in H | apply Rltb_false in H]
  end.

Lemma length_fromAngle (a : R) : Vec2.length (Vec2.fromAngle a) = 1.
Proof.
  apply length_of_square; [lra|]. cbn [Vec2.fromAngle Vec2.x Vec2.y].
  pose proof (sin2_cos2 a) as H. unfold Rsqr in H. lra.
Qed.

Lemma Bullet_update_active (b : Bullet.t) :
  Bullet.active b = true ->
  Bullet.velocity (Bullet.update b) = Bullet.velocity b /\
  Bullet.id (Bullet.update b) = Bullet.id b /\
  Bullet.lifetime (Bullet.update b) = (Bullet.lifetime b - 1)%Z /\
  Bullet.active (Bullet.update b) = negb (Bullet.lifetime b - 1 <=? 0)%Z /\
  (Vec2.length (Bullet.velocity b) <= 12 -> inWorld (Bullet.position b) ->
   inWorld (Bullet.position (Bullet.update b))).
Proof.
  destruct b as [[px py] [vx vy] a l act i]. cbn [Bullet.active]. intros ->.
  unfold Bullet.update. cbn [Bullet.active negb]. cbv zeta.
  cbn [Bullet.velocity Bullet.id Bullet.lifetime Bullet.active Bullet.position].
  split; [reflexivity|]. split; [reflexivity|]. split; [reflexivity|]. split.
  - destruct (l - 1 <=? 0)%Z; reflexivity.
  - intros Hv (Hx & Hy).
    pose proof (abs_le_between _ _ (Rle_trans _ _ _ (abs_x_le_length (Vec2.mk vx vy)) Hv)) as Hvx.
    pose proof (abs_le_between _ _ (Rle_trans _ _ _ (abs_y_le_length (Vec2.mk vx vy)) Hv)) as Hvy.
    cbn [Vec2.x Vec2.y] in Hx, Hy, Hvx, Hvy. unfold inWorld, WORLD_WIDTH, WORLD_HEIGHT in *.
    cbn [Vec2.add Vec2.x Vec2.y].
    repeat (case_Rltb; cbn [Vec2.add Vec2.set_x Vec2.set_y Vec2.x Vec2.y] in * );
      cbn [Vec2.add Vec2.x Vec2.y] in *; lra.
Qed.

Lemma Bullet_after (p : Vec2.t) (angle0 : R) (nextId : Z) (n : nat) :
  let b' := Nat.iter n Bullet.update (fst (Bullet.new p angle0 nextId)) in
  Bullet.velocity b' = Vec2.mul (Vec2.fromAngle angle0) BULLET_SPEED /\
  Bullet.id b' = nextId /\
  Bullet.lifetime b' = (40 - Z.min (Z.of_nat n) 40)%Z /\
  Bullet.active b' = (n <? 40)%nat /\
  (inWorld p -> inWorld (Bullet.position b')).
Proof.
  cbv zeta. induction n as [|n (Iv & Ii & Il & Ia & Ip)].
  - cbn [Nat.iter nat_rect Bullet.new fst Bullet.velocity Bullet.id Bullet.lifetime
         Bullet.active Bullet.position].
    repeat split; try reflexivity; destruct p; cbn; apply H.
  - change (Nat.iter (S n) Bullet.update (fst (Bullet.new p angle0 nextId)))
      with (Bullet.update (Nat.iter n Bullet.update (fst (Bullet.new p angle0 nextId)))).
    set (b := Nat.iter n Bullet.update (fst (Bullet.new p angle0 nextId))) in *.
    destruct (n <? 40)%nat eqn:Hn.
    + apply Nat.ltb_lt in Hn.
      destruct (Bullet_update_active b Ia) as (Sv & Si & Sl & Sa & Sp).
      rewrite Sv, Si, Sl, Sa, Il. split; [exact Iv|]. split; [exact Ii|].
      split; [lia|]. split.
      * destruct (S n <? 40)%nat eqn:Hn'.
        -- apply Nat.ltb_lt in Hn'. apply negb_true_iff. apply Z.leb_gt. lia.
        -- apply Nat.ltb_ge in Hn'. apply negb_false_iff. apply Z.leb_le. lia.
      * intro Hp. apply Sp; [|apply Ip; exact Hp].
        rewrite Iv, length_mul, length_fromAngle. unfold BULLET_SPEED.
        rewrite Rabs_right by lra. lra.
    + apply Nat.ltb_ge in Hn.
      assert (Hsame : Bullet.update b = b) by (unfold Bullet.update; rewrite Ia; reflexivity).
      rewrite Hsame. split; [exact Iv|]. split; [exact Ii|]. split; [rewrite Il; lia|].
      split; [|exact Ip]. rewrite Ia. symmetry. apply Nat.ltb_ge. lia.
Qed.

Lemma Bullet_update_position (b : Bullet.t) :
  Bullet.active b = true ->
  Bullet.position (Bullet.update b) =
    Vec2.mk (wrapAxis WORLD_WIDTH (Vec2.x (Bullet.position b) + Vec2.x (Bullet.velocity b)))
            (wrapAxis WORLD_HEIGHT (Vec2.y (Bullet.position b) + Vec2.y (Bullet.velocity b))).
Proof.
  destruct b as [[px py] [vx vy] a l act i]. cbn [Bullet.active]. intros ->.
  unfold Bullet.update, wrapAxis. cbn [Bullet.active negb]. cbv zeta.
  cbn [Bullet.position Bullet.velocity Vec2.add Vec2.x Vec2.y].
  unfold WORLD_WIDTH, WORLD_HEIGHT.
  repeat (case_Rltb; cbn [Vec2.add Vec2.set_x Vec2.set_y Vec2.x Vec2.y] in * );
    first [ reflexivity | exfalso; lra | f_equal; lra ].
Qed.

Lemma wrapAxis_inside (size x : R) : 0 <= x <= size -> wrapAxis size x = x.
Proof.
  intros [H0 H1]. unfold wrapAxis.
  rewrite (proj2 (Rltb_false x 0)) by exact H0.
  rewrite (proj2 (Rltb_false size x)) by exact H1. reflexivity.
Qed.

(** X17. Bullet flight.  A bullet starts where it is fired and flies at
    constant velocity, 12 per update along its firing angle: each of its
    first 40 updates moves it by that velocity, wrapped at the world edges
    (and by exactly that velocity when the new point is inside the world),
    and later updates leave it where it is.  It takes the identifier the
    counter held while the counter moves on by one, is active for exactly
    its first 39 updates and expired from the 40th on, and, fired from
    inside the world, never leaves it.  It touches a target exactly while
    active and within 3 plus the target's radius. *)
Theorem bullet_flight (p : Vec2.t) (angle0 : R) (nextId : Z) (n : nat)
    (target : Vec2.t) (radius : R) :
  let b' := Nat.iter n Bullet.update (fst (Bullet.new p angle0 nextId)) in
  Bullet.velocity b' = Vec2.mul (Vec2.fromAngle angle0) 12 /\
  Vec2.length (Bullet.velocity b') = 12 /\
  Bullet.id b' = nextId /\ snd (Bullet.new p angle0 nextId) = (nextId + 1)%Z /\
  Bullet.active b' = (n <? 40)%nat /\
  Bullet.isExpired b' = (40 <=? n)%nat /\
  Bullet.collidesWith b' target radius =
    ((n <? 40)%nat && Rleb (Vec2.length (Vec2.sub (Bullet.position b') target)) (3 + radius)) /\
  (inWorld p -> inWorld (Bullet.position b')) /\
  Bullet.position (fst (Bullet.new p angle0 nextId)) = p /\
  Bullet.position (Bullet.update b') =
    (if (n <? 40)%nat
     then Vec2.mk (wrapAxis WORLD_WIDTH (Vec2.x (Bullet.position b') + cos angle0 * 12))
                  (wrapAxis WORLD_HEIGHT (Vec2.y (Bullet.position b') + sin angle0 * 12))
     else Bullet.position b') /\
  ((n < 40)%nat ->
   inWorld (Vec2.add (Bullet.position b') (Vec2.mul (Vec2.fromAngle angle0) 12)) ->
   Bullet.position (Bullet.update b') =
     Vec2.add (Bullet.position b') (Vec2.mul (Vec2.fromAngle angle0) 12)).
Proof.
  intro b'. destruct (Bullet_after p angle0 nextId n) as (Hv & Hi & Hl & Ha & Hp).
  fold b' in Hv, Hi, Hl, Ha, Hp.
  assert (Hstep : (n < 40)%nat ->
            Bullet.position (Bullet.update b') =
            Vec2.mk (wrapAxis WORLD_WIDTH (Vec2.x (Bullet.position b') + cos angle0 * 12))
                    (wrapAxis WORLD_HEIGHT (Vec2.y (Bullet.position b') + sin angle0 * 12))).
  { intro Hn. rewrite Bullet_update_position by (rewrite Ha; apply Nat.ltb_lt; exact Hn).
    rewrite Hv. reflexivity. }
  split; [exact Hv|]. split.
  { rewrite Hv, length_mul, length_fromAngle. unfold BULLET_SPEED.
    rewrite Rabs_right by lra. lra. }
  split; [exact Hi|]. split; [reflexivity|]. split; [exact Ha|].
  split; [|split; [|split; [exact Hp|split; [|split]]]].
  - unfold Bullet.isExpired. rewrite Hl, Ha.
    destruct (n <? 40)%nat eqn:Hn.
    + apply Nat.ltb_lt in Hn. cbn [negb]. rewrite orb_false_r.
      replace (40 <=? n)%nat with false by (symmetry; apply Nat.leb_gt; lia).
      apply Z.leb_gt. lia.
    + apply Nat.ltb_ge in Hn. cbn [negb]. rewrite orb_true_r.
      symmetry. apply Nat.leb_le. lia.
  - unfold Bullet.collidesWith. rewrite Ha. unfold BULLET_RADIUS.
    destruct (n <? 40)%nat; reflexivity.
  - destruct p; reflexivity.
  - destruct (n <? 40)%nat eqn:Hn.
    + apply Nat.ltb_lt in Hn. exact (Hstep Hn).
    + unfold Bullet.update. rewrite Ha. reflexivity.
  - intros Hn (Hx & Hy). rewrite (Hstep Hn).
    cbn [Vec2.add Vec2.mul Vec2.fromAngle Vec2.x Vec2.y] in Hx, Hy |- *.
    rewrite (wrapAxis_inside _ _ Hx), (wrapAxis_inside _ _ Hy). reflexivity.
Qed.

Lemma bullet_flight_witness :
  let b0 := fst (Bullet.new (Vec2.mk 1195 400) 0 7%Z) in
  inWorld (Vec2.mk 1195 400) /\
  inWorld (Bullet.position (Nat.iter 3 Bullet.update b0)) /\
  Bullet.position (Nat.iter 1 Bullet.update b0) = Vec2.mk (1195 + 1 * 12 - 1200) (400 + 0 * 12).
Proof.
  intro b0.
  assert (Hin : inWorld (Vec2.mk 1195 400))
    by (unfold inWorld, WORLD_WIDTH, WORLD_HEIGHT; cbn [Vec2.x Vec2.y]; lra).
  split; [exact Hin|]. split.
  - apply (bullet_flight (Vec2.mk 1195 400) 0 7%Z 3 Vec2.zero 0). exact Hin.
  - destruct (bullet_flight (Vec2.mk 1195 400) 0 7%Z 0 Vec2.zero 0)
      as (_ & _ & _ & _ & _ & _ & _ & _ & Hstart & Hstep & _).
    cbn [Nat.iter nat_rect Nat.ltb Nat.leb] in Hstep |- *. fold b0 in Hstart, Hstep.
    rewrite Hstep, Hstart. cbn [Vec2.x Vec2.y]. rewrite cos_0, sin_0.
    unfold wrapAxis, WORLD_WIDTH, WORLD_HEIGHT.
    rewrite (proj2 (Rltb_false (1195 + 1 * 12) 0)) by lra.
    rewrite (proj2 (Rltb_true 1200 (1195 + 1 * 12))) by lra.
    rewrite (proj2 (Rltb_false (400 + 0 * 12) 0)) by lra.
    rewrite (proj2 (Rltb_false 800 (400 + 0 * 12))) by lra.
    reflexivity.
Defined.

(** ** Game: the kill feed *)

Lemma firstn_app_firstn {A : Type} (n : nat) (a b : list A) :
  firstn n (a ++ firstn n b) = firstn n (a ++ b).
Proof.
  rewrite !firstn_app, firstn_firstn. f_equal. f_equal. lia.
Qed.

Lemma addKillFeed_feed (message : string) (gm : GameRound.t) :
  (List.length (GameRound.killFeed gm) <= 5)%nat ->
  GameRound.killFeed (GameRound.addKillFeed message gm) =
    firstn 5 (message :: GameRound.killFeed gm).
Proof.
  intro Hlen. unfold GameRound.addKillFeed. cbv zeta.
  cbn [GameRound.killFeed GameRound.set_killFeed]. unfold GameRound.maxKillFeed.
  destruct (5 <? List.length (message :: GameRound.killFeed gm))%nat eqn:Hfull.
  - apply Nat.ltb_lt in Hfull. cbn [List.length] in Hfull.
    rewrite removelast_firstn_len. f_equal. cbn [List.length]. lia.
  - apply Nat.ltb_ge in Hfull. symmetry. apply firstn_all2. exact Hfull.
Qed.

(** X18. The kill feed keeps the five newest messages.  Starting from a
    feed of at most five entries, after any sequence of [addKillFeed] calls
    the feed is the first five of: the messages added, newest first,
    followed by the old feed.  Nothing else in the game changes. *)
Theorem kill_feed_newest_five (msgs : list string) (gm : GameRound.t) :
  (List.length (GameRound.killFeed gm) <= 5)%nat ->
  let gm' := fold_left (fun g m => GameRound.addKillFeed m g) msgs gm in
  GameRound.killFeed gm' = firstn 5 (rev msgs ++ GameRound.killFeed gm) /\
  (List.length (GameRound.killFeed gm') <= 5)%nat /\
  gm' = GameRound.set_killFeed (GameRound.killFeed gm') gm.
Proof.
  revert gm. induction msgs as [|m msgs IH]; intros gm Hlen gm'.
  - subst gm'. cbn [fold_left rev app]. split; [symmetry; apply firstn_all2; exact Hlen|].
    split; [exact Hlen|]. destruct gm; reflexivity.
  - subst gm'. cbn [fold_left].
    pose proof (addKillFeed_feed m gm Hlen) as Hfeed.
    assert (Hlen1 : (List.length (GameRound.killFeed (GameRound.addKillFeed m gm)) <= 5)%nat).
    { rewrite Hfeed. apply firstn_le_length. }
    destruct (IH (GameRound.addKillFeed m gm) Hlen1) as (H1 & H2 & H3).
    cbv zeta in H1, H2, H3. split; [|split; [exact H2|]].
    + rewrite H1, Hfeed, firstn_app_firstn. cbn [rev]. rewrite <- app_assoc. reflexivity.
    + rewrite H3 at 1. destruct gm; reflexivity.
Qed.

Lemma kill_feed_newest_five_witness :
  GameRound.killFeed
    (fold_left (fun g m => GameRound.addKillFeed m g)
               ["a"; "b"; "c"; "d"; "e"; "f"]%string exampleRound) =
  ["f"; "e"; "d"; "c"; "b"]%string.
Proof.
  assert (Hlen : (List.length (GameRound.killFeed exampleRound) <= 5)%nat) by (cbn; lia).
  destruct (kill_feed_newest_five ["a"; "b"; "c"; "d"; "e"; "f"]%string exampleRound Hlen)
    as (H & _).
  exact H.
Defined.

(** ** Game: the end of the round *)



(** ** Game: choosing the target of an attack *)

Lemma floor_index_range (r : R) (n : nat) :
  0 <= r < 1 -> (0 < n)%nat ->
  (0 <= Int_part (r * INR n) < Z.of_nat n)%Z.
Proof.
  intros [H0 H1] Hn. destruct (base_Int_part (r * INR n)) as [Hlo Hhi].
  assert (Hpos : 0 < INR n) by (apply lt_0_INR; exact Hn).
  split.
  - assert (H : (-1 < Int_part (r * INR n))%Z); [|lia].
    apply lt_IZR. assert (0 <= r * INR n) by (apply Rmult_le_pos; lra). lra.
  - apply lt_IZR. rewrite <- INR_IZR_INZ.
    assert (r * INR n < INR n) by nra. lra.
Qed.

Lemma livingOpponents_spec (sourceOwner : GridOwner) (gm : GameRound.t) (i : nat) :
  In i (GameRound.livingOpponents sourceOwner gm) ->
  exists target,
    nth_error (GameRound.grids gm) i = Some target /\
    GridState.owner target <> sourceOwner /\
    Ship.isDead (GridState.ship target) = false.
Proof.
  unfold GameRound.livingOpponents. intro Hin. apply filter_In in Hin.
  destruct Hin as (_ & Hcond).
  destruct (nth_error (GameRound.grids gm) i) as [target|]; [|discriminate].
  exists target. split; [reflexivity|]. apply andb_true_iff in Hcond.
  destruct Hcond as (Ho & Hd). split.
  - intro Heq. rewrite Heq in Ho. destruct sourceOwner; discriminate.
  - apply negb_true_iff. exact Hd.
Qed.

Lemma spawnAttackToRandomTarget_spec (sourceOwner : GridOwner)
    (attackResult : AttackResult.t) (gm : GameRound.t) (w : World) :
  randomInRange w ->
  yields (GameRound.spawnAttackToRandomTarget sourceOwner attackResult gm) w
    (fun gm' _ =>
       (GameRound.livingOpponents sourceOwner gm = [] /\ gm' = gm) \/
       (exists i target,
           nth_error (GameRound.grids gm) i = Some target /\
           GridState.owner target <> sourceOwner /\
           Ship.isDead (GridState.ship target) = false /\
           gm' = GameRound.setGridAt i
                   (GridState.spawnAttack attackResult sourceOwner target) gm /\
           (forall j, j <> i ->
              nth_error (GameRound.grids gm') j = nth_error (GameRound.grids gm) j))).
Proof.
  intro Hw. unfold GameRound.spawnAttackToRandomTarget. cbv zeta.
  set (opponents := GameRound.livingOpponents sourceOwner gm) in *.
  destruct (List.length opponents =? 0)%nat eqn:Hempty.
  - apply Nat.eqb_eq in Hempty. apply length_zero_iff_nil in Hempty.
    apply yields_ret. left. split; [exact Hempty | reflexivity].
  - apply Nat.eqb_neq in Hempty.
    assert (Hlen : (0 < List.length opponents)%nat) by lia.
    apply yields_bind. unfold random at 1.
    eexists. eexists. split; [reflexivity|].
    pose proof (floor_index_range (randoms w (cursor w)) (List.length opponents)
                                  (Hw (cursor w)) Hlen) as Hidx.
    set (index := Int_part (randoms w (cursor w) * INR (List.length opponents))) in *.
    replace (index <? 0)%Z with false by (symmetry; apply Z.ltb_ge; lia).
    destruct (nth_error opponents (Z.to_nat index)) as [i|] eqn:Hi.
    2:{ apply nth_error_None in Hi. lia. }
    assert (Hin : In i opponents) by (eapply nth_error_In; exact Hi).
    destruct (livingOpponents_spec sourceOwner gm i Hin) as (target & Ht & Ho & Hd).
    rewrite Ht. apply yields_ret. right. exists i, target.
    split; [exact Ht|]. split; [exact Ho|]. split; [exact Hd|]. split; [reflexivity|].
    intros j Hj. unfold GameRound.setGridAt, GameRound.grids.
    destruct i as [|i']; destruct j as [|j']; try congruence; cbn; try reflexivity.
    assert (Hj' : j' <> i') by congruence. clear - Hj'. revert i' j' Hj'.
    induction (GameRound.botGrids gm) as [|b bs IH]; intros [|i'] [|j'] Hj;
      cbn; try reflexivity; try congruence.
    apply IH. congruence.
Qed.

(** X20. An attack lands on one living opponent.  With random draws in
    [0, 1), [spawnAttackToRandomTarget] returns; when the sender has no
    living opponent the game is unchanged, and otherwise exactly one grid
    receives the attack through [spawnAttack]: a grid that is not the
    sender's and whose ship is alive.  Every other grid, the sender's
    included, is left as it was. *)
Theorem attack_lands_on_living_opponent (sourceOwner : GridOwner)
    (attackResult : AttackResult.t) (gm : GameRound.t) (w : World) :
  randomInRange w ->
  yields (GameRound.spawnAttackToRandomTarget sourceOwner attackResult gm) w
    (fun gm' _ =>
       (GameRound.livingOpponents sourceOwner gm = [] /\ gm' = gm) \/
       (exists i target,
           nth_error (GameRound.grids gm) i = Some target /\
           GridState.owner target <> sourceOwner /\
           Ship.isDead (GridState.ship target) = false /\
           gm' = GameRound.setGridAt i
                   (GridState.spawnAttack attackResult sourceOwner target) gm /\
           (forall j, j <> i ->
              nth_error (GameRound.grids gm') j = nth_error (GameRound.grids gm) j))).
Proof. exact (spawnAttackToRandomTarget_spec sourceOwner attackResult gm w). Qed.

Lemma attack_lands_on_living_opponent_witness :
  yields (GameRound.spawnAttackToRandomTarget player
            (AttackResult.mk [] [] TIER_1 "") exampleRound) exampleWorld
    (fun gm' _ => GameRound.playerGrid gm' = GameRound.playerGrid exampleRound).
Proof.
  destruct (attack_lands_on_living_opponent player (AttackResult.mk [] [] TIER_1 "")
              exampleRound exampleWorld exampleWorld_inRange)
    as (gm' & w' & Hrun & Hcase).
  exists gm', w'. split; [exact Hrun|].
  destruct Hcase as [(_ & ->)|(i & target & Ht & Ho & _ & -> & _)]; [reflexivity|].
  destruct i as [|i]; [|reflexivity].
  cbn in Ht. injection Ht as <-. cbn in Ho. contradiction.
Defined.

(** ** Game: the fixed-step loop *)

Lemma drain_spec (fuel : nat) (acc : R) :
  acc < INR (S fuel) * PHYSICS_DT ->
  exists n rest,
    GameRound.drain (S fuel) acc = Some (n, rest) /\
    (n <= fuel)%nat /\ rest < PHYSICS_DT /\
    INR n * PHYSICS_DT + rest = acc /\
    (0 <= acc -> 0 <= rest).
Proof.
  assert (Hdt : 0 < PHYSICS_DT) by (unfold PHYSICS_DT; lra).
  revert acc. induction fuel as [|fuel IH]; intros acc Hacc.
  - cbn [GameRound.drain]. change (INR 1) with 1 in Hacc.
    rewrite (proj2 (Rleb_false PHYSICS_DT acc)) by lra.
    exists 0%nat, acc. split; [reflexivity|]. split; [lia|]. split; [lra|].
    split; [cbn [INR]; lra|]. intro H; exact H.
  - change (GameRound.drain (S (S fuel)) acc)
      with (if Rleb PHYSICS_DT acc
            then match GameRound.drain (S fuel) (acc - PHYSICS_DT) with
                 | Some (n, rest) => Some (S n, rest)
                 | None => None
                 end
            else Some (0%nat, acc)).
    destruct (Rleb PHYSICS_DT acc) eqn:Hge.
    + apply Rleb_true in Hge.
      destruct (IH (acc - PHYSICS_DT)) as (n & rest & Hrun & Hn & Hrest & Hsum & Hpos).
      { rewrite (S_INR (S fuel)) in Hacc. lra. }
      rewrite Hrun. exists (S n), rest. split; [reflexivity|].
      split; [lia|]. split; [exact Hrest|]. split; [rewrite S_INR; lra|].
      intros _. apply Hpos. lra.
    + apply Rleb_false in Hge. exists 0%nat, acc. split; [reflexivity|].
      split; [lia|]. split; [exact Hge|]. split; [cbn [INR]; lra|]. intro H; exact H.
Qed.

(** X21. At most ten physics steps per frame.  Whatever the accumulator
    and the frame time, eleven loop tests suffice: the frame runs [n]
    physics steps with [n] at most 10, the steps and the accumulator left
    over add up to the accumulated time capped at ten steps, and what is
    left is less than one step, and not negative unless the accumulated
    time was. *)
Theorem frame_runs_at_most_ten_steps (acc deltaTime : R) :
  exists n rest,
    GameRound.frameSteps 11 acc deltaTime = Some (n, rest) /\
    (n <= 10)%nat /\
    rest < PHYSICS_DT /\
    INR n * PHYSICS_DT + rest = Rmin (acc + deltaTime) (PHYSICS_DT * 10) /\
    (0 <= acc + deltaTime -> 0 <= rest).
Proof.
  assert (Hdt : 0 < PHYSICS_DT) by (unfold PHYSICS_DT; lra).
  unfold GameRound.frameSteps. cbv zeta.
  set (acc2 := if Rltb (PHYSICS_DT * 10) (acc + deltaTime)
               then PHYSICS_DT * 10 else acc + deltaTime).
  assert (Hacc2 : acc2 = Rmin (acc + deltaTime) (PHYSICS_DT * 10)).
  { subst acc2. destruct (Rltb _ _) eqn:H.
    - apply Rltb_true in H. rewrite Rmin_right by lra. reflexivity.
    - apply Rltb_false in H. rewrite Rmin_left by lra. reflexivity. }
  assert (Hcap : acc2 <= PHYSICS_DT * 10) by (rewrite Hacc2; apply Rmin_r).
  destruct (drain_spec 10 acc2) as (n & rest & Hrun & Hn & Hrest & Hsum & Hpos).
  { replace (INR 11) with 11 by (cbn; lra). lra. }
  exists n, rest. split; [exact Hrun|]. split; [exact Hn|]. split; [exact Hrest|].
  split; [rewrite <- Hacc2; exact Hsum|].
  intro H0. apply Hpos. rewrite Hacc2. apply Rmin_glb; lra.
Qed.

(** ** InputHandler *)

Lemma has_app (key : string) (ks : list string) :
  InputHandler.has key (ks ++ [key]) = true.
Proof.
  unfold InputHandler.has. rewrite existsb_app. cbn [existsb].
  rewrite String.eqb_refl. rewrite orb_true_r. reflexivity.
Qed.

Lemma handleKeyDown_keys (key : string) (st : InputHandler.t) :
  InputHandler.keys (snd (InputHandler.handleKeyDown key st)) =
    if InputHandler.has key (InputHandler.keys st)
    then InputHandler.keys st
    else InputHandler.keys st ++ [key].
Proof.
  unfold InputHandler.handleKeyDown.
  destruct (InputHandler.has key (InputHandler.keys st)); [reflexivity|]. cbv zeta.
  repeat match goal with
         | |- context [if ?c then _ else _] => destruct c
         end; reflexivity.
Qed.

(** X22. Key repeat is suppressed.  While a key is held, a further
    key-down event for it calls no callback and changes nothing, so a held
    space bar fires once and a held digit banks once; the key counts as
    pressed until its key-up, and is not pressed after it.  The restart
    flag read by [isActionPressed] is cleared by the read, so a second read
    answers false. *)
Theorem key_repeat_suppressed (key : string) (st : InputHandler.t) :
  let st1 := snd (InputHandler.handleKeyDown key st) in
  InputHandler.handleKeyDown key st1 = ([], st1) /\
  InputHandler.isPressed key st1 = true /\
  InputHandler.isPressed key (snd (InputHandler.handleKeyUp key st1)) = false /\
  (forall other, other <> key ->
     InputHandler.isPressed other (snd (InputHandler.handleKeyUp key st1)) =
     InputHandler.isPressed other st) /\
  fst (InputHandler.isActionPressed (snd (InputHandler.isActionPressed st))) = false.
Proof.
  intro st1.
  assert (Hheld : InputHandler.has key (InputHandler.keys st1) = true).
  { subst st1. rewrite handleKeyDown_keys.
    destruct (InputHandler.has key (InputHandler.keys st)) eqn:H; [exact H | apply has_app]. }
  split; [|split; [exact Hheld|split; [|split; [|reflexivity]]]].
  - unfold InputHandler.handleKeyDown at 1. rewrite Hheld. reflexivity.
  - assert (Hup : forall ks, InputHandler.has key
                    (filter (fun k => negb (String.eqb key k)) ks) = false).
    { induction ks as [|k ks IH]; [reflexivity|]. cbn [filter].
      destruct (String.eqb key k) eqn:E; cbn [negb]; [exact IH|].
      unfold InputHandler.has in *. cbn [existsb]. rewrite E, IH. reflexivity. }
    unfold InputHandler.isPressed, InputHandler.handleKeyUp. cbv zeta.
    repeat match goal with
           | |- context [if ?c then _ else _] => destruct c
           end; cbn [snd InputHandler.keys]; apply Hup.
  - intros other Hother.
    assert (Hne : String.eqb other key = false) by (apply String.eqb_neq; exact Hother).
    assert (Hfilter : forall ks, InputHandler.has other
                        (filter (fun k => negb (String.eqb key k)) ks) =
                      InputHandler.has other ks).
    { induction ks as [|k ks IH]; [reflexivity|]. cbn [filter].
      unfold InputHandler.has in *.
      destruct (String.eqb key k) eqn:E; cbn [negb existsb].
      - apply String.eqb_eq in E. subst k. rewrite Hne, IH. reflexivity.
      - rewrite IH. reflexivity. }
    assert (Hkeys : InputHandler.keys (snd (InputHandler.handleKeyUp key st1)) =
                    filter (fun k => negb (String.eqb key k)) (InputHandler.keys st1)).
    { unfold InputHandler.handleKeyUp. cbv zeta.
      repeat match goal with
             | |- context [if ?c then _ else _] => destruct c
             end; reflexivity. }
    unfold InputHandler.isPressed. rewrite Hkeys, Hfilter. subst st1.
    rewrite handleKeyDown_keys.
    destruct (InputHandler.has key (InputHandler.keys st)); [reflexivity|].
    unfold InputHandler.has. rewrite existsb_app. cbn [existsb]. rewrite Hne.
    rewrite !orb_false_r. reflexivity.
Qed.

(** ** Game: bullets against hazards *)

Lemma count_setAt_off {A : Type} (p : A -> bool) (l : list A) (i : nat) (a a' : A) :
  nth_error l i = Some a -> p a = true -> p a' = false ->
  S (List.length (filter p (setAt i a' l))) = List.length (filter p l).
Proof.
  revert i. induction l as [|x l IH]; intros [|i] Hnth Ha Ha'; cbn in *; try discriminate.
  - injection Hnth as ->. rewrite Ha, Ha'. reflexivity.
  - destruct (p x); cbn [List.length]; rewrite <- (IH i Hnth Ha Ha'); reflexivity.
Qed.

Lemma Forall_setAt {A : Type} (P : A -> Prop) (l : list A) (i : nat) (a : A) :
  Forall P l -> P a -> Forall P (setAt i a l).
Proof.
  intros Hl Ha. revert i. induction Hl as [|x l Hx Hl IH]; intros [|i]; cbn;
    constructor; auto.
Qed.

Lemma scanHazards_some (bullet : Bullet.t) (h : nat) (hazards : list Hazard) (k : nat) :
  GameRound.scanHazards bullet h hazards = Some k ->
  exists hazard,
    nth_error hazards k = Some hazard /\ HazardOps.active hazard = true /\
    Bullet.collidesWith bullet (HazardOps.position hazard) (HazardOps.radius hazard) = true.
Proof.
  induction h as [|h IH]; cbn [GameRound.scanHazards]; [discriminate|].
  destruct (nth_error hazards h) as [hazard|] eqn:Hnth; [|exact IH].
  destruct (HazardOps.active hazard) eqn:Hact; cbn [negb]; [|exact IH].
  destruct (Bullet.collidesWith _ _ _) eqn:Hhit; [|exact IH].
  intro H. injection H as <-. exists hazard. repeat split; assumption.
Qed.

Lemma deactivate_active (h : Hazard) : HazardOps.active (deactivate h) = false.
Proof. destruct h; reflexivity. Qed.

Lemma sweepBullets_returns P b destroyed gm :
  returnsIf P (GameRound.sweepBullets b destroyed gm).
Proof.
  revert destroyed gm. induction b as [|b IH]; intros destroyed gm;
    cbn [GameRound.sweepBullets]; [apply returnsIf_ret|].
  destruct (nth_error (GameRound.bullets gm) b) as [bullet|]; [|apply IH].
  destruct (negb (Bullet.active bullet)); [apply IH|]. cbv zeta.
  destruct (GameRound.scanHazards _ _ _) as [h|]; [|apply IH].
  destruct (nth_error _ h) as [hazard|]; [|apply IH].
  apply returnsIf_bind; [apply createBurst_returns|]. intro ps. apply IH.
Qed.

Lemma sweepBullets_post b destroyed gm :
  Forall (fun x => Bullet.active x = true -> Bullet.isExpired x = false)
         (GameRound.bullets gm) ->
  post (GameRound.sweepBullets b destroyed gm)
       (fun res =>
          let hs := fun g => List.length (filter HazardOps.active
                                (GridState.hazards (GameRound.playerGrid g))) in
          let bs := fun g => List.length (filter Bullet.active (GameRound.bullets g)) in
          (hs (snd res) + List.length (fst res) = hs gm + List.length destroyed)%nat /\
          (bs (snd res) + List.length (fst res) = bs gm + List.length destroyed)%nat /\
          Forall (fun x => Bullet.active x = true -> Bullet.isExpired x = false)
                 (GameRound.bullets (snd res)) /\
          GameRound.botGrids (snd res) = GameRound.botGrids gm /\
          GridState.ship (GameRound.playerGrid (snd res)) =
            GridState.ship (GameRound.playerGrid gm) /\
          GridState.orbs (GameRound.playerGrid (snd res)) =
            GridState.orbs (GameRound.playerGrid gm)).
Proof.
  revert destroyed gm. induction b as [|b IH]; intros destroyed gm Hok;
    cbn [GameRound.sweepBullets].
  { apply post_ret. cbn [fst snd]. repeat split; try reflexivity; exact Hok. }
  destruct (nth_error (GameRound.bullets gm) b) as [bullet|] eqn:Hb; [|apply IH; exact Hok].
  destruct (Bullet.active bullet) eqn:Hact; cbn [negb]; [|apply IH; exact Hok]. cbv zeta.
  destruct (GameRound.scanHazards _ _ _) as [h|] eqn:Hscan; [|apply IH; exact Hok].
  destruct (scanHazards_some _ _ _ _ Hscan) as (hazard & Hh & Hhact & _).
  rewrite Hh. apply post_bind_any. intro ps.
  eapply post_weaken.
  { apply IH.
    cbn [GameRound.bullets GameRound.set_bullets GameRound.addKillFeed
         GameRound.set_killFeed GameRound.set_playerGrid].
    apply Forall_setAt; [exact Hok|]. cbn. discriminate. }
  intros [destroyed' gm'] (H1 & H2 & H3 & H4 & H5 & H6). cbn [fst snd] in *.
  cbn [GameRound.bullets GameRound.set_bullets GameRound.addKillFeed
       GameRound.set_killFeed GameRound.set_playerGrid GameRound.playerGrid
       GameRound.botGrids GridState.hazards GridState.set_particles
       GridState.set_hazards GridState.ship GridState.orbs] in H1, H2, H4, H5, H6.
  rewrite length_app in H1, H2. cbn [List.length] in H1, H2.
  pose proof (count_setAt_off HazardOps.active _ h hazard (deactivate hazard) Hh Hhact
                              (deactivate_active hazard)) as Ch.
  pose proof (count_setAt_off Bullet.active _ b bullet (Bullet.set_active false bullet)
                              Hb Hact eq_refl) as Cb.
  repeat split; try assumption; lia.
Qed.

Lemma Bullet_update_live (b : Bullet.t) :
  Bullet.active (Bullet.update b) = true -> Bullet.isExpired (Bullet.update b) = false.
Proof.
  unfold Bullet.update. destruct (Bullet.active b) eqn:Ha; cbn [negb].
  - cbv zeta. unfold Bullet.isExpired. cbn [Bullet.active Bullet.lifetime].
    destruct (Bullet.lifetime b - 1 <=? 0)%Z; [discriminate | reflexivity].
  - rewrite Ha. discriminate.
Qed.

(** X23. One bullet, one kill.  [updateBullets] returns, and for the
    number [k] of hazards it reports destroyed: the player's grid keeps its
    active hazards less [k], the game keeps the bullets that were still
    active after their update less [k], so each hit uses up one bullet and
    one hazard; every hazard and bullet kept is active, and no bullet kept
    is expired.  The ship and the orbs of the player, and the grids of the
    bots, are not touched: bullets clear hazards on the player's grid
    only. *)
Theorem one_bullet_one_kill (gm : GameRound.t) (w : World) :
  yields (GameRound.updateBullets gm) w
    (fun res _ =>
       let k := List.length (fst res) in
       let gm' := snd res in
       (List.length (GridState.hazards (GameRound.playerGrid gm')) + k =
        List.length (filter HazardOps.active (GridState.hazards (GameRound.playerGrid gm))))%nat /\
       (List.length (GameRound.bullets gm') + k =
        List.length (filter Bullet.active (map Bullet.update (GameRound.bullets gm))))%nat /\
       Forall (fun x => HazardOps.active x = true)
              (GridState.hazards (GameRound.playerGrid gm')) /\
       Forall (fun x => Bullet.active x = true /\ Bullet.isExpired x = false)
              (GameRound.bullets gm') /\
       GameRound.botGrids gm' = GameRound.botGrids gm /\
       GridState.ship (GameRound.playerGrid gm') = GridState.ship (GameRound.playerGrid gm) /\
       GridState.orbs (GameRound.playerGrid gm') = GridState.orbs (GameRound.playerGrid gm)).
Proof.
  assert (Hlive : Forall (fun x => Bullet.active x = true -> Bullet.isExpired x = false)
                         (map Bullet.update (GameRound.bullets gm))).
  { apply Forall_forall. intros x Hx. apply in_map_iff in Hx.
    destruct Hx as (b0 & <- & _). apply Bullet_update_live. }
  unfold GameRound.updateBullets. cbv zeta.
  cbn [GameRound.bullets GameRound.set_bullets].
  apply yields_bind.
  eapply yields_returns;
    [apply sweepBullets_returns | apply sweepBullets_post; exact Hlive |].
  intros [destroyed gm2] w2 (H1 & H2 & H3 & H4 & H5 & H6) _ _. cbn [fst snd] in *.
  cbn [GameRound.bullets GameRound.set_bullets GameRound.playerGrid GameRound.botGrids
       GridState.hazards] in H1, H2, H4, H5, H6.
  apply yields_ret. cbn [fst snd].
  cbn [GameRound.bullets GameRound.set_bullets GameRound.playerGrid GameRound.botGrids
       GameRound.set_playerGrid GridState.hazards GridState.set_hazards GridState.ship
       GridState.orbs].
  assert (Hfilter : filter (fun b => negb (Bullet.isExpired b) && Bullet.active b)
                           (GameRound.bullets gm2) =
                    filter Bullet.active (GameRound.bullets gm2)).
  { clear - H3. induction H3 as [|x l Hx Hl IH]; [reflexivity|]. cbn [filter].
    rewrite IH. destruct (Bullet.active x) eqn:Ha.
    - rewrite (Hx eq_refl). reflexivity.
    - rewrite andb_false_r. reflexivity. }
  rewrite Hfilter. cbn [List.length] in H1, H2.
  split; [lia|]. split; [lia|]. split; [|split].
  - apply Forall_forall. intros x Hx. apply filter_In in Hx. apply Hx.
  - apply Forall_forall. intros x Hx. apply filter_In in Hx. destruct Hx as (Hin & Ha).
    split; [exact Ha|]. rewrite Forall_forall in H3. exact (H3 x Hin Ha).
  - repeat split; assumption.
Qed.

(** ** BotAI *)

Lemma nearestCorner_fold (p : Vec2.t) (cs seen : list Vec2.t) (c0 : Vec2.t)
    (d0 : option R) :
  match d0 with
  | None => seen = []
  | Some x => x = Vec2.length (Vec2.sub c0 p) /\ In c0 seen /\
              forall c', In c' seen -> x <= Vec2.length (Vec2.sub c' p)
  end ->
  let res := fold_left (fun '(nearest, nearestDist) corner =>
                          let dist := Vec2.length (Vec2.sub corner p) in
                          if BotAI.closer dist nearestDist then (corner, Some dist)
                          else (nearest, nearestDist)) cs (c0, d0) in
  match snd res with
  | None => seen ++ cs = []
  | Some x => x = Vec2.length (Vec2.sub (fst res) p) /\ In (fst res) (seen ++ cs) /\
              forall c', In c' (seen ++ cs) -> x <= Vec2.length (Vec2.sub c' p)
  end.
Proof.
  revert seen c0 d0. induction cs as [|c cs IH]; intros seen c0 d0 Hinv.
  - cbn [fold_left snd fst]. rewrite app_nil_r. exact Hinv.
  - cbn [fold_left]. cbv zeta.
    replace (seen ++ c :: cs) with ((seen ++ [c]) ++ cs)
      by (rewrite <- app_assoc; reflexivity).
    destruct d0 as [x|]; cbn [BotAI.closer].
    + destruct Hinv as (Hx & Hin & Hmin).
      destruct (Rltb (Vec2.length (Vec2.sub c p)) x) eqn:Hlt.
      * apply Rltb_true in Hlt. apply IH. split; [reflexivity|]. split.
        -- apply in_or_app. right. left. reflexivity.
        -- intros c' Hc'. apply in_app_or in Hc'. destruct Hc' as [Hc'|[<-|[]]].
           ++ specialize (Hmin c' Hc'). lra.
           ++ lra.
      * apply Rltb_false in Hlt. apply IH. split; [exact Hx|]. split.
        -- apply in_or_app. left. exact Hin.
        -- intros c' Hc'. apply in_app_or in Hc'. destruct Hc' as [Hc'|[<-|[]]].
           ++ exact (Hmin c' Hc').
           ++ exact Hlt.
    + subst seen. apply IH. split; [reflexivity|]. split; [left; reflexivity|].
      intros c' [<-|[]]. lra.
Qed.

Lemma findNearestCorner_spec (g : GridState.t) :
  In (BotAI.findNearestCorner g) BotAI.CORNERS /\
  forall c', In c' BotAI.CORNERS ->
    Vec2.length (Vec2.sub (BotAI.findNearestCorner g) (Ship.position (GridState.ship g))) <=
    Vec2.length (Vec2.sub c' (Ship.position (GridState.ship g))).
Proof.
  unfold BotAI.findNearestCorner.
  pose proof (nearestCorner_fold (Ship.position (GridState.ship g)) BotAI.CORNERS []
                                 (nth 0 BotAI.CORNERS Vec2.zero) None eq_refl) as H.
  cbv zeta in H. cbn [app] in H.
  destruct (snd _) as [x|] in H; [|discriminate].
  destruct H as (Hx & Hin & Hmin). split; [exact Hin|].
  intros c' Hc'. rewrite <- Hx. exact (Hmin c' Hc').
Qed.

Lemma Nuke_reach (i : Z) (p : Vec2.t) (k : nat) :
  let n := Nat.iter k Nuke.update
             (Nuke.mk i p Vec2.zero 0 375 420%Z 420%Z 300%Z false 0%Z 120%Z true 50) in
  Nuke.position n = p /\ Nuke.radius n <= 375.
Proof.
  destruct (Nuke_after i p k) as (H1 & H2 & H3 & H4). cbv zeta in *.
  assert (Hmin : forall x, 375 * Rmin x 1 <= 375).
  { intro x. pose proof (Rmin_r x 1). lra. }
  destruct (Z.lt_trichotomy (Z.of_nat k) 300) as [Hlt|[Heq|Hgt]].
  - rewrite (H1 Hlt). cbn [Nuke.position Nuke.radius]. split; [reflexivity | lra].
  - rewrite (H2 Heq). cbn [Nuke.position Nuke.radius]. split; [reflexivity | lra].
  - destruct (Z_le_gt_dec (Z.of_nat k) 420) as [Hle|Hgt'].
    + rewrite (H3 (conj Hgt Hle)). cbn [Nuke.position Nuke.radius].
      split; [reflexivity | apply Hmin].
    + rewrite H4 by lia. cbn [Nuke.position Nuke.radius].
      split; [reflexivity | apply Hmin].
Qed.

Lemma Nuke_collidesWith_far (n : Nuke.t) (q : Vec2.t) (shipRadius : R) :
  Nuke.radius n + shipRadius < Vec2.length (Vec2.sub (Nuke.position n) q) ->
  Nuke.collidesWith n q shipRadius = false.
Proof.
  intro Hfar. unfold Nuke.collidesWith. cbv zeta.
  repeat match goal with
         | |- (if ?c then false else _) = false => destruct c; [reflexivity|]
         end.
  apply Rleb_false. exact Hfar.
Qed.

Lemma far_from_hub (q : Vec2.t) (dx dy : R) :
  dx <= Rabs (Vec2.x hubCenter - Vec2.x q) -> dy <= Rabs (Vec2.y hubCenter - Vec2.y q) ->
  0 <= dx -> 0 <= dy -> 390 * 390 < dx * dx + dy * dy ->
  390 < Vec2.length (Vec2.sub hubCenter q).
Proof.
  intros Hx Hy Hdx Hdy Hsq. apply Rnot_le_lt. intro Hle.
  apply length_le_iff in Hle; [|lra].
  unfold Vec2.lengthSq, Vec2.sub in Hle. cbn [Vec2.x Vec2.y] in Hle.
  assert (Ax : dx * dx <= (Vec2.x hubCenter - Vec2.x q) * (Vec2.x hubCenter - Vec2.x q)).
  { revert Hx. unfold Rabs. destruct (Rcase_abs _); intro; nra. }
  assert (Ay : dy * dy <= (Vec2.y hubCenter - Vec2.y q) * (Vec2.y hubCenter - Vec2.y q)).
  { revert Hy. unfold Rabs. destruct (Rcase_abs _); intro; nra. }
  lra.
Qed.

(** X24. The corner a bot flees to.  [findNearestCorner] answers one of
    the four corner points, 50 in from each edge, and none of the four is
    nearer to the ship.  A ship within 30 of that point, where the bot
    stops, is out of reach of a nuke placed at the hub for the whole life
    of the nuke. *)
Theorem bot_flee_corner (g : GridState.t) :
  let p := Ship.position (GridState.ship g) in
  let c := BotAI.findNearestCorner g in
  In c BotAI.CORNERS /\
  (forall c', In c' BotAI.CORNERS ->
     Vec2.length (Vec2.sub c p) <= Vec2.length (Vec2.sub c' p)) /\
  (Vec2.length (Vec2.sub p c) < 30 ->
   forall (w w' : World) (nuke : Nuke.t) (n : nat),
     Nuke.new hubCenter w = Some (nuke, w') ->
     Nuke.collidesWith (Nat.iter n Nuke.update nuke) p SHIP_COLLISION_RADIUS = false).
Proof.
  intros p c. destruct (findNearestCorner_spec g) as (Hin & Hmin).
  fold c in Hin, Hmin. fold p in Hmin.
  split; [exact Hin|]. split; [exact Hmin|].
  intros Hnear w w' nuke n Hnew.
  apply Nuke_new_shape in Hnew. subst nuke.
  destruct (Nuke_reach (hazardIdCounter w) hubCenter n) as (Hpos & Hrad). cbv zeta in *.
  apply Nuke_collidesWith_far. rewrite Hpos. unfold SHIP_COLLISION_RADIUS.
  assert (Hfar : 390 < Vec2.length (Vec2.sub hubCenter p)); [|lra].
  pose proof (abs_x_le_length (Vec2.sub p c)) as Hx.
  pose proof (abs_y_le_length (Vec2.sub p c)) as Hy.
  cbn [Vec2.sub Vec2.x Vec2.y] in Hx, Hy.
  apply abs_le_between in Hx. apply abs_le_between in Hy.
  unfold BotAI.CORNERS, WORLD_WIDTH, WORLD_HEIGHT in Hin.
  destruct Hin as [Hc|[Hc|[Hc|[Hc|[]]]]]; rewrite <- Hc in Hx, Hy, Hnear;
    cbn [Vec2.x Vec2.y] in Hx, Hy;
    apply (far_from_hub p 520 320);
    unfold hubCenter, WORLD_WIDTH, WORLD_HEIGHT; cbn [Vec2.x Vec2.y];
    try lra; unfold Rabs; destruct (Rcase_abs _); lra.
Qed.

Lemma bot_flee_corner_witness :
  let g := exampleGrid (Ship.new 60 70 PLAYER_COLOR) in
  BotAI.findNearestCorner g = Vec2.mk 50 50 /\
  Nuke.collidesWith (Nat.iter 380 Nuke.update freshNuke) (Ship.position (GridState.ship g))
                    SHIP_COLLISION_RADIUS = false.
Proof.
  intro g.
  assert (Hd : forall cx cy d, 0 <= d ->
            (cx - 60) * (cx - 60) + (cy - 70) * (cy - 70) = d * d ->
            Vec2.length (Vec2.sub (Vec2.mk cx cy) (Ship.position (GridState.ship g))) = d).
  { intros cx cy d H0 Hsq. apply length_of_square; [exact H0|]. cbn. lra. }
  destruct (bot_flee_corner g) as (Hin & Hmin & Hsafe). cbv zeta in *.
  assert (Hc : BotAI.findNearestCorner g = Vec2.mk 50 50).
  { pose proof (Hmin (Vec2.mk 50 50) (or_introl eq_refl)) as Hle.
    assert (H0 : Vec2.length (Vec2.sub (Vec2.mk 50 50) (Ship.position (GridState.ship g)))
                 <= 23).
    { apply length_le_iff; [lra|]. unfold Vec2.lengthSq. cbn. lra. }
    assert (Hfar : forall cx cy, 40 * 40 < (cx - 60) * (cx - 60) + (cy - 70) * (cy - 70) ->
              40 < Vec2.length (Vec2.sub (Vec2.mk cx cy) (Ship.position (GridState.ship g)))).
    { intros cx cy Hsq. apply Rnot_le_lt. intro H. apply length_le_iff in H; [|lra].
      unfold Vec2.lengthSq in H. cbn in H. lra. }
    unfold BotAI.CORNERS, WORLD_WIDTH, WORLD_HEIGHT in Hin.
    destruct Hin as [Hc|[Hc|[Hc|[Hc|[]]]]]; [symmetry; exact Hc| | |];
      exfalso; rewrite <- Hc in Hle;
      match type of Hle with
      | Vec2.length (Vec2.sub (Vec2.mk ?cx ?cy) _) <= _ =>
          pose proof (Hfar cx cy) as Hf
      end; lra. }
  split; [exact Hc|].
  destruct freshNuke_new as (w' & Hnew).
  apply (Hsafe) with (w := exampleWorld) (w' := w'); [|exact Hnew].
  rewrite Hc. apply length_lt_iff; [lra|]. unfold Vec2.lengthSq. cbn. lra.
Defined.

Lemma nearestHazard_fold (g : GridState.t) (hs seen : list Hazard)
    (acc : option Hazard * option R) :
  match acc with
  | (Some h, Some x) => x = distanceTo g h /\ In h seen /\ HazardOps.active h = true /\
                        forall h', In h' seen -> HazardOps.active h' = true ->
                                   x <= distanceTo g h'
  | (None, None) => forall h', In h' seen -> HazardOps.active h' = false
  | _ => False
  end ->
  match fold_left (fun '(nearest, nearestDist) hazard =>
                     if negb (HazardOps.active hazard) then (nearest, nearestDist) else
                     let dist := Vec2.length (Vec2.sub (HazardOps.position hazard)
                                                (Ship.position (GridState.ship g))) in
                     if BotAI.closer dist nearestDist then (Some hazard, Some dist)
                     else (nearest, nearestDist)) hs acc with
  | (Some h, Some x) => x = distanceTo g h /\ In h (seen ++ hs) /\
                        HazardOps.active h = true /\
                        forall h', In h' (seen ++ hs) -> HazardOps.active h' = true ->
                                   x <= distanceTo g h'
  | (None, None) => forall h', In h' (seen ++ hs) -> HazardOps.active h' = false
  | _ => False
  end.
Proof.
  revert seen acc. induction hs as [|h hs IH]; intros seen acc Hinv.
  - cbn [fold_left]. rewrite app_nil_r. exact Hinv.
  - cbn [fold_left].
    replace (seen ++ h :: hs) with ((seen ++ [h]) ++ hs)
      by (rewrite <- app_assoc; reflexivity).
    destruct acc as [[h0|] [x|]]; try contradiction.
    + destruct Hinv as (Hx & Hin & Hact & Hmin).
      destruct (HazardOps.active h) eqn:Hh; cbn [negb].
      * cbv zeta. cbn [BotAI.closer]. fold (distanceTo g h).
        destruct (Rltb (distanceTo g h) x) eqn:Hlt.
        -- apply Rltb_true in Hlt. apply IH. split; [reflexivity|]. split.
           ++ apply in_or_app. right. left. reflexivity.
           ++ split; [exact Hh|]. intros h' Hh' Ha'. apply in_app_or in Hh'.
              destruct Hh' as [Hh'|[<-|[]]]; [specialize (Hmin h' Hh' Ha'); lra | lra].
        -- apply Rltb_false in Hlt. apply IH. split; [exact Hx|]. split.
           ++ apply in_or_app. left. exact Hin.
           ++ split; [exact Hact|]. intros h' Hh' Ha'. apply in_app_or in Hh'.
              destruct Hh' as [Hh'|[<-|[]]]; [exact (Hmin h' Hh' Ha') | exact Hlt].
      * apply IH. split; [exact Hx|]. split; [apply in_or_app; left; exact Hin|].
        split; [exact Hact|]. intros h' Hh' Ha'. apply in_app_or in Hh'.
        destruct Hh' as [Hh'|[<-|[]]]; [exact (Hmin h' Hh' Ha') | congruence].
    + destruct (HazardOps.active h) eqn:Hh; cbn [negb].
      * cbv zeta. cbn [BotAI.closer]. fold (distanceTo g h). apply IH.
        split; [reflexivity|]. split; [apply in_or_app; right; left; reflexivity|].
        split; [exact Hh|]. intros h' Hh' Ha'. apply in_app_or in Hh'.
        destruct Hh' as [Hh'|[<-|[]]]; [rewrite (Hinv h' Hh') in Ha'; discriminate | lra].
      * apply IH. intros h' Hh'. apply in_app_or in Hh'.
        destruct Hh' as [Hh'|[<-|[]]]; [exact (Hinv h' Hh') | exact Hh].
Qed.

Lemma findNearestHazard_spec (g : GridState.t) :
  match BotAI.findNearestHazard g with
  | Some (h, x) => x = distanceTo g h /\ In h (GridState.hazards g) /\
                   HazardOps.active h = true /\
                   forall h', In h' (GridState.hazards g) -> HazardOps.active h' = true ->
                              x <= distanceTo g h'
  | None => forall h', In h' (GridState.hazards g) -> HazardOps.active h' = false
  end.
Proof.
  unfold BotAI.findNearestHazard.
  pose proof (nearestHazard_fold g (GridState.hazards g) [] (None, None)) as H.
  cbn [app] in H.
  destruct (fold_left _ _ _) as [[h|] [x|]]; try (exfalso; apply H; intros h' []).
  - apply H. intros h' [].
  - apply H. intros h' [].
Qed.

Lemma calculateEscapeVector_yields (hazard : Hazard) (g : GridState.t) (w : World) :
  yields (BotAI.calculateEscapeVector hazard g) w (fun _ _ => True).
Proof.
  unfold BotAI.calculateEscapeVector, yields, bind. cbv zeta.
  destruct (Rltb _ 10); unfold bind, random, ret;
    eexists; eexists; (split; [reflexivity | exact I]).
Qed.

Lemma BotState_eqb_eq (a b : BotAI.BotState) : BotAI.BotState_eqb a b = true <-> a = b.
Proof. destruct a, b; split; intro H; try reflexivity; discriminate. Qed.

(** X25. What a bot reacts to first.  [checkStateTransitions] returns, on
    a grid whose hub exists, and the state it leaves depends on the grid
    alone, in this order: FLEE_NUKE when some nuke among the hazards has
    not detonated; otherwise EVADE when some active hazard is nearer than
    the evade distance; otherwise BANK when the filled share of the hold
    reaches the bank threshold; otherwise COLLECT.  The configuration is
    kept, and a bot that stays in its state is not changed at all. *)
Theorem bot_state_priority (g : GridState.t) (bot : BotAI.t) (w : World)
    (hub : Wormhole.t) :
  nth_error (wormholes w) (GridState.wormhole g) = Some hub ->
  yields (BotAI.checkStateTransitions g bot) w
    (fun bot' _ =>
       let cfg := BotAI.config bot in
       let fullness := INR (Ship.getCargoCount (GridState.ship g)) / INR MAX_CARGO_SLOTS in
       let state' := BotAI.currentState bot' in
       BotAI.config bot' = cfg /\
       (nukePending g -> state' = BotAI.FLEE_NUKE) /\
       (~ nukePending g -> hazardNear g cfg -> state' = BotAI.EVADE) /\
       (~ nukePending g -> ~ hazardNear g cfg ->
        BotAI.bankThreshold cfg <= fullness -> state' = BotAI.BANK) /\
       (~ nukePending g -> ~ hazardNear g cfg ->
        fullness < BotAI.bankThreshold cfg -> state' = BotAI.COLLECT) /\
       (state' = BotAI.currentState bot -> bot' = bot)).
Proof.
  intro Hhub. unfold BotAI.checkStateTransitions. cbv zeta.
  destruct (find BotAI.pendingNuke (GridState.hazards g)) as [nuke|] eqn:Hfind.
  { (* a pending nuke *)
    apply find_some in Hfind.
    assert (Hn : nukePending g) by (exists nuke; exact Hfind).
    destruct (BotAI.BotState_eqb (BotAI.currentState bot) BotAI.FLEE_NUKE) eqn:Hs;
      cbn [negb]; apply yields_ret; cbv zeta; cbn [BotAI.config BotAI.currentState].
    - apply BotState_eqb_eq in Hs.
      repeat split; try (intros; first [exact Hs | contradiction | reflexivity]).
    - repeat split; try (intros; first [contradiction | reflexivity]).
      intro H. rewrite <- H in Hs. discriminate. }
  assert (Hno : ~ nukePending g).
  { intros (h & Hin & Hp). rewrite (find_none _ _ Hfind h Hin) in Hp. discriminate. }
  pose proof (findNearestHazard_spec g) as Hnear.
  destruct (BotAI.findNearestHazard g) as [[hazard distance]|].
  - destruct Hnear as (Hd & Hin & Hact & Hmin).
    destruct (Rltb distance (BotAI.evadeDistance (BotAI.config bot))) eqn:Hlt.
    + (* a hazard within the evade distance *)
      apply Rltb_true in Hlt.
      assert (Hnr : hazardNear g (BotAI.config bot)).
      { exists hazard. rewrite <- Hd. repeat split; assumption. }
      destruct (BotAI.BotState_eqb (BotAI.currentState bot) BotAI.EVADE) eqn:Hs; cbn [negb].
      * apply BotState_eqb_eq in Hs. apply yields_ret. cbv zeta.
        repeat split; try (intros; first [exact Hs | contradiction | reflexivity]).
      * apply yields_bind.
        destruct (calculateEscapeVector_yields hazard g w) as (v & w1 & Hrun & _).
        exists v, w1. split; [exact Hrun|]. apply yields_ret. cbv zeta.
        cbn [BotAI.config BotAI.currentState].
        repeat split; try (intros; first [contradiction | reflexivity]).
        intro H. rewrite <- H in Hs. discriminate.
    + apply Rltb_false in Hlt.
      assert (Hnn : ~ hazardNear g (BotAI.config bot)).
      { intros (h' & Hin' & Hact' & Hd'). specialize (Hmin h' Hin' Hact'). lra. }
      clear Hd Hin Hact Hmin Hlt.
      destruct (Rleb _ _) eqn:Hbank.
      * apply Rleb_true in Hbank.
        destruct (BotAI.BotState_eqb (BotAI.currentState bot) BotAI.BANK) eqn:Hs; cbn [negb].
        -- apply BotState_eqb_eq in Hs. apply yields_ret. cbv zeta.
           repeat split; try (intros; first [exact Hs | contradiction | reflexivity | lra]).
        -- apply yields_bind. apply yields_readWormhole with (h := hub); [exact Hhub|].
           apply yields_ret. cbv zeta. cbn [BotAI.config BotAI.currentState].
           repeat split; try (intros; first [contradiction | reflexivity | lra]).
           intro H. rewrite <- H in Hs. discriminate.
      * apply Rleb_false in Hbank.
        destruct (BotAI.BotState_eqb (BotAI.currentState bot) BotAI.COLLECT) eqn:Hs;
          cbn [negb]; apply yields_ret; cbv zeta; cbn [BotAI.config BotAI.currentState].
        -- apply BotState_eqb_eq in Hs.
           repeat split; try (intros; first [exact Hs | contradiction | reflexivity | lra]).
        -- repeat split; try (intros; first [contradiction | reflexivity | lra]).
           intro H. rewrite <- H in Hs. discriminate.
  - assert (Hnn : ~ hazardNear g (BotAI.config bot)).
    { intros (h' & Hin' & Hact' & _). rewrite (Hnear h' Hin') in Hact'. discriminate. }
    clear Hnear.
    destruct (Rleb _ _) eqn:Hbank.
    + apply Rleb_true in Hbank.
      destruct (BotAI.BotState_eqb (BotAI.currentState bot) BotAI.BANK) eqn:Hs; cbn [negb].
      * apply BotState_eqb_eq in Hs. apply yields_ret. cbv zeta.
        repeat split; try (intros; first [exact Hs | contradiction | reflexivity | lra]).
      * apply yields_bind. apply yields_readWormhole with (h := hub); [exact Hhub|].
        apply yields_ret. cbv zeta. cbn [BotAI.config BotAI.currentState].
        repeat split; try (intros; first [contradiction | reflexivity | lra]).
        intro H. rewrite <- H in Hs. discriminate.
    + apply Rleb_false in Hbank.
      destruct (BotAI.BotState_eqb (BotAI.currentState bot) BotAI.COLLECT) eqn:Hs;
        cbn [negb]; apply yields_ret; cbv zeta; cbn [BotAI.config BotAI.currentState].
      * apply BotState_eqb_eq in Hs.
        repeat split; try (intros; first [exact Hs | contradiction | reflexivity | lra]).
      * repeat split; try (intros; first [contradiction | reflexivity | lra]).
        intro H. rewrite <- H in Hs. discriminate.
Qed.

Lemma bot_state_priority_witness :
  let g := GridState.set_hazards [HNuke freshNuke] (exampleGrid (Ship.new 600 600 PLAYER_COLOR)) in
  let bot := BotAI.mk (BotAI.DIFFICULTY_SETTINGS BotAI.hard "#ffff33") BotAI.COLLECT 0 0
                      None None in
  yields (BotAI.checkStateTransitions g bot) exampleWorld
    (fun bot' _ => BotAI.currentState bot' = BotAI.FLEE_NUKE).
Proof.
  intros g bot.
  destruct (bot_state_priority g bot exampleWorld Wormhole.new eq_refl)
    as (bot' & w' & Hrun & _ & Hflee & _).
  exists bot', w'. split; [exact Hrun|]. apply Hflee.
  exists (HNuke freshNuke). split; [left; reflexivity | reflexivity].
Defined.

(** X26. When each bot heads for the hub.  With the shipped difficulty
    settings the bank threshold is reached, for a hold of four slots, at
    four orbs for an easy bot, three for a medium one and two for a hard
    one. *)
Theorem bot_bank_thresholds (d : BotAI.Difficulty) (col : string) (n : nat) :
  (n <= MAX_CARGO_SLOTS)%nat ->
  Rleb (BotAI.bankThreshold (BotAI.DIFFICULTY_SETTINGS d col))
       (INR n / INR MAX_CARGO_SLOTS) = (orbsToBank d <=? n)%nat.
Proof.
  unfold MAX_CARGO_SLOTS. intro Hn.
  assert (Hcases : n = 0%nat \/ n = 1%nat \/ n = 2%nat \/ n = 3%nat \/ n = 4%nat) by lia.
  destruct Hcases as [->|[->|[->|[->| ->]]]]; destruct d;
    cbn [BotAI.DIFFICULTY_SETTINGS BotAI.bankThreshold orbsToBank Nat.leb INR];
    first [ apply Rleb_true; lra | apply Rleb_false; lra ].
Qed.

Lemma bot_bank_thresholds_witness :
  Rleb (BotAI.bankThreshold (BotAI.DIFFICULTY_SETTINGS BotAI.easy "#ff33ff"))
       (INR 3 / INR MAX_CARGO_SLOTS) = false.
Proof.
  apply (bot_bank_thresholds BotAI.easy "#ff33ff" 3). unfold MAX_CARGO_SLOTS. lia.
Defined.

(** ** Where things spawn *)

Lemma getRandomPosition_band (center : Vec2.t) (minDistance : R) (w w' : World)
    (p : Vec2.t) :
  randomInRange w -> 0 <= minDistance ->
  getRandomPosition center minDistance w = Some (p, w') ->
  minDistance <= Vec2.length (Vec2.sub p center) < minDistance + 200 /\
  randoms w' = randoms w.
Proof.
  intros Hw Hmin. unfold getRandomPosition, bind, random, ret. cbv zeta.
  intro H. injection H as <- <-. cbn [randoms cursor]. split; [|reflexivity].
  pose proof (Hw (S (cursor w))) as Hr.
  set (d := minDistance + randoms w (S (cursor w)) * 200) in *.
  set (a := randoms w (cursor w) * PI * 2).
  assert (Hd : Vec2.length (Vec2.sub (Vec2.mk (Vec2.x center + cos a * d)
                                              (Vec2.y center + sin a * d)) center) = d).
  { apply length_of_square; [subst d; lra|]. cbn [Vec2.sub Vec2.x Vec2.y].
    pose proof (sin2_cos2 a) as Hsc. unfold Rsqr in Hsc.
    replace ((Vec2.x center + cos a * d - Vec2.x center) *
             (Vec2.x center + cos a * d - Vec2.x center) +
             (Vec2.y center + sin a * d - Vec2.y center) *
             (Vec2.y center + sin a * d - Vec2.y center))
      with ((sin a * sin a + cos a * cos a) * (d * d)) by ring.
    rewrite Hsc. ring. }
  rewrite Hd. subst d. lra.
Qed.

(** X27. Spawn distances.  With random draws in [0, 1),
    [getRandomPosition] answers a point whose distance from the centre is
    at least the minimum given and less than 200 more; so a drone is
    launched between 150 and 350 from the hub position it is given, and a
    mine laid between 250 and 450 from it. *)
Theorem spawn_distance_band (ship : ShipRef) (hub : Vec2.t) (w : World) :
  randomInRange w ->
  (forall minDistance, 0 <= minDistance ->
     yields (getRandomPosition hub minDistance) w
       (fun p _ => minDistance <= Vec2.length (Vec2.sub p hub) < minDistance + 200)) /\
  yields (spawnSeeker ship hub) w
    (fun h _ => HazardOps.type h = SEEKER /\
                150 <= Vec2.length (Vec2.sub (HazardOps.position h) hub) < 350) /\
  yields (spawnMine hub) w
    (fun h _ => HazardOps.type h = MINE /\
                250 <= Vec2.length (Vec2.sub (HazardOps.position h) hub) < 450).
Proof.
  intro Hw. split; [|split].
  - intros m Hm.
    destruct (getRandomPosition_returns (fun _ => True) hub m w I) as (p & w' & Hrun & _).
    exists p, w'. split; [exact Hrun|].
    exact (proj1 (getRandomPosition_band hub m w w' p Hw Hm Hrun)).
  - destruct (spawnSeeker_returns (fun _ => True) ship hub w I) as (h & w' & Hrun & _).
    exists h, w'. split; [exact Hrun|].
    unfold spawnSeeker in Hrun. apply bind_some in Hrun.
    destruct Hrun as (p & w1 & Hp & Hrun). apply bind_some in Hrun.
    destruct Hrun as (d & w2 & Hd & Hret). unfold ret in Hret. injection Hret as <- _.
    destruct (getRandomPosition_band hub 150 w w1 p Hw ltac:(lra) Hp) as (Hband & _).
    unfold SeekerDrone.new, bind, nextHazardId, random, ret in Hd. cbv zeta in Hd.
    injection Hd as <- _. cbn. split; [reflexivity | lra].
  - destruct (spawnMine_returns (fun _ => True) hub w I) as (h & w' & Hrun & _).
    exists h, w'. split; [exact Hrun|].
    unfold spawnMine in Hrun. apply bind_some in Hrun.
    destruct Hrun as (p & w1 & Hp & Hrun). apply bind_some in Hrun.
    destruct Hrun as (m & w2 & Hm & Hret). unfold ret in Hret. injection Hret as <- _.
    destruct (getRandomPosition_band hub 250 w w1 p Hw ltac:(lra) Hp) as (Hband & _).
    unfold Mine.new, bind, nextHazardId, ret in Hm. cbv zeta in Hm.
    injection Hm as <- _. cbn. split; [reflexivity | lra].
Qed.

Lemma spawn_distance_band_witness :
  yields (spawnMine hubCenter) exampleWorld
    (fun h _ => 250 <= Vec2.length (Vec2.sub (HazardOps.position h) hubCenter) < 450).
Proof.
  destruct (spawn_distance_band player hubCenter exampleWorld exampleWorld_inRange)
    as (_ & _ & h & w' & Hrun & _ & Hband).
  exists h, w'. split; [exact Hrun | exact Hband].
Defined.

(** ** Orb spawning *)

Lemma mapSet_length (k : Z) (v : Orb.t) (m : list (Z * Orb.t)) :
  (List.length (GridState.mapSet k v m) <= S (List.length m))%nat.
Proof.
  induction m as [|[k' v'] m IH]; cbn [GridState.mapSet List.length]; [lia|].
  destruct (k' =? k)%Z; cbn [List.length]; lia.
Qed.

Lemma spawnOrbLoop_place (attempts : nat) (g : GridState.t) (w w' : World)
    (g' : GridState.t) :
  randomInRange w ->
  GridState.spawnOrbLoop attempts g w = Some (g', w') ->
  g' = g \/
  exists orb, g' = GridState.set_orbs (GridState.mapSet (Orb.id orb) orb (GridState.orbs g)) g /\
              goodOrbPlace g (Orb.position orb).
Proof.
  revert w. induction attempts as [|n IH]; intros w Hw Hrun.
  - cbn [GridState.spawnOrbLoop] in Hrun. unfold ret in Hrun. injection Hrun as <- _.
    left. reflexivity.
  - cbn [GridState.spawnOrbLoop] in Hrun.
    apply bind_some in Hrun. destruct Hrun as (r1 & w1 & Hr1 & Hrun).
    apply bind_some in Hrun. destruct Hrun as (r2 & w2 & Hr2 & Hrun).
    assert (Hw2 : randomInRange w2 /\ 0 <= r1 < 1 /\ 0 <= r2 < 1).
    { unfold random in Hr1, Hr2. injection Hr1 as <- <-. injection Hr2 as <- <-.
      split; [exact Hw|]. split; [apply Hw | apply (Hw (S (cursor w)))]. }
    destruct Hw2 as (Hw2 & Hin1 & Hin2). cbv zeta in Hrun.
    set (pos := Vec2.mk (GridState.MIN_EDGE_DISTANCE +
                           r1 * (WORLD_WIDTH - GridState.MIN_EDGE_DISTANCE * 2))
                        (GridState.MIN_EDGE_DISTANCE +
                           r2 * (WORLD_HEIGHT - GridState.MIN_EDGE_DISTANCE * 2))) in *.
    destruct (Rleb GridState.MIN_SPAWN_DISTANCE _) eqn:Hfar; [|exact (IH w2 Hw2 Hrun)].
    destruct (existsb _ (GridState.orbs g)) eqn:Hclose; cbn [negb] in Hrun;
      [exact (IH w2 Hw2 Hrun)|].
    apply bind_some in Hrun. destruct Hrun as (ty & w3 & _ & Hrun).
    apply bind_some in Hrun. destruct Hrun as (orb & w4 & Horb & Hret).
    unfold ret in Hret. injection Hret as <- _.
    assert (Hpos : Orb.position orb = pos).
    { unfold Orb.new, bind, nextOrbId, random, ret in Horb. injection Horb as <- _.
      reflexivity. }
    right. exists orb. split; [reflexivity|]. rewrite Hpos.
    unfold goodOrbPlace. split; [|split].
    + subst pos. cbn [Vec2.x Vec2.y].
      unfold GridState.MIN_EDGE_DISTANCE, WORLD_WIDTH, WORLD_HEIGHT. lra.
    + apply Rleb_true in Hfar. exact Hfar.
    + intros kv Hkv. apply Rltb_false.
      destruct (Rltb (Vec2.length (Vec2.sub pos (Orb.position (snd kv)))) (ORB_RADIUS * 3))
        eqn:Hkv'; [|reflexivity].
      assert (Hex : existsb (fun kv0 =>
                       Rltb (Vec2.length (Vec2.sub pos (Orb.position (snd kv0))))
                            (ORB_RADIUS * 3)) (GridState.orbs g) = true).
      { apply existsb_exists. exists kv. split; assumption. }
      rewrite Hex in Hclose. discriminate.
Qed.

Lemma spawnOrb_place (g : GridState.t) (w w' : World) (g' : GridState.t) :
  randomInRange w ->
  GridState.spawnOrb g w = Some (g', w') ->
  g' = g \/
  exists orb, g' = GridState.set_orbs (GridState.mapSet (Orb.id orb) orb (GridState.orbs g)) g /\
              goodOrbPlace g (Orb.position orb).
Proof. exact (spawnOrbLoop_place 50 g w w' g'). Qed.

Lemma updateOrbSpawning_place (g : GridState.t) (w w' : World) (g' : GridState.t) :
  randomInRange w ->
  GridState.updateOrbSpawning g w = Some (g', w') ->
  (GridState.orbs g' = GridState.orbs g \/
   exists orb,
     GridState.orbs g' = GridState.mapSet (Orb.id orb) orb (GridState.orbs g) /\
     goodOrbPlace g (Orb.position orb)) /\
  ((GridState.MAX_ORBS <= List.length (GridState.orbs g))%nat -> g' = g).
Proof.
  intros Hw Hrun.
  unfold GridState.updateOrbSpawning in Hrun.
  destruct (GridState.MAX_ORBS <=? List.length (GridState.orbs g))%nat eqn:Hcap.
  { unfold ret in Hrun. injection Hrun as <- _. split; [left|]; reflexivity. }
  apply Nat.leb_gt in Hcap. split; [|intro; lia].
  cbv zeta in Hrun.
  destruct (Rleb _ _) in Hrun.
  - apply bind_some in Hrun. destruct Hrun as (g2 & w2 & Hspawn & Hrun).
    apply bind_some in Hrun. destruct Hrun as (r & w3 & _ & Hret).
    unfold ret in Hret. injection Hret as <- _.
    apply spawnOrb_place in Hspawn; [|exact Hw].
    destruct Hspawn as [->|(orb & -> & Hplace)].
    + left. reflexivity.
    + right. exists orb. split; [reflexivity | exact Hplace].
  - unfold ret in Hrun. injection Hrun as <- _. left. reflexivity.
Qed.

(** X28. Orb spawning.  With random draws in [0, 1), [updateOrbSpawning]
    returns and adds at most one orb; any orb it adds lies at least 50 in
    from every edge, at least 150 from the centre of the world and at least
    36 from every orb already on the grid.  A grid that already holds 12
    orbs or more is left exactly as it is, so a grid that starts within the
    cap of 12 stays within it. *)
Theorem orb_spawning (g : GridState.t) (w : World) :
  randomInRange w ->
  yields (GridState.updateOrbSpawning g) w
    (fun g' _ =>
       (GridState.orbs g' = GridState.orbs g \/
        exists orb,
          GridState.orbs g' = GridState.mapSet (Orb.id orb) orb (GridState.orbs g) /\
          goodOrbPlace g (Orb.position orb)) /\
       ((GridState.MAX_ORBS <= List.length (GridState.orbs g))%nat -> g' = g) /\
       ((List.length (GridState.orbs g) <= GridState.MAX_ORBS)%nat ->
        (List.length (GridState.orbs g') <= GridState.MAX_ORBS)%nat)).
Proof.
  intro Hw.
  destruct (updateOrbSpawning_returns (fun _ => True) g w I) as (g' & w' & Hrun & _).
  exists g', w'. split; [exact Hrun|].
  destruct (updateOrbSpawning_place g w w' g' Hw Hrun) as (Hcase & Hfull).
  split; [exact Hcase|]. split; [exact Hfull|]. intro Hlen.
  destruct (Nat.eq_dec (List.length (GridState.orbs g)) GridState.MAX_ORBS) as [Heq|Hne].
  - rewrite (Hfull ltac:(lia)). exact Hlen.
  - destruct Hcase as [->|(orb & -> & _)]; [exact Hlen|].
    pose proof (mapSet_length (Orb.id orb) orb (GridState.orbs g)). lia.
Qed.

Lemma orb_spawning_witness :
  yields (GridState.updateOrbSpawning (exampleGrid (Ship.new 600 600 PLAYER_COLOR)))
         exampleWorld
    (fun g' _ => (List.length (GridState.orbs g') <= GridState.MAX_ORBS)%nat).
Proof.
  destruct (orb_spawning (exampleGrid (Ship.new 600 600 PLAYER_COLOR)) exampleWorld
              exampleWorld_inRange) as (g' & w' & Hrun & _ & _ & Hcap).
  exists g', w'. split; [exact Hrun|]. apply Hcap. cbn. unfold GridState.MAX_ORBS. lia.
Defined.

(** ** Game: firing *)

(** X29. Rate of fire.  A shot is taken only when the round is on, the
    player's ship is alive and at least 150 ms have passed since the last
    shot; otherwise [handleShoot] changes nothing.  A shot adds one bullet
    at the end of the list, 15 ahead of the ship along its heading, with
    the identifier the counter held, and a further trigger less than 150 ms
    later is ignored.  Identifiers below the counter stay below it and
    stay distinct. *)
Theorem rate_of_fire (now : R) (gm : GameRound.t) :
  let ship := GridState.ship (GameRound.playerGrid gm) in
  let gm' := GameRound.handleShoot now gm in
  let ready := negb (GameRound.gameOver gm || Ship.isDead ship)
               && Rleb GameRound.SHOOT_COOLDOWN (now - GameRound.lastShotTime gm) in
  (ready = false -> gm' = gm) /\
  (ready = true ->
   exists b,
     GameRound.bullets gm' = GameRound.bullets gm ++ [b] /\
     Bullet.position b =
       Vec2.add (Ship.position ship) (Vec2.mul (Vec2.fromAngle (Ship.angle ship)) 15) /\
     Bullet.angle b = Ship.angle ship /\ Bullet.active b = true /\
     Bullet.id b = GameRound.bulletNextId gm /\
     GameRound.bulletNextId gm' = (GameRound.bulletNextId gm + 1)%Z /\
     GameRound.lastShotTime gm' = now /\
     GameRound.playerGrid gm' = GameRound.playerGrid gm /\
     (forall later, later - now < GameRound.SHOOT_COOLDOWN ->
        GameRound.handleShoot later gm' = gm')) /\
  (Forall (fun b => (Bullet.id b < GameRound.bulletNextId gm)%Z) (GameRound.bullets gm) ->
   NoDup (map Bullet.id (GameRound.bullets gm)) ->
   Forall (fun b => (Bullet.id b < GameRound.bulletNextId gm')%Z) (GameRound.bullets gm') /\
   NoDup (map Bullet.id (GameRound.bullets gm'))).
Proof.
  intros ship gm' ready. subst gm' ready. unfold GameRound.handleShoot. fold ship.
  destruct (GameRound.gameOver gm || Ship.isDead ship) eqn:Hoff; cbn [negb andb].
  { split; [reflexivity|]. split; [discriminate|]. intros H1 H2. split; assumption. }
  destruct (Rltb (now - GameRound.lastShotTime gm) GameRound.SHOOT_COOLDOWN) eqn:Hcool.
  { apply Rltb_true in Hcool. rewrite (proj2 (Rleb_false _ _) Hcool).
    split; [reflexivity|]. split; [discriminate|]. intros H1 H2. split; assumption. }
  apply Rltb_false in Hcool. rewrite (proj2 (Rleb_true _ _) Hcool). cbv zeta.
  cbn [Bullet.new]. split; [discriminate|]. split.
  - intros _. eexists. split; [reflexivity|].
    cbn [Bullet.position Bullet.angle Bullet.active Bullet.id GameRound.bulletNextId
         GameRound.lastShotTime GameRound.playerGrid].
    split; [unfold Vec2.clone, Vec2.add; reflexivity|].
    repeat (split; [reflexivity|]).
    intros later Hlater. unfold GameRound.handleShoot.
    cbn [GameRound.gameOver GameRound.playerGrid GameRound.lastShotTime]. fold ship.
    rewrite Hoff. rewrite (proj2 (Rltb_true _ _) Hlater). reflexivity.
  - intros Hids Hnodup.
    cbn [GameRound.bullets GameRound.bulletNextId]. split.
    + apply Forall_app. split.
      * eapply Forall_impl; [|exact Hids]. cbv beta. intros b Hb. lia.
      * constructor; [cbn [Bullet.id]; lia | constructor].
    + rewrite map_app. cbn [map Bullet.id].
      apply NoDup_app; [exact Hnodup | repeat constructor; intros [] |].
      intros i Hi [<-|[]]. apply in_map_iff in Hi. destruct Hi as (b & Hb & Hin).
      rewrite Forall_forall in Hids. specialize (Hids b Hin). lia.
Qed.

Lemma rate_of_fire_witness :
  GameRound.handleShoot 100 exampleRound = exampleRound /\
  (exists b, GameRound.bullets (GameRound.handleShoot 200 exampleRound) = [b]).
Proof.
  destruct (rate_of_fire 100 exampleRound) as (Hidle & _).
  destruct (rate_of_fire 200 exampleRound) as (_ & Hshot & _).
  split.
  - apply Hidle. cbn [GameRound.gameOver exampleRound GameRound.playerGrid exampleGrid
                      GridState.ship Ship.new Ship.isDead orb negb andb
                      GameRound.lastShotTime].
    apply Rleb_false. unfold GameRound.SHOOT_COOLDOWN. lra.
  - destruct Hshot as (b & Hb & _).
    + cbn [GameRound.gameOver exampleRound GameRound.playerGrid exampleGrid
           GridState.ship Ship.new Ship.isDead orb negb andb GameRound.lastShotTime].
      apply Rleb_true. unfold GameRound.SHOOT_COOLDOWN. lra.
    + exists b. exact Hb.
Defined.

(** ** Game: banked orbs become an attack on an opponent *)

Lemma addKillFeed_head (message : string) (gm : GameRound.t) :
  hd_error (GameRound.killFeed (GameRound.addKillFeed message gm)) = Some message /\
  GameRound.grids (GameRound.addKillFeed message gm) = GameRound.grids gm.
Proof.
  split; [|reflexivity]. unfold GameRound.addKillFeed. cbv zeta.
  cbn [GameRound.killFeed GameRound.set_killFeed].
  destruct (GameRound.killFeed gm) as [|a l]; [reflexivity|].
  destruct (_ <? _)%nat; reflexivity.
Qed.

Lemma setGridAt_nth (i : nat) (v target : GridState.t) (gm : GameRound.t) :
  nth_error (GameRound.grids gm) i = Some target ->
  nth_error (GameRound.grids (GameRound.setGridAt i v gm)) i = Some v.
Proof.
  unfold GameRound.setGridAt, GameRound.grids. destruct i as [|i]; intro H.
  - reflexivity.
  - cbn [GameRound.playerGrid GameRound.botGrids GameRound.set_botGrids nth_error] in *.
    exact (nth_error_setAt i v target _ H).
Qed.

(** X30. Banked orbs attack an opponent, never the banker.  When the
    banking owner has a grid whose hub exists and the random draws lie in
    [0, 1), [handleBankOrbs] returns.  The attack is the one
    [translateCargoToAttack] makes of the banked orbs for the banker's
    ship at the banker's hub; its description is put at the head of the
    kill feed under the banker's name; and either the banker has no living
    opponent and every grid is as before, or exactly one grid, not the
    banker's and with a living ship, is replaced by what [spawnAttack]
    makes of it with that attack.  Every grid of the banker's own, and
    every grid whose ship is dead, is exactly as before. *)
Theorem banked_orbs_attack_an_opponent (sourceOwner : GridOwner) (orbs : list OrbType)
    (gm : GameRound.t) (w : World) (sourceGrid : GridState.t) (hub : Wormhole.t) :
  randomInRange w ->
  find (fun g => GridOwner_eqb (GridState.owner g) sourceOwner) (GameRound.grids gm)
    = Some sourceGrid ->
  nth_error (wormholes w) (GridState.wormhole sourceGrid) = Some hub ->
  yields (GameRound.handleBankOrbs sourceOwner orbs gm) w
    (fun gm' _ =>
       (exists (r : AttackResult.t) (w1 : World),
          translateCargoToAttack orbs (GridState.owner sourceGrid) (Wormhole.position hub) w
            = Some (r, w1) /\
          hd_error (GameRound.killFeed gm') =
            Some ((match sourceOwner with player => "Player" | o => ownerUpper o end)
                  ++ " >> " ++ AttackResult.description r)%string /\
          ((GameRound.livingOpponents sourceOwner gm = [] /\
            GameRound.grids gm' = GameRound.grids gm) \/
           (exists i target,
              nth_error (GameRound.grids gm) i = Some target /\
              GridState.owner target <> sourceOwner /\
              Ship.isDead (GridState.ship target) = false /\
              nth_error (GameRound.grids gm') i =
                Some (GridState.spawnAttack r sourceOwner target) /\
              (forall j, j <> i ->
                 nth_error (GameRound.grids gm') j = nth_error (GameRound.grids gm) j)))) /\
       List.length (GameRound.grids gm') = List.length (GameRound.grids gm) /\
       (forall j g, nth_error (GameRound.grids gm) j = Some g ->
          GridState.owner g = sourceOwner \/ Ship.isDead (GridState.ship g) = true ->
          nth_error (GameRound.grids gm') j = Some g)).
Proof.
  intros Hw Hfind Hhub. unfold GameRound.handleBankOrbs. rewrite Hfind.
  apply yields_bind. apply yields_readWormhole with (h := hub); [exact Hhub|].
  destruct (translateCargoToAttack_returns orbs (GridState.owner sourceGrid)
              (Wormhole.position hub) w Hw) as (r & w1 & Hrun & Hrand & _).
  assert (Hw1 : randomInRange w1) by (unfold randomInRange; rewrite Hrand; exact Hw).
  apply yields_bind. exists r, w1. split; [exact Hrun|].
  apply yields_bind.
  destruct (spawnAttackToRandomTarget_spec sourceOwner r gm w1 Hw1)
    as (gm1 & w2 & Hrun2 & Hcase).
  exists gm1, w2. split; [exact Hrun2|]. apply yields_ret.
  match goal with
  | |- context [GameRound.addKillFeed ?m gm1] =>
      destruct (addKillFeed_head m gm1) as (Hhead & Hgrids)
  end.
  rewrite Hgrids.
  destruct Hcase as [(Hnone & ->)|(i & target & Ht & Ho & Hd & Hgm1 & Hother)].
  - split; [|split; [reflexivity|]].
    + exists r, w1. split; [exact Hrun|]. split; [exact Hhead|].
      left. split; [exact Hnone | reflexivity].
    + intros j g Hg _. exact Hg.
  - split; [|split].
    + exists r, w1. split; [exact Hrun|]. split; [exact Hhead|].
      right. exists i, target. split; [exact Ht|]. split; [exact Ho|]. split; [exact Hd|].
      split; [|exact Hother]. rewrite Hgm1. exact (setGridAt_nth i _ target gm Ht).
    + rewrite Hgm1. unfold GameRound.setGridAt, GameRound.grids.
      destruct i as [|i]; cbn [GameRound.playerGrid GameRound.botGrids
                               GameRound.set_playerGrid GameRound.set_botGrids List.length];
        [reflexivity|]. rewrite setAt_length. reflexivity.
    + intros j g Hg Hwho.
      assert (Hji : j <> i).
      { intros ->. rewrite Ht in Hg. injection Hg as <-.
        destruct Hwho as [Hwho|Hwho]; [contradiction | congruence]. }
      rewrite (Hother j Hji). exact Hg.
Qed.

Lemma banked_orbs_attack_an_opponent_witness :
  yields (GameRound.handleBankOrbs player [RED; RED] exampleRound) exampleWorld
    (fun gm' _ =>
       GameRound.playerGrid gm' = GameRound.playerGrid exampleRound /\
       exists r w1,
         translateCargoToAttack [RED; RED] player hubCenter exampleWorld = Some (r, w1) /\
         hd_error (GameRound.killFeed gm') =
           Some ("Player" ++ " >> " ++ AttackResult.description r)%string).
Proof.
  destruct (banked_orbs_attack_an_opponent player [RED; RED] exampleRound exampleWorld
              (GameRound.playerGrid exampleRound) Wormhole.new
              exampleWorld_inRange eq_refl eq_refl)
    as (gm' & w' & Hrun & (r & w1 & Hr & Hhead & _) & _ & Hkeep).
  exists gm', w'. split; [exact Hrun|]. split.
  - pose proof (Hkeep 0%nat (GameRound.playerGrid exampleRound) eq_refl (or_introl eq_refl))
      as H0.
    cbn [GameRound.grids nth_error] in H0. injection H0 as H0. exact H0.
  - exists r, w1. split; [exact Hr | exact Hhead].
Defined.
